(** * contrast-grid: the data pipeline of [src/js/scripts.js]

    A shallow embedding of the functions of [scripts.js] that parse the
    two text areas, persist the two axes in the query string, read them
    back, build the markup of the grid and flag the cells below the
    threshold.

    JavaScript strings are sequences of UTF-16 code units; they are
    modelled as lists of integers, each in [0, 65536).  Numbers are
    the doubles, as the rationals they stand for.  The colour library
    (tinycolor) and the HTML parser behind [innerHTML] are interfaces
    the embedding is parametric in.  What the functions call on the
    platform (string methods, JSON, encodeURIComponent and
    decodeURIComponent, URLSearchParams, the address of the page,
    toFixed and parseFloat) is modelled after the ECMAScript, URL and
    Encoding standards. *)

From Stdlib Require String Ascii.
Import String.StringSyntax.
Delimit Scope string_scope with string.
From Stdlib Require Import List ZArith Lia Bool QArith Qround Lqa.
Import ListNotations.
Local Open Scope Z_scope.
Set Warnings "-register-all".

(* ================================================================= *)
(** ** JavaScript strings *)

Module JSString.

Definition jsstring := list Z.

(** A literal of the source, written as a Rocq string of ASCII characters. *)
Definition lit (s : String.string) : jsstring :=
  map (fun a => Z.of_N (Ascii.N_of_ascii a)) (String.list_ascii_of_string s).

(** The same with every apostrophe standing for a double quote. *)
Definition litq (s : String.string) : jsstring :=
  map (fun c => if c =? 39 then 34 else c) (lit s).

Definition code_unit (c : Z) : Prop := 0 <= c < 65536.
Definition wf_string (s : jsstring) : Prop := Forall code_unit s.

Fixpoint jseqb (a b : jsstring) : bool :=
  match a, b with
  | [], [] => true
  | x :: a', y :: b' => (x =? y) && jseqb a' b'
  | _, _ => false
  end.

Definition LF : Z := 10.
Definition COLON : Z := 58.
Definition SEMICOLON : Z := 59.
Definition COMMA : Z := 44.

(** ECMAScript LineTerminator: the characters the regular expression
    atom [.] does not match (no [s] flag). *)
Definition isLineTerminator (c : Z) : bool :=
  (c =? 10) || (c =? 13) || (c =? 8232) || (c =? 8233).

(** ECMAScript WhiteSpace and LineTerminator, the characters
    [String.prototype.trim] removes. *)
Definition isWhiteSpace (c : Z) : bool :=
  (c =? 9) || (c =? 11) || (c =? 12) || (c =? 32) || (c =? 160)
  || (c =? 5760) || ((8192 <=? c) && (c <=? 8202))
  || (c =? 8239) || (c =? 8287) || (c =? 12288) || (c =? 65279)
  || isLineTerminator c.

Fixpoint trimStart (s : jsstring) : jsstring :=
  match s with
  | c :: r => if isWhiteSpace c then trimStart r else s
  | [] => []
  end.

Definition trimEnd (s : jsstring) : jsstring := rev (trimStart (rev s)).

(** [s.trim()] *)
Definition trim (s : jsstring) : jsstring := trimEnd (trimStart s).

(** [s.split(sep)] for a separator of one code unit: never empty,
    [''.split(sep)] is [['']]. *)
Fixpoint split (sep : Z) (s : jsstring) : list jsstring :=
  match s with
  | [] => [[]]
  | c :: r =>
      if c =? sep then [] :: split sep r
      else match split sep r with
           | seg :: segs => (c :: seg) :: segs
           | [] => [[c]]
           end
  end.

(** [s.replaceAll] of the first cleaning statement, whose pattern is a
    semicolon followed by any run of characters other than line
    terminators, global: every match starts at a semicolon and runs up
    to, and not including, the next line terminator. *)
Fixpoint removeSemicolonRuns (inMatch : bool) (s : jsstring) : jsstring :=
  match s with
  | [] => []
  | c :: r =>
      if inMatch then
        if isLineTerminator c then c :: removeSemicolonRuns false r
        else removeSemicolonRuns true r
      else if c =? SEMICOLON then removeSemicolonRuns true r
      else c :: removeSemicolonRuns false r
  end.

(** [s.replaceAll] of the second cleaning statement, whose pattern is
    a comma at the end of input (no [m] flag): at most the last code
    unit goes. *)
Fixpoint removeFinalComma (s : jsstring) : jsstring :=
  match s with
  | [] => []
  | [c] => if c =? COMMA then [] else [c]
  | c :: r => c :: removeFinalComma r
  end.

Definition isEmpty (s : jsstring) : bool :=
  match s with [] => true | _ => false end.

(** What follows the code unit [c] at the head of [s], when [s] starts
    with it. *)
Definition afterHead (c : Z) (s : jsstring) : option jsstring :=
  match s with
  | x :: r => if x =? c then Some r else None
  | [] => None
  end.

(** Shapes of a trimmed string. *)
Definition noLeadingWS (s : jsstring) : Prop :=
  match s with c :: _ => isWhiteSpace c = false | [] => True end.

Definition noTrailingWS (s : jsstring) : Prop := noLeadingWS (rev s).

End JSString.
Import JSString.

(* ================================================================= *)
(** ** The colour library *)

(** What [scripts.js] calls on tinycolor.  [isValid] is applied to the
    strings of the text areas; the other three are applied to
    [data.color], which is [undefined] ([None]) on an object without
    that property. *)
Class ColorMath := {
  isValid : jsstring -> bool;
  toHexString : option jsstring -> jsstring;
  readability : option jsstring -> option jsstring -> Q;
  mostReadableHex : option jsstring -> list jsstring -> jsstring
}.

(* ================================================================= *)
(** ** Objects with string properties *)

(** The objects [getInputData] builds have the properties [color] and
    [name] only, with strings for values.  An object keeps its
    properties in insertion order; an assignment to an existing
    property keeps its place. *)
Inductive key : Type := Kcolor | Kname.

Definition key_eqb (a b : key) : bool :=
  match a, b with
  | Kcolor, Kcolor | Kname, Kname => true
  | _, _ => false
  end.

Definition keyString (k : key) : jsstring :=
  match k with
  | Kcolor => lit "color"%string
  | Kname => lit "name"%string
  end.

Definition ColorEntry := list (key * jsstring).

Fixpoint obj_get (k : key) (o : ColorEntry) : option jsstring :=
  match o with
  | [] => None
  | (k', v) :: r => if key_eqb k' k then Some v else obj_get k r
  end.

Fixpoint obj_set (k : key) (v : jsstring) (o : ColorEntry) : ColorEntry :=
  match o with
  | [] => [(k, v)]
  | (k', v') :: r =>
      if key_eqb k' k then (k, v) :: r else (k', v') :: obj_set k v r
  end.

(** [Object.keys(data)] *)
Definition obj_keys (o : ColorEntry) : list key := map fst o.

(** ['name' in data] *)
Definition obj_has (k : key) (o : ColorEntry) : bool :=
  match obj_get k o with Some _ => true | None => false end.

(* ================================================================= *)
(** ** getInputData *)

Section InputParser.
Context {CM : ColorMath}.

(** The two statements that clean [item] at the head of the inner
    callback. *)
Definition cleanItem (item : jsstring) : jsstring :=
  let item := trim (removeSemicolonRuns false item) in
  trim (removeFinalComma item).

(** State of the inner [forEach]: [data] and [lineHasValidColor]. *)
Definition lineState : Type := ColorEntry * bool.

(** One call of the inner callback [(item, index) => ...]. *)
Definition itemCallback (st : lineState) (item : jsstring) (index : nat)
  : lineState :=
  if (2 <=? index)%nat then st
  else
    let item := cleanItem item in
    let data := fst st in
    if isValid item then (obj_set Kcolor item data, true)
    else if (0 <? length item)%nat then (obj_set Kname item data, false)
    else (data, false).

(** [array.forEach((item, index) => ...)] threading the state. *)
Fixpoint forEachIndexed {S A : Type} (f : S -> A -> nat -> S)
  (l : list A) (index : nat) (st : S) : S :=
  match l with
  | [] => st
  | a :: r => forEachIndexed f r (Datatypes.S index) (f st a index)
  end.

Definition lineData (line : jsstring) : lineState :=
  forEachIndexed itemCallback (split COLON line) 0%nat ([], false).

(** One call of the outer callback [line => ...] on [outputArray]. *)
Definition lineCallback (outputArray : list ColorEntry) (line : jsstring)
  : list ColorEntry :=
  let '(data, lineHasValidColor) := lineData line in
  if (0 <? length (obj_keys data))%nat && lineHasValidColor
  then outputArray ++ [data]
  else outputArray.

Definition getInputData (string : jsstring) : list ColorEntry :=
  fold_left lineCallback (split LF string) [].

(** What one line contributes. *)
Definition lineEntries (line : jsstring) : list ColorEntry :=
  lineCallback [] line.

(** What precedes the first semicolon. *)
Fixpoint beforeSemicolon (s : jsstring) : jsstring :=
  match s with
  | [] => []
  | c :: r => if c =? SEMICOLON then [] else c :: beforeSemicolon r
  end.

(** The segments the inner callback does not skip, and the last one. *)
Definition processedSegments (line : jsstring) : list jsstring :=
  firstn 2 (split COLON line).

Definition lastProcessedSegment (line : jsstring) : jsstring :=
  last (processedSegments line) [].

End InputParser.

(* ================================================================= *)
(** ** Exceptions *)

Inductive exn : Type := URIError | SyntaxError | TypeError.

Inductive result (A : Type) : Type :=
| Ok (a : A)
| Throw (e : exn).
Arguments Ok {A} a.
Arguments Throw {A} e.

Definition bind {A B : Type} (m : result A) (f : A -> result B) : result B :=
  match m with
  | Ok a => f a
  | Throw e => Throw e
  end.

Notation "x <- m ;; k" := (bind m (fun x => k))
  (at level 61, m at next level, right associativity).

Definition obind {A B : Type} (m : option A) (f : A -> option B) : option B :=
  match m with
  | Some a => f a
  | None => None
  end.

Notation "x <-? m ;; k" := (obind m (fun x => k))
  (at level 61, m at next level, right associativity).

(* ================================================================= *)
(** ** Code points, UTF-16 and UTF-8 *)

Module Unicode.

Definition isLeadSurrogate (c : Z) : bool := (55296 <=? c) && (c <=? 56319).
Definition isTrailSurrogate (c : Z) : bool := (56320 <=? c) && (c <=? 57343).
Definition isSurrogate (c : Z) : bool := (55296 <=? c) && (c <=? 57343).

(** A Unicode scalar value: a code point that is not a surrogate. *)
Definition isScalar (cp : Z) : bool :=
  (0 <=? cp) && (cp <? 1114112) && negb (isSurrogate cp).

Definition REPLACEMENT : Z := 65533.

(** UTF16SurrogatePairToCodePoint *)
Definition pairToCodePoint (lead trail : Z) : Z :=
  (lead - 55296) * 1024 + (trail - 56320) + 65536.

(** UTF16EncodeCodePoint *)
Definition utf16Encode (cp : Z) : jsstring :=
  if cp <? 65536 then [cp]
  else [(cp - 65536) / 1024 + 55296; (cp - 65536) mod 1024 + 56320].

(** StringToCodePoints: a lead surrogate followed by a trail surrogate
    is one code point, any other code unit stands for itself. *)
Fixpoint stringToCodePoints (s : jsstring) : list Z :=
  match s with
  | [] => []
  | c :: r =>
      if isLeadSurrogate c then
        match r with
        | d :: r' =>
            if isTrailSurrogate d
            then pairToCodePoint c d :: stringToCodePoints r'
            else c :: stringToCodePoints r
        | [] => [c]
        end
      else c :: stringToCodePoints r
  end.

(** Conversion of a JavaScript string to a scalar value string (Web
    IDL USVString): what is not a scalar value, an unpaired surrogate,
    becomes U+FFFD. *)
Definition toUSV (s : jsstring) : list Z :=
  map (fun cp => if isScalar cp then cp else REPLACEMENT)
      (stringToCodePoints s).

(** A scalar value string as a JavaScript string. *)
Definition ofUSV (cps : list Z) : jsstring := flat_map utf16Encode cps.

(** The UTF-8 bytes of a code point.  The shifts and masks of the
    encoder are written as quotients and remainders. *)
Definition utf8EncodeCodePoint (cp : Z) : list Z :=
  if cp <? 128 then [cp]
  else if cp <? 2048 then [192 + cp / 64; 128 + cp mod 64]
  else if cp <? 65536 then
    [224 + cp / 4096; 128 + (cp / 64) mod 64; 128 + cp mod 64]
  else
    [240 + cp / 262144; 128 + (cp / 4096) mod 64;
     128 + (cp / 64) mod 64; 128 + cp mod 64].

Definition utf8Encode (cps : list Z) : list Z :=
  flat_map utf8EncodeCodePoint cps.

Definition inRange (lo hi b : Z) : bool := (lo <=? b) && (b <=? hi).
Definition isContinuation (b : Z) : bool := inRange 128 191 b.

(** Bounds of the second byte after a lead byte of a three-byte and of
    a four-byte sequence (no overlong forms, no surrogates, nothing
    above U+10FFFF). *)
Definition secondLower3 (b : Z) : Z := if b =? 224 then 160 else 128.
Definition secondUpper3 (b : Z) : Z := if b =? 237 then 159 else 191.
Definition secondLower4 (b : Z) : Z := if b =? 240 then 144 else 128.
Definition secondUpper4 (b : Z) : Z := if b =? 244 then 143 else 191.

Definition cp2 (b1 b2 : Z) : Z := (b1 - 192) * 64 + (b2 - 128).
Definition cp3 (b1 b2 b3 : Z) : Z :=
  ((b1 - 224) * 64 + (b2 - 128)) * 64 + (b3 - 128).
Definition cp4 (b1 b2 b3 b4 : Z) : Z :=
  (((b1 - 240) * 64 + (b2 - 128)) * 64 + (b3 - 128)) * 64 + (b4 - 128).

(** "UTF-8 decode without BOM" of the Encoding standard: the decoder's
    state machine unrolled per lead byte.  A byte that cannot continue
    the sequence under way ends it with U+FFFD and is read again as the
    start of the next one. *)
Fixpoint utf8DecodeLossy (bytes : list Z) : list Z :=
  match bytes with
  | [] => []
  | b1 :: r1 =>
      if inRange 0 127 b1 then b1 :: utf8DecodeLossy r1
      else if inRange 194 223 b1 then
        match r1 with
        | [] => [REPLACEMENT]
        | b2 :: r2 =>
            if isContinuation b2 then cp2 b1 b2 :: utf8DecodeLossy r2
            else REPLACEMENT :: utf8DecodeLossy r1
        end
      else if inRange 224 239 b1 then
        match r1 with
        | [] => [REPLACEMENT]
        | b2 :: r2 =>
            if inRange (secondLower3 b1) (secondUpper3 b1) b2 then
              match r2 with
              | [] => [REPLACEMENT]
              | b3 :: r3 =>
                  if isContinuation b3
                  then cp3 b1 b2 b3 :: utf8DecodeLossy r3
                  else REPLACEMENT :: utf8DecodeLossy r2
              end
            else REPLACEMENT :: utf8DecodeLossy r1
        end
      else if inRange 240 244 b1 then
        match r1 with
        | [] => [REPLACEMENT]
        | b2 :: r2 =>
            if inRange (secondLower4 b1) (secondUpper4 b1) b2 then
              match r2 with
              | [] => [REPLACEMENT]
              | b3 :: r3 =>
                  if isContinuation b3 then
                    match r3 with
                    | [] => [REPLACEMENT]
                    | b4 :: r4 =>
                        if isContinuation b4
                        then cp4 b1 b2 b3 b4 :: utf8DecodeLossy r4
                        else REPLACEMENT :: utf8DecodeLossy r3
                    end
                  else REPLACEMENT :: utf8DecodeLossy r2
              end
            else REPLACEMENT :: utf8DecodeLossy r1
        end
      else REPLACEMENT :: utf8DecodeLossy r1
  end.

(** Hexadecimal digits. *)
Definition hexUpper (n : Z) : Z := if n <? 10 then 48 + n else 55 + n.
Definition hexLower (n : Z) : Z := if n <? 10 then 48 + n else 87 + n.

Definition hexValue (c : Z) : option Z :=
  if inRange 48 57 c then Some (c - 48)
  else if inRange 65 70 c then Some (c - 55)
  else if inRange 97 102 c then Some (c - 87)
  else None.

Definition isAsciiAlphanumeric (c : Z) : bool :=
  inRange 48 57 c || inRange 65 90 c || inRange 97 122 c.

Definition PERCENT : Z := 37.

(** A byte as a percent sign and two upper-case hexadecimal digits. *)
Definition percentEncodeByte (b : Z) : list Z :=
  [PERCENT; hexUpper (b / 16); hexUpper (b mod 16)].

End Unicode.
Import Unicode.

(* ================================================================= *)
(** ** encodeURIComponent and decodeURIComponent *)

Module URI.

(** uriUnreserved: letters, digits and [-_.!~*'()]. *)
Definition isUnreserved (c : Z) : bool :=
  isAsciiAlphanumeric c
  || (c =? 45) || (c =? 95) || (c =? 46) || (c =? 33) || (c =? 126)
  || (c =? 42) || (c =? 39) || (c =? 40) || (c =? 41).

Definition escapeCodePoint (cp : Z) : jsstring :=
  flat_map percentEncodeByte (utf8EncodeCodePoint cp).

(** Encode(string, uriUnreserved): an unreserved code unit is copied;
    otherwise the code point at that place is written as the escapes
    of its UTF-8 bytes, and an unpaired surrogate throws. *)
Fixpoint encodeURIComponent (s : jsstring) : result jsstring :=
  match s with
  | [] => Ok []
  | c :: r =>
      if isUnreserved c then
        rest <- encodeURIComponent r ;; Ok (c :: rest)
      else if isLeadSurrogate c then
        match r with
        | d :: r' =>
            if isTrailSurrogate d then
              rest <- encodeURIComponent r' ;;
              Ok (escapeCodePoint (pairToCodePoint c d) ++ rest)
            else Throw URIError
        | [] => Throw URIError
        end
      else if isTrailSurrogate c then Throw URIError
      else
        rest <- encodeURIComponent r ;; Ok (escapeCodePoint c ++ rest)
  end.

(** What Decode reads: a code unit that is not part of an escape, or
    the byte of an escape. *)
Inductive item : Type :=
| Unit (c : Z)
| Octet (b : Z).

(** First pass of Decode: every percent sign must start an escape of
    two hexadecimal digits. *)
Fixpoint unescape (s : jsstring) : result (list item) :=
  match s with
  | [] => Ok []
  | c :: r =>
      if c =? PERCENT then
        match r with
        | h1 :: h2 :: r' =>
            match hexValue h1, hexValue h2 with
            | Some a, Some b =>
                rest <- unescape r' ;; Ok (Octet (16 * a + b) :: rest)
            | _, _ => Throw URIError
            end
        | _ => Throw URIError
        end
      else
        rest <- unescape r ;; Ok (Unit c :: rest)
  end.

(** Second pass of Decode: a byte below 128 is a code unit; a lead byte
    announces one to three escapes that must follow at once and form,
    with it, the UTF-8 encoding of a code point. *)
Fixpoint decodeOctets (items : list item) : result jsstring :=
  match items with
  | [] => Ok []
  | Unit c :: r => rest <- decodeOctets r ;; Ok (c :: rest)
  | Octet b1 :: r1 =>
      if inRange 0 127 b1 then
        rest <- decodeOctets r1 ;; Ok (b1 :: rest)
      else if inRange 194 223 b1 then
        match r1 with
        | Octet b2 :: r2 =>
            if isContinuation b2 then
              rest <- decodeOctets r2 ;; Ok (utf16Encode (cp2 b1 b2) ++ rest)
            else Throw URIError
        | _ => Throw URIError
        end
      else if inRange 224 239 b1 then
        match r1 with
        | Octet b2 :: Octet b3 :: r3 =>
            if inRange (secondLower3 b1) (secondUpper3 b1) b2
               && isContinuation b3 then
              rest <- decodeOctets r3 ;;
              Ok (utf16Encode (cp3 b1 b2 b3) ++ rest)
            else Throw URIError
        | _ => Throw URIError
        end
      else if inRange 240 244 b1 then
        match r1 with
        | Octet b2 :: Octet b3 :: Octet b4 :: r4 =>
            if inRange (secondLower4 b1) (secondUpper4 b1) b2
               && isContinuation b3 && isContinuation b4 then
              rest <- decodeOctets r4 ;;
              Ok (utf16Encode (cp4 b1 b2 b3 b4) ++ rest)
            else Throw URIError
        | _ => Throw URIError
        end
      else Throw URIError
  end.

(** Decode(string, the empty set) in two passes.  It throws on the same
    strings as the single pass of the language specification, which
    also has URIError as its only exception. *)
Definition decodeURIComponent (s : jsstring) : result jsstring :=
  items <- unescape s ;; decodeOctets items.

End URI.
Import URI.

(* ================================================================= *)
(** ** URLSearchParams *)

Module URLSearchParams.

Definition AMP : Z := 38.
Definition EQUALS : Z := 61.
Definition PLUS : Z := 43.
Definition SPACE : Z := 32.
Definition QUESTION : Z := 63.

(** A list of name-value pairs of scalar value strings. *)
Definition t : Type := list (list Z * list Z).

Definition usv_eqb : list Z -> list Z -> bool := jseqb.

(** Bytes the application/x-www-form-urlencoded serializer leaves as
    they are: letters, digits and [*-._]. *)
Definition isFormSafe (b : Z) : bool :=
  isAsciiAlphanumeric b || (b =? 42) || (b =? 45) || (b =? 46) || (b =? 95).

Definition serializeByte (b : Z) : list Z :=
  if b =? SPACE then [PLUS]
  else if isFormSafe b then [b]
  else percentEncodeByte b.

Definition serializeString (s : list Z) : list Z :=
  flat_map serializeByte (utf8Encode s).

Definition serializePair (p : list Z * list Z) : list Z :=
  serializeString (fst p) ++ EQUALS :: serializeString (snd p).

Fixpoint joinWith (sep : Z) (l : list (list Z)) : list Z :=
  match l with
  | [] => []
  | [x] => x
  | x :: r => x ++ sep :: joinWith sep r
  end.

(** The serializer, that is [`${urlParams}`]. *)
Definition toString (l : t) : jsstring :=
  joinWith AMP (map serializePair l).

(** Percent-decoding of a byte sequence: a percent sign that two
    hexadecimal digits do not follow stays as it is. *)
Fixpoint percentDecode (s : list Z) : list Z :=
  match s with
  | [] => []
  | c :: r =>
      if c =? PERCENT then
        match r with
        | h1 :: h2 :: r' =>
            match hexValue h1, hexValue h2 with
            | Some a, Some b => (16 * a + b) :: percentDecode r'
            | _, _ => c :: percentDecode r
            end
        | _ => c :: percentDecode r
        end
      else c :: percentDecode r
  end.

(** The part before the first [=] and the part after it. *)
Fixpoint splitAtEquals (s : list Z) : list Z * list Z :=
  match s with
  | [] => ([], [])
  | c :: r =>
      if c =? EQUALS then ([], r)
      else let (n, v) := splitAtEquals r in (c :: n, v)
  end.

Definition plusToSpace (s : list Z) : list Z :=
  map (fun b => if b =? PLUS then SPACE else b) s.

Definition decodeComponent (s : list Z) : list Z :=
  utf8DecodeLossy (percentDecode (plusToSpace s)).

Definition parseSequence (s : list Z) : list Z * list Z :=
  let (n, v) := splitAtEquals s in (decodeComponent n, decodeComponent v).

(** The application/x-www-form-urlencoded parser on bytes. *)
Definition parseBytes (input : list Z) : t :=
  map parseSequence (filter (fun s => negb (isEmpty s)) (split AMP input)).

(** [new URLSearchParams(init)] for a string: a leading question mark
    is dropped, the rest is parsed as UTF-8 bytes. *)
Definition ofString (init : jsstring) : t :=
  let init := match init with
              | c :: r => if c =? QUESTION then r else init
              | [] => []
              end in
  parseBytes (utf8Encode (toUSV init)).

(** [urlParams.get(name)]: the first value under the name, or [null]. *)
Fixpoint getUSV (name : list Z) (l : t) : option (list Z) :=
  match l with
  | [] => None
  | (n, v) :: r => if usv_eqb n name then Some v else getUSV name r
  end.

Definition get (name : jsstring) (l : t) : option jsstring :=
  option_map ofUSV (getUSV (toUSV name) l).

(** [urlParams.getAll(name)] *)
Definition getAll (name : jsstring) (l : t) : list jsstring :=
  map (fun p => ofUSV (snd p))
      (filter (fun p => usv_eqb (fst p) (toUSV name)) l).

Definition has (name : jsstring) (l : t) : bool :=
  existsb (fun p => usv_eqb (fst p) (toUSV name)) l.

Definition deleteUSV (name : list Z) (l : t) : t :=
  filter (fun p => negb (usv_eqb (fst p) name)) l.

(** [urlParams.delete(name)] *)
Definition delete (name : jsstring) (l : t) : t :=
  deleteUSV (toUSV name) l.

(** [urlParams.set(name, value)]: the first pair under the name takes
    the value and the other pairs under it go; with no such pair, the
    new one is appended. *)
Fixpoint setUSV (name value : list Z) (l : t) : t :=
  match l with
  | [] => [(name, value)]
  | (n, v) :: r =>
      if usv_eqb n name then (name, value) :: deleteUSV name r
      else (n, v) :: setUSV name value r
  end.

Definition set (name value : jsstring) (l : t) : t :=
  setUSV (toUSV name) (toUSV value) l.

End URLSearchParams.

(* ================================================================= *)
(** ** The address of the page *)

Module Location.

Definition HASH : Z := 35.

(** The special-query percent-encode set of the URL standard. *)
Definition inQueryEncodeSet (cp : Z) : bool :=
  (cp <=? 32) || (126 <? cp) || (cp =? 34) || (cp =? 35) || (cp =? 60)
  || (cp =? 62) || (cp =? 39).

Definition isTabOrNewline (c : Z) : bool := (c =? 9) || (c =? 10) || (c =? 13).

Fixpoint untilHash (s : list Z) : list Z :=
  match s with
  | [] => []
  | c :: r => if c =? HASH then [] else c :: untilHash r
  end.

Definition queryEncodeCodePoint (cp : Z) : list Z :=
  if inQueryEncodeSet cp
  then flat_map percentEncodeByte (utf8EncodeCodePoint cp)
  else [cp].

(** The query the URL parser keeps from the text after the question
    mark of an address of an http(s) page in UTF-8: tabs and line
    breaks are removed, a number sign ends the query, and what the
    query may not hold is percent-encoded. *)
Definition parseQuery (afterQuestionMark : jsstring) : jsstring :=
  flat_map queryEncodeCodePoint
    (untilHash (toUSV (filter (fun c => negb (isTabOrNewline c))
                              afterQuestionMark))).

(** [location.search] of an address with that query. *)
Definition searchOfQuery (query : jsstring) : jsstring :=
  match query with
  | [] => []
  | _ => URLSearchParams.QUESTION :: query
  end.

End Location.

(* ================================================================= *)
(** ** JSON *)

Module JSON.

(** What [JSON.parse] returns.  A number is kept as its token: no
    property below depends on the value of one, and its conversion to
    a double is not modelled.  An object is kept as the members of the
    text, in the order of the text. *)
Inductive json : Type :=
| JNull
| JBool (b : bool)
| JNum (token : jsstring)
| JStr (s : jsstring)
| JArr (elements : list json)
| JObj (members : list (jsstring * json)).

Definition QUOTE : Z := 34.
Definition BACKSLASH : Z := 92.

Definition hex4 (c : Z) : jsstring :=
  [hexLower ((c / 4096) mod 16); hexLower ((c / 256) mod 16);
   hexLower ((c / 16) mod 16); hexLower (c mod 16)].

(** The six characters of [\uXXXX], in lower case. *)
Definition unicodeEscape (c : Z) : jsstring :=
  BACKSLASH :: 117 :: hex4 c.

(** One code point of QuoteJSONString that is not a surrogate pair. *)
Definition quoteCodeUnit (c : Z) : jsstring :=
  if c =? 8 then [BACKSLASH; 98]
  else if c =? 9 then [BACKSLASH; 116]
  else if c =? 10 then [BACKSLASH; 110]
  else if c =? 12 then [BACKSLASH; 102]
  else if c =? 13 then [BACKSLASH; 114]
  else if c =? QUOTE then [BACKSLASH; QUOTE]
  else if c =? BACKSLASH then [BACKSLASH; BACKSLASH]
  else if (c <? 32) || isSurrogate c then unicodeEscape c
  else [c].

(** The inside of QuoteJSONString, code point by code point: a
    surrogate pair is copied, an unpaired surrogate is escaped. *)
Fixpoint quoteBody (s : jsstring) : jsstring :=
  match s with
  | [] => []
  | c :: r =>
      if isLeadSurrogate c then
        match r with
        | d :: r' =>
            if isTrailSurrogate d then c :: d :: quoteBody r'
            else quoteCodeUnit c ++ quoteBody r
        | [] => quoteCodeUnit c
        end
      else quoteCodeUnit c ++ quoteBody r
  end.

Definition quoteJSONString (s : jsstring) : jsstring :=
  QUOTE :: quoteBody s ++ [QUOTE].

Definition stringifyProperty (p : key * jsstring) : jsstring :=
  quoteJSONString (keyString (fst p)) ++ 58 :: quoteJSONString (snd p).

(** [JSON.stringify] of an object of [getInputData]. *)
Definition stringifyEntry (e : ColorEntry) : jsstring :=
  123 :: URLSearchParams.joinWith 44 (map stringifyProperty e) ++ [125].

(** [JSON.stringify] of an array of such objects. *)
Definition stringifyEntries (l : list ColorEntry) : jsstring :=
  91 :: URLSearchParams.joinWith 44 (map stringifyEntry l) ++ [93].

(** The value [JSON.parse] gives back for such an array. *)
Definition ofEntry (e : ColorEntry) : json :=
  JObj (map (fun p => (keyString (fst p), JStr (snd p))) e).

Definition ofEntries (l : list ColorEntry) : json := JArr (map ofEntry l).

(** *** The parser *)

Definition isJSONWhiteSpace (c : Z) : bool :=
  (c =? 9) || (c =? 10) || (c =? 13) || (c =? 32).

Fixpoint skipWhiteSpace (s : jsstring) : jsstring :=
  match s with
  | c :: r => if isJSONWhiteSpace c then skipWhiteSpace r else s
  | [] => []
  end.

Definition simpleEscape (c : Z) : option Z :=
  if c =? QUOTE then Some QUOTE
  else if c =? BACKSLASH then Some BACKSLASH
  else if c =? 47 then Some 47
  else if c =? 98 then Some 8
  else if c =? 102 then Some 12
  else if c =? 110 then Some 10
  else if c =? 114 then Some 13
  else if c =? 116 then Some 9
  else None.

Definition hex4Value (h1 h2 h3 h4 : Z) : option Z :=
  a <-? hexValue h1 ;; b <-? hexValue h2 ;;
  c <-? hexValue h3 ;; d <-? hexValue h4 ;;
  Some (((a * 16 + b) * 16 + c) * 16 + d).

(** A string token from after its opening quote: the string and what
    follows the closing quote. *)
Fixpoint parseStringBody (s : jsstring) : option (jsstring * jsstring) :=
  match s with
  | [] => None
  | c :: r =>
      if c =? QUOTE then Some ([], r)
      else if c =? BACKSLASH then
        match r with
        | [] => None
        | e :: r' =>
            if e =? 117 then
              match r' with
              | h1 :: h2 :: h3 :: h4 :: r'' =>
                  u <-? hex4Value h1 h2 h3 h4 ;;
                  p <-? parseStringBody r'' ;;
                  Some (u :: fst p, snd p)
              | _ => None
              end
            else
              x <-? simpleEscape e ;;
              p <-? parseStringBody r' ;;
              Some (x :: fst p, snd p)
        end
      else if c <? 32 then None
      else
        p <-? parseStringBody r ;; Some (c :: fst p, snd p)
  end.

Definition isDigit (c : Z) : bool := inRange 48 57 c.

Fixpoint spanDigits (s : jsstring) : jsstring * jsstring :=
  match s with
  | c :: r =>
      if isDigit c then let (d, rest) := spanDigits r in (c :: d, rest)
      else ([], s)
  | [] => ([], [])
  end.

(** The integer part of a number: a single zero, or digits that do not
    start with a zero. *)
Definition parseInt (s : jsstring) : option (jsstring * jsstring) :=
  match s with
  | c :: r =>
      if c =? 48 then Some ([48], r)
      else if isDigit c then Some (spanDigits s)
      else None
  | [] => None
  end.

Definition parseFraction (s : jsstring) : option (jsstring * jsstring) :=
  match afterHead 46 s with
  | Some r =>
      let (d, rest) := spanDigits r in
      if isEmpty d then None else Some (46 :: d, rest)
  | None => Some ([], s)
  end.

Definition parseExponent (s : jsstring) : option (jsstring * jsstring) :=
  match s with
  | c :: r =>
      if (c =? 101) || (c =? 69) then
        let (sign, r') :=
          match r with
          | x :: r1 => if (x =? 43) || (x =? 45) then ([x], r1) else ([], r)
          | [] => ([], r)
          end in
        let (d, rest) := spanDigits r' in
        if isEmpty d then None else Some (c :: sign ++ d, rest)
      else Some ([], s)
  | [] => Some ([], s)
  end.

Definition parseNumber (s : jsstring) : option (jsstring * jsstring) :=
  let (minus, s1) :=
    match afterHead 45 s with
    | Some r => ([45], r)
    | None => ([], s)
    end in
  i <-? parseInt s1 ;;
  f <-? parseFraction (snd i) ;;
  e <-? parseExponent (snd f) ;;
  Some (minus ++ fst i ++ fst f ++ fst e, snd e).

Fixpoint stripPrefix (p s : jsstring) : option jsstring :=
  match p, s with
  | [], _ => Some s
  | a :: p', b :: s' => if a =? b then stripPrefix p' s' else None
  | _ :: _, [] => None
  end.

(** Recursive descent.  Every call consumes a code unit before the
    next one, so fuel above the length of the text never runs out. *)
Fixpoint parseValue (fuel : nat) (s : jsstring) : option (json * jsstring) :=
  match fuel with
  | O => None
  | S f =>
      match skipWhiteSpace s with
      | [] => None
      | c :: r =>
          if c =? QUOTE then
            p <-? parseStringBody r ;; Some (JStr (fst p), snd p)
          else if c =? 91 then
            match afterHead 93 (skipWhiteSpace r) with
            | Some r' => Some (JArr [], r')
            | None =>
                v <-? parseValue f r ;;
                vs <-? parseElements f (snd v) ;;
                Some (JArr (fst v :: fst vs), snd vs)
            end
          else if c =? 123 then
            match afterHead 125 (skipWhiteSpace r) with
            | Some r' => Some (JObj [], r')
            | None =>
                m <-? parseMember f r ;;
                ms <-? parseMembers f (snd m) ;;
                Some (JObj (fst m :: fst ms), snd ms)
            end
          else if c =? 116 then
            rest <-? stripPrefix (lit "rue"%string) r ;; Some (JBool true, rest)
          else if c =? 102 then
            rest <-? stripPrefix (lit "alse"%string) r ;;
            Some (JBool false, rest)
          else if c =? 110 then
            rest <-? stripPrefix (lit "ull"%string) r ;; Some (JNull, rest)
          else
            n <-? parseNumber (c :: r) ;; Some (JNum (fst n), snd n)
      end
  end

with parseElements (fuel : nat) (s : jsstring)
  : option (list json * jsstring) :=
  match fuel with
  | O => None
  | S f =>
      match skipWhiteSpace s with
      | c :: r =>
          if c =? 93 then Some ([], r)
          else if c =? 44 then
            v <-? parseValue f r ;;
            vs <-? parseElements f (snd v) ;;
            Some (fst v :: fst vs, snd vs)
          else None
      | [] => None
      end
  end

with parseMember (fuel : nat) (s : jsstring)
  : option ((jsstring * json) * jsstring) :=
  match fuel with
  | O => None
  | S f =>
      match skipWhiteSpace s with
      | c :: r =>
          if c =? QUOTE then
            k <-? parseStringBody r ;;
            r' <-? afterHead 58 (skipWhiteSpace (snd k)) ;;
            v <-? parseValue f r' ;; Some ((fst k, fst v), snd v)
          else None
      | [] => None
      end
  end

with parseMembers (fuel : nat) (s : jsstring)
  : option (list (jsstring * json) * jsstring) :=
  match fuel with
  | O => None
  | S f =>
      match skipWhiteSpace s with
      | c :: r =>
          if c =? 125 then Some ([], r)
          else if c =? 44 then
            m <-? parseMember f r ;;
            ms <-? parseMembers f (snd m) ;;
            Some (fst m :: fst ms, snd ms)
          else None
      | [] => None
      end
  end.

(** [JSON.parse(text)] *)
Definition parse (text : jsstring) : result json :=
  match parseValue (S (length text)) text with
  | Some (v, rest) =>
      match skipWhiteSpace rest with
      | [] => Ok v
      | _ => Throw SyntaxError
      end
  | None => Throw SyntaxError
  end.

End JSON.

(* ================================================================= *)
(** ** Numbers: toFixed(2), parseFloat and [<] *)

Module Number.

(** A JavaScript number.  A finite number is given by its exact
    value, a rational; the numbers of the program are those that a
    double holds, and what reads a number from decimal text rounds to
    the nearest of them ([toDouble] below). *)
Inductive jsnumber : Type :=
| NaN
| Finite (q : Q)
| Infinity (negative : bool).

Definition Qltb (a b : Q) : bool := negb (Qle_bool b a).

(** [a < b] on numbers. *)
Definition lt (a b : jsnumber) : bool :=
  match a, b with
  | NaN, _ | _, NaN => false
  | Finite x, Finite y => Qltb x y
  | Finite _, Infinity neg => negb neg
  | Infinity neg, Finite _ => neg
  | Infinity n1, Infinity n2 => n1 && negb n2
  end.

(** Decimal digits of a natural number, most significant first. *)
Fixpoint digitsFuel (fuel : nat) (n : Z) : jsstring :=
  match fuel with
  | O => [48 + n mod 10]
  | S f =>
      if n <? 10 then [48 + n]
      else digitsFuel f (n / 10) ++ [48 + n mod 10]
  end.

Definition digits (n : Z) : jsstring := digitsFuel (Z.to_nat (Z.log2 n)) n.

Fixpoint digitsValueFrom (acc : Z) (s : jsstring) : Z :=
  match s with
  | [] => acc
  | c :: r => digitsValueFrom (10 * acc + (c - 48)) r
  end.

Definition digitsValue (s : jsstring) : Z := digitsValueFrom 0 s.

(** The integer [n] with [n / 100 - x] closest to zero, the larger one
    of two, for [x] not negative. *)
Definition hundredths (x : Q) : Z := Qfloor (x * 100 + (1 # 2)).

Definition padTo3 (m : jsstring) : jsstring :=
  repeat 48 (3 - length m) ++ m.

(** [x.toFixed(2)] for a finite [x] of magnitude below 10^21, where the
    result is in decimal notation; contrast ratios lie between 1 and
    21. *)
Definition toFixed2 (x : Q) : jsstring :=
  let negative := Qltb x 0 in
  let x := if negative then Qopp x else x in
  let m := padTo3 (digits (hundredths x)) in
  let k := length m in
  (if negative then [45] else [])
  ++ firstn (k - 2) m ++ 46 :: skipn (k - 2) m.

(** [m * 10^e] *)
Definition scale10 (m e : Z) : Q := (inject_Z m * Qpower 10 e)%Q.

Definition isExponentMark (c : Z) : bool := (c =? 101) || (c =? 69).

(** The exponent part at the head of [s], when there is one. *)
Definition exponentValue (s : jsstring) : Z :=
  match s with
  | c :: r =>
      if isExponentMark c then
        let '(negative, r') :=
          match r with
          | x :: r1 =>
              if x =? 45 then (true, r1)
              else if x =? 43 then (false, r1)
              else (false, r)
          | [] => (false, r)
          end in
        let d := fst (JSON.spanDigits r') in
        if isEmpty d then 0
        else if negative then - digitsValue d else digitsValue d
      else 0
  | [] => 0
  end.

(** *** The double nearest to a rational

    A Number is a double.  The value of a decimal literal is the
    double nearest to it, ties to the one with an even mantissa (the
    Number value for a mathematical value, of the ECMAScript standard
    and of IEEE 754). *)

(** The integer nearest to [a / b], the even one of two, for positive
    [b]. *)
Definition roundHalfEven (a b : Z) : Z :=
  let m := a / b in
  match 2 * (a mod b) ?= b with
  | Lt => m
  | Gt => m + 1
  | Eq => if Z.even m then m else m + 1
  end.

(** Every double is a multiple of the smallest one, [2^-1074], and a
    positive [n / d] is counted in that unit, [n * 2^1074 / d].  In a
    binade whose values have more than 53 bits in that unit, the
    doubles are the multiples of [2^s] for the [s] that leaves 53
    bits: [shiftOf] is that [s], and [weightOf] the nearest double,
    in units. *)
Definition shiftOf (n d : Z) : Z :=
  Z.max (Z.log2 (n * 2 ^ 1074 / d) - 52) 0.

Definition weightOf (n d : Z) : Z :=
  roundHalfEven (n * 2 ^ 1074) (d * 2 ^ shiftOf n d) * 2 ^ shiftOf n d.

(** The double nearest to [n / d], for positive [n] and [d]; [None]
    when the result is beyond the largest double. *)
Definition roundPositive (n d : Z) : option Q :=
  let w := weightOf n d in
  if 2 ^ 2098 <=? w then None else Some (Qred (w # Z.to_pos (2 ^ 1074))).

(** The Number value for the rational [q]; the two zeros are one. *)
Definition toDouble (q : Q) : jsnumber :=
  let q := Qred q in
  match Qnum q with
  | 0 => Finite 0
  | Zpos n =>
      match roundPositive (Zpos n) (Zpos (Qden q)) with
      | Some v => Finite v
      | None => Infinity false
      end
  | Zneg n =>
      match roundPositive (Zpos n) (Zpos (Qden q)) with
      | Some v => Finite (Qopp v)
      | None => Infinity true
      end
  end.

(** [parseFloat(string)]: leading white space goes, then the longest
    prefix that is a decimal literal is read, and its value is rounded
    to a double; [NaN] without one. *)
Definition parseFloat (s : jsstring) : jsnumber :=
  let t := trimStart s in
  let '(negative, t1) :=
    match t with
    | c :: r =>
        if c =? 45 then (true, r)
        else if c =? 43 then (false, r)
        else (false, t)
    | [] => (false, t)
    end in
  match JSON.stripPrefix (lit "Infinity"%string) t1 with
  | Some _ => Infinity negative
  | None =>
      let (ip, t2) := JSON.spanDigits t1 in
      let (fp, t3) :=
        match afterHead 46 t2 with
        | Some r => JSON.spanDigits r
        | None => ([], t2)
        end in
      match ip ++ fp with
      | [] => NaN
      | ds =>
          let e := exponentValue t3 in
          let v := scale10 (digitsValue ds) (e - Z.of_nat (length fp)) in
          toDouble (if negative then Qopp v else v)
      end
  end.

End Number.
Import Number.

(* ================================================================= *)
(** ** The markup of the table *)

(** The functions that build the table return markup: the text of
    their template literals, with the strings of the entries and of
    the library put in as they are. *)

Definition indent (k : nat) : jsstring := repeat 32 k.

(** A property of an entry inside a template: the string, or
    [undefined] for a property that is not there. *)
Definition templateString (v : option jsstring) : jsstring :=
  match v with
  | Some s => s
  | None => lit "undefined"%string
  end.

Definition blackAndWhite : list jsstring :=
  [lit "#fff"%string; lit "#000"%string].

(** The text between the tags of a cell: the ratio to two decimals
    between the line breaks and the indentation of the template. *)
Definition cellText (shown : jsstring) : jsstring :=
  LF :: indent 10 ++ shown ++ LF :: indent 8.

Section MatrixModel.
Context {CM : ColorMath}.

(** The inner template of the name,
    [('name' in data) ? `<div class="color-name">...</div>` : '']. *)
Definition colorNameMarkup (data : ColorEntry) : jsstring :=
  if obj_has Kname data then
    LF :: indent 14 ++ litq "<div class='color-name'>"%string
    ++ LF :: indent 16 ++ templateString (obj_get Kname data)
    ++ LF :: indent 14 ++ lit "</div>"%string
    ++ LF :: indent 14
  else [].

Definition buildHeaderRow (xAxisData : list ColorEntry) : jsstring :=
  let headerCells :=
    concat
      (map (fun data =>
              LF :: indent 8 ++ litq "<th scope='col' style='"%string
              ++ LF :: indent 12 ++ lit "--color: "%string
              ++ toHexString (obj_get Kcolor data) ++ lit ";"%string
              ++ LF :: indent 12 ++ lit "--text-color: "%string
              ++ mostReadableHex (obj_get Kcolor data) blackAndWhite
              ++ lit ";"%string
              ++ LF :: indent 8 ++ litq "'>"%string
              ++ LF :: indent 10 ++ lit "<span>"%string
              ++ LF :: indent 12 ++ colorNameMarkup data
              ++ LF :: indent 12 ++ templateString (obj_get Kcolor data)
              ++ LF :: indent 10 ++ lit "</span>"%string
              ++ LF :: indent 8 ++ lit "</th>"%string
              ++ LF :: indent 6)
           xAxisData) in
  LF :: indent 6 ++ lit "<tr>"%string
  ++ LF :: indent 8 ++ lit "<td></td>"%string
  ++ LF :: indent 8 ++ headerCells
  ++ LF :: indent 6 ++ lit "</tr>"%string
  ++ LF :: indent 4.

Definition buildTableTds (xAxisData : list ColorEntry)
  (compareColor : option jsstring) : jsstring :=
  concat
    (map (fun data =>
            let readability :=
              readability (obj_get Kcolor data) compareColor in
            LF :: indent 8
            ++ litq "<td tabindex='0' role='button' style='"%string
            ++ LF :: indent 12 ++ lit "--color-1: "%string
            ++ toHexString (obj_get Kcolor data) ++ lit ";"%string
            ++ LF :: indent 12 ++ lit "--color-2: "%string
            ++ toHexString compareColor ++ lit ";"%string
            ++ LF :: indent 12 ++ lit "--hover-text-color: "%string
            ++ mostReadableHex (obj_get Kcolor data) blackAndWhite
            ++ lit ";"%string
            ++ LF :: indent 8 ++ litq "'>"%string
            ++ cellText (toFixed2 readability)
            ++ lit "</td>"%string
            ++ LF :: indent 6)
         xAxisData).

Definition buildDataRows (xAxisData yAxisData : list ColorEntry)
  : jsstring :=
  concat
    (map (fun data =>
            LF :: indent 8 ++ lit "<tr>"%string
            ++ LF :: indent 10 ++ litq "<th scope='row' style='"%string
            ++ LF :: indent 12 ++ lit "--color: "%string
            ++ toHexString (obj_get Kcolor data) ++ lit ";"%string
            ++ LF :: indent 12 ++ lit "--text-color: "%string
            ++ mostReadableHex (obj_get Kcolor data) blackAndWhite
            ++ lit ";"%string
            ++ LF :: indent 10 ++ litq "'>"%string
            ++ LF :: indent 12 ++ colorNameMarkup data
            ++ LF :: LF :: indent 12 ++ templateString (obj_get Kcolor data)
            ++ LF :: indent 10 ++ lit "</th>"%string
            ++ LF :: indent 10
            ++ buildTableTds xAxisData (obj_get Kcolor data)
            ++ LF :: indent 8 ++ lit "</tr>"%string
            ++ LF :: indent 6)
         yAxisData).

Definition buildTable (xAxisData yAxisData : list ColorEntry) : jsstring :=
  LF :: indent 6 ++ lit "<table>"%string
  ++ LF :: indent 8 ++ buildHeaderRow xAxisData
  ++ LF :: indent 8 ++ buildDataRows xAxisData yAxisData
  ++ LF :: indent 6 ++ lit "</table>"%string
  ++ LF :: indent 6
  ++ litq "<dialog id='popover' aria-live='polite'></dialog>"%string
  ++ LF :: indent 4.

End MatrixModel.

(* ================================================================= *)
(** ** The content of the table container *)

(** A node of the document below [.table-container]: a text, or an
    element with its name, its attributes other than [class], whether
    its class list holds [doesNotMeet], and its children.  The other
    classes and the order of the classes are not kept, and neither are
    comments, which have no part in the text of an element. *)
Inductive Node : Type :=
| TextNode (data : jsstring)
| Element (localName : jsstring) (attributes : list (jsstring * jsstring))
    (doesNotMeet : bool) (childNodes : list Node).

(** Induction on a node, with the property for all the children of an
    element. *)
Section NodeInduction.
Variable P : Node -> Prop.
Hypothesis Htext : forall data, P (TextNode data).
Hypothesis Helement :
  forall name attrs flag children,
    Forall P children -> P (Element name attrs flag children).

Fixpoint Node_induction (n : Node) : P n :=
  match n with
  | TextNode data => Htext data
  | Element name attrs flag children =>
      Helement name attrs flag children
        ((fix all (l : list Node) : Forall P l :=
            match l with
            | [] => Forall_nil P
            | c :: r => Forall_cons c (Node_induction c) (all r)
            end) children)
  end.

End NodeInduction.

(** [node.textContent] *)
Fixpoint textContent (n : Node) : jsstring :=
  match n with
  | TextNode data => data
  | Element _ _ _ children => flat_map textContent children
  end.

(** What the setter of [innerHTML] makes of markup: the nodes that the
    HTML fragment parsing algorithm of the browser gives.  The
    algorithm is not part of [scripts.js]; the embedding is parametric
    in it, as it is in the colour library. *)
Class HTMLParser : Type := {
  parseFragment : jsstring -> list Node
}.

(** An element that the selector [td] matches. *)
Definition isTd (n : Node) : bool :=
  match n with
  | Element name _ _ _ => jseqb name (lit "td"%string)
  | TextNode _ => false
  end.

(** The test of the callback of [setCellContrast] on one cell,
    [parseFloat(cell.textContent) < contrast]. *)
Definition belowContrast (contrast : jsnumber) (cell : Node) : bool :=
  Number.lt (parseFloat (textContent cell)) contrast.

(** [setCellContrast] on one node and below it: every [td] gets the
    class [doesNotMeet] or loses it. *)
Fixpoint setCellContrastNode (contrast : jsnumber) (n : Node) : Node :=
  match n with
  | TextNode data => TextNode data
  | Element name attrs flag children =>
      Element name attrs
        (if isTd n then belowContrast contrast n else flag)
        (map (setCellContrastNode contrast) children)
  end.

Definition setCellContrastTable (contrast : jsnumber) (content : list Node)
  : list Node :=
  map (setCellContrastNode contrast) content.

(* ================================================================= *)
(** ** The page *)

(** What the functions read and write: the values of the two text
    areas, the content of [.table-container], the value of the contrast
    control (as the number [<] converts it to), [location.search] and
    the number of entries [pushState] has added to the history.

    [xInput] and [yInput] are the values as the text areas return
    them, in which every line break is a line feed.  The page is one
    whose path does not begin with two slashes, for which the address
    [`${location.pathname}?${urlParams}`] is one of the page's own
    origin and [pushState] returns. *)
Record Page : Type := mkPage {
  xInput : jsstring;
  yInput : jsstring;
  tableContainer : list Node;
  contrast : jsnumber;
  search : jsstring;
  pushed : nat
}.

Definition withInputs (x y : jsstring) (p : Page) : Page :=
  mkPage x y (tableContainer p) (contrast p) (search p) (pushed p).

Definition withTable (t : list Node) (p : Page) : Page :=
  mkPage (xInput p) (yInput p) t (contrast p) (search p) (pushed p).

(** [window.history.pushState({}, '', `${location.pathname}?${query}`)]:
    the path stays, the query is the one the URL parser keeps.  (On a
    page whose path begins with two slashes the address names another
    host and [pushState] throws a SecurityError; the embedding leaves
    such pages out, see [Page].) *)
Definition pushState (query : jsstring) (p : Page) : Page :=
  mkPage (xInput p) (yInput p) (tableContainer p) (contrast p)
         (Location.searchOfQuery (Location.parseQuery query))
         (S (pushed p)).

Definition setCellContrast (contrast : jsnumber) (p : Page) : Page :=
  withTable (setCellContrastTable contrast (tableContainer p)) p.

Definition xAxisDataName : jsstring := lit "xAxisData"%string.
Definition yAxisDataName : jsstring := lit "yAxisData"%string.

(** The statements of [setQueryParams] between the construction of
    [urlParams] and [pushState]. *)
Definition updateParams (xAxisData yAxisData : list ColorEntry)
  (urlParams : URLSearchParams.t) : result URLSearchParams.t :=
  x <- encodeURIComponent (JSON.stringifyEntries xAxisData) ;;
  let urlParams := URLSearchParams.set xAxisDataName x urlParams in
  if negb (jseqb (JSON.stringifyEntries xAxisData)
                 (JSON.stringifyEntries yAxisData))
  then
    y <- encodeURIComponent (JSON.stringifyEntries yAxisData) ;;
    Ok (URLSearchParams.set yAxisDataName y urlParams)
  else Ok (URLSearchParams.delete yAxisDataName urlParams).

(** [setQueryParams(xAxisData, yAxisData)]; [None] is an [xAxisData]
    that is [null] or [undefined]. *)
Definition setQueryParams (xAxisData : option (list ColorEntry))
  (yAxisData : list ColorEntry) (p : Page) : result Page :=
  match xAxisData with
  | Some ((_ :: _) as x) =>
      let urlParams := URLSearchParams.ofString (search p) in
      urlParams <- updateParams x yAxisData urlParams ;;
      Ok (pushState (URLSearchParams.toString urlParams) p)
  | _ => Ok p
  end.

Record AxesData : Type := mkAxes {
  xAxisData : JSON.json;
  yAxisData : JSON.json
}.

(** [JSON.parse(decodeURIComponent(value))] *)
Definition decodeValue (value : jsstring) : result JSON.json :=
  text <- decodeURIComponent value ;; JSON.parse text.

(** One call of the callback of [getDataFromQueryParams]: the value
    stored under [axis].  [decodeURIComponent] turns the [null] of an
    absent parameter into the text ["null"]. *)
Definition readAxis (urlParams : URLSearchParams.t) (axis : jsstring)
  : result JSON.json :=
  let value := match URLSearchParams.get axis urlParams with
               | Some v => v
               | None => lit "null"%string
               end in
  decodeValue value.

Definition getDataFromQueryParams (p : Page) : result AxesData :=
  let urlParams := URLSearchParams.ofString (search p) in
  x <- readAxis urlParams xAxisDataName ;;
  y <- readAxis urlParams yAxisDataName ;;
  Ok {| xAxisData := x; yAxisData := y |}.

(** ToBoolean of a value of [JSON.parse].  A number is the double
    nearest to the value of its token, which [parseFloat] reads the
    same way; it is falsy when that double is zero, as for a token
    whose value is too small for a double. *)
Definition truthy (v : JSON.json) : bool :=
  match v with
  | JSON.JNull => false
  | JSON.JBool b => b
  | JSON.JNum token =>
      match parseFloat token with
      | Finite q => negb (Qeq_bool q 0)
      | NaN => false
      | Infinity _ => true
      end
  | JSON.JStr s => negb (isEmpty s)
  | JSON.JArr _ | JSON.JObj _ => true
  end.

(** The two axes [handlePopstate] and [init] go on with. *)
Definition axesFromQueryParams (p : Page) : result (JSON.json * JSON.json) :=
  dataFromParams <- getDataFromQueryParams p ;;
  let x := xAxisData dataFromParams in
  let y := if truthy (yAxisData dataFromParams)
           then yAxisData dataFromParams else x in
  Ok (x, y).

Section PageFunctions.
Context {CM : ColorMath} {HP : HTMLParser}.

(** [writeTableToDOM(xAxisData, yAxisData, updateQueryParams)] *)
Definition writeTableToDOM (xAxisData : option (list ColorEntry))
  (yAxisData : list ColorEntry) (updateQueryParams : bool) (p : Page)
  : result Page :=
  let p := match xAxisData with
           | Some ((_ :: _) as x) =>
               withTable (parseFragment (buildTable x yAxisData)) p
           | _ => p
           end in
  let p := setCellContrast (contrast p) p in
  if updateQueryParams then setQueryParams xAxisData yAxisData p else Ok p.

Definition reverseInputData (p : Page) : result Page :=
  let xAxisText := xInput p in
  let yAxisText := yInput p in
  if (length (trim (yInput p)) =? 0)%nat then Ok p
  else
    let p := withInputs yAxisText xAxisText p in
    let xAxisData := getInputData (xInput p) in
    let yAxisData := getInputData (yInput p) in
    writeTableToDOM (Some xAxisData) yAxisData true p.

Definition handleSubmit (p : Page) : result Page :=
  let xAxisData := getInputData (xInput p) in
  let yAxisData :=
    if (0 <? length (trim (yInput p)))%nat
    then getInputData (yInput p) else getInputData (xInput p) in
  writeTableToDOM (Some xAxisData) yAxisData true p.

End PageFunctions.

(* ================================================================= *)
(** ** Notions used in the statements *)


(** A [td] whose text is the one [buildTableTds] puts between the
    tags of the cell of a ratio [r]. *)
Definition cellOfRatio (r : Q) : Node :=
  Element (lit "td"%string) [] false [TextNode (cellText (toFixed2 r))].


(** The [doesNotMeet] of the [td] elements of a node, in document
    order. *)
Fixpoint tdFlags (n : Node) : list bool :=
  match n with
  | TextNode _ => []
  | Element _ _ flag children =>
      (if isTd n then [flag] else []) ++ flat_map tdFlags children
  end.

Definition flags (content : list Node) : list bool :=
  flat_map tdFlags content.


Fixpoint startsWith (pattern s : jsstring) : bool :=
  match pattern, s with
  | [], _ => true
  | a :: pattern', b :: s' => (a =? b) && startsWith pattern' s'
  | _ :: _, [] => false
  end.

(** How often [pattern] starts in [s]. *)
Fixpoint occurrences (pattern s : jsstring) : nat :=
  match s with
  | [] => if startsWith pattern [] then 1 else 0
  | _ :: r => (if startsWith pattern s then 1 else 0) + occurrences pattern r
  end.

(** No [<] in the string: nothing in it opens a tag. *)
Definition noTag (s : jsstring) : bool :=
  forallb (fun c => negb (c =? 60)) s.

(** An entry that brings no tag into the markup: neither its strings
    nor its colour as the library writes it hold a [<]. *)
Definition markupFree {CM : ColorMath} (e : ColorEntry) : bool :=
  forallb (fun member => noTag (snd member)) e
  && noTag (toHexString (obj_get Kcolor e))
  && noTag (mostReadableHex (obj_get Kcolor e) blackAndWhite).

(** What [markupFree] gives for the strings an entry puts into the
    markup. *)
Definition tagless {CM : ColorMath} (e : ColorEntry) : Prop :=
  (forall k s, obj_get k e = Some s -> ~ In 60 s)
  /\ ~ In 60 (toHexString (obj_get Kcolor e))
  /\ ~ In 60 (mostReadableHex (obj_get Kcolor e) blackAndWhite).

(** Cleaning as the specification of the acceptance of lines words
    it: what follows the first semicolon goes with it, then one final
    comma, then the white space at both ends. *)
Definition cleanItemAsClaimed (item : jsstring) : jsstring :=
  trim (removeFinalComma (beforeSemicolon item)).

(** Every surrogate of the string is half of a pair. *)
Inductive wellPaired : jsstring -> Prop :=
| wp_nil : wellPaired []
| wp_unit c r :
    isSurrogate c = false -> wellPaired r -> wellPaired (c :: r)
| wp_pair c d r :
    isLeadSurrogate c = true -> isTrailSurrogate d = true ->
    wellPaired r -> wellPaired (c :: d :: r).

Definition notSurrogate (c : Z) : bool := negb (isSurrogate c).
Definition isByte (b : Z) : bool := inRange 0 255 b.
Definition isAscii (c : Z) : bool := inRange 0 127 c.

(** What one serialized name or value is made of. *)
Definition isComponentChar (c : Z) : bool :=
  URLSearchParams.isFormSafe c || (c =? URLSearchParams.PLUS)
  || (c =? PERCENT).

(** What one serialized pair is made of: no ampersand. *)
Definition isPairChar (c : Z) : bool :=
  isComponentChar c || (c =? URLSearchParams.EQUALS).

(** What the URLSearchParams serializer writes. *)
Definition isQuerySafe (c : Z) : bool :=
  URLSearchParams.isFormSafe c
  || (c =? URLSearchParams.PLUS) || (c =? PERCENT)
  || (c =? URLSearchParams.AMP) || (c =? URLSearchParams.EQUALS).

(** What [encodeURIComponent] writes. *)
Definition isUriSafe (c : Z) : bool := isUnreserved c || (c =? PERCENT).

Definition scalarPair (p : list Z * list Z) : bool :=
  forallb isScalar (fst p) && forallb isScalar (snd p).

(** Entries and axes whose strings are strings: every code unit in
    range. *)
Definition wf_entry (e : ColorEntry) : Prop :=
  Forall (fun p => wf_string (snd p)) e.

Definition wf_axis (l : list ColorEntry) : Prop := Forall wf_entry l.

(** Checkable form of [wf_axis]. *)
Definition code_unitb (c : Z) : bool := (0 <=? c) && (c <? 65536).

Definition wf_axisb (l : list ColorEntry) : bool :=
  forallb (fun e => forallb (fun p => forallb code_unitb (snd p)) e) l.

(** The pairs under other names than the two of the axes. *)
Definition otherParams (l : URLSearchParams.t) : URLSearchParams.t :=
  filter (fun p =>
            negb (URLSearchParams.usv_eqb (fst p) (toUSV xAxisDataName))
            && negb (URLSearchParams.usv_eqb (fst p) (toUSV yAxisDataName)))
         l.

(** The text after the first member of an object, and after the first
    element of an array. *)
Definition membersTail (ms : ColorEntry) : jsstring :=
  flat_map (fun p => 44 :: JSON.stringifyProperty p) ms.

Definition elementsTail (es : list ColorEntry) : jsstring :=
  flat_map (fun e => 44 :: JSON.stringifyEntry e) es.

Definition memberOf (p : key * jsstring) : jsstring * JSON.json :=
  (keyString (fst p), JSON.JStr (snd p)).

(* ================================================================= *)
(** ** A concrete colour library for evaluation *)

(** A small stand-in for tinycolor, to run the functions on concrete
    inputs.  It accepts a '#' followed by three or six hexadecimal
    digits and the names red, white and black, all of which tinycolor
    accepts, and nothing else. *)
Module SampleColor.

Definition isHexDigit (c : Z) : bool :=
  ((48 <=? c) && (c <=? 57)) || ((65 <=? c) && (c <=? 70))
  || ((97 <=? c) && (c <=? 102)).

Definition isValid (s : jsstring) : bool :=
  match afterHead 35 s with
  | Some r =>
      (Nat.eqb (length r) 3 || Nat.eqb (length r) 6) && forallb isHexDigit r
  | None => jseqb s (lit "red"%string) || jseqb s (lit "white"%string)
            || jseqb s (lit "black"%string)
  end.

Definition toHexString (c : option jsstring) : jsstring :=
  match c with Some s => s | None => lit "#000000"%string end.

(** Contrast of a colour with itself is 1; any two different strings
    are given the ratio of black on white. *)
Definition readability (a b : option jsstring) : Q :=
  match a, b with
  | Some x, Some y => if jseqb x y then 1%Q else 21%Q
  | _, _ => 1%Q
  end.

Definition mostReadableHex (c : option jsstring) (candidates : list jsstring)
  : jsstring :=
  match candidates with x :: _ => x | [] => lit "#000000"%string end.

End SampleColor.

Definition sampleColorMath : ColorMath :=
  {| isValid := SampleColor.isValid;
     toHexString := SampleColor.toHexString;
     readability := SampleColor.readability;
     mostReadableHex := SampleColor.mostReadableHex |}.

(* ================================================================= *)
(** ** A stand-in for the HTML parser, for evaluation *)

(** To run the functions of the page on concrete inputs.  This is not
    the fragment parsing algorithm of the browser: for each [<td] of
    the markup it gives a [td] element holding the text that runs from
    the end of that tag to the next tag, and it gives nothing else. *)
Module SampleParser.

Fixpoint upToTag (s : jsstring) : jsstring :=
  match s with
  | [] => []
  | c :: r => if c =? 60 then [] else c :: upToTag r
  end.

Fixpoint afterTag (s : jsstring) : jsstring :=
  match s with
  | [] => []
  | c :: r => if c =? 62 then r else afterTag r
  end.

Fixpoint parseFragment (markup : jsstring) : list Node :=
  match markup with
  | [] => []
  | _ :: r =>
      (if startsWith (lit "<td"%string) markup
       then [Element (lit "td"%string) [] false
               [TextNode (upToTag (afterTag markup))]]
       else [])
      ++ parseFragment r
  end.

End SampleParser.

Definition sampleHTMLParser : HTMLParser :=
  {| parseFragment := SampleParser.parseFragment |}.

(* ================================================================= *)
(** ** Sample inputs *)

Module Samples.

(** Two lines, both ["#fff"]. *)
Definition twiceWhite : jsstring :=
  lit "#fff"%string ++ [LF] ++ lit "#fff"%string.

(** ["Brand: #ff0000;"] then ["#000,"] *)
Definition namedThenBare : jsstring :=
  lit "Brand: #ff0000;"%string ++ [LF] ++ lit "#000,"%string.

Definition white : ColorEntry := [(Kcolor, lit "#fff"%string)].
Definition black : ColorEntry := [(Kcolor, lit "#000"%string)].
Definition brand : ColorEntry :=
  [(Kname, lit "Brand"%string); (Kcolor, lit "#ff0000"%string)].

End Samples.


Module SamplePages.

(** An address with a parameter of its own, a stale [yAxisData] and a
    value in need of escapes; both text areas filled. *)
Definition busy : Page :=
  mkPage (lit "#fff"%string) (lit "Brand: #ff0000"%string) []
         (Finite (9 # 2))
         (lit "?theme=dark+mode&yAxisData=stale&q=%7e"%string) 0.

(** A page whose Y text area is blank. *)
Definition blankY : Page :=
  mkPage (lit "#fff"%string) (lit "  "%string) [] (Finite (9 # 2)) [] 0.

(** A page on an address without a query. *)
Definition fresh : Page :=
  mkPage (lit "#fff"%string) [] [] (Finite (9 # 2)) [] 0.

(** A page whose Y text area holds words and no colour. *)
Definition wordsY : Page :=
  mkPage (lit "#fff"%string) (lit "nothing here"%string) []
         (Finite (9 # 2)) [] 0.

(** An address whose [xAxisData] is cut short: its value decodes to
    the text [[{color]. *)
Definition malformed : Page :=
  mkPage [] [] [] NaN (lit "?xAxisData=%5B%7Bcolor"%string) 0.

End SamplePages.

(* ================================================================= *)
(** ** hydrateForm *)

(** The template of one line of a text area,
    [`${('name' in data) ? data.name + ': ' : ''} ${data.color}`]; a
    property that is not there prints as [undefined]. *)
Definition hydrateLine (data : ColorEntry) : jsstring :=
  (if obj_has Kname data
   then match obj_get Kname data with
        | Some n => n
        | None => lit "undefined"%string
        end ++ lit ": "%string
   else [])
  ++ 32 :: match obj_get Kcolor data with
           | Some c => c
           | None => lit "undefined"%string
           end.

(** [axis.map(data => ...).join('\n')] *)
Definition hydrateText (axis : list ColorEntry) : jsstring :=
  URLSearchParams.joinWith LF (map hydrateLine axis).

(** [JSON.stringify] of an axis that may be [null]. *)
Definition stringifyAxis (axis : option (list ColorEntry)) : jsstring :=
  match axis with
  | Some l => JSON.stringifyEntries l
  | None => lit "null"%string
  end.

Definition CR : Z := 13.

(** The value a text area returns after [value] is assigned [s]: every
    carriage return followed by a line feed, and every other carriage
    return, is a line feed (the API value of the HTML standard). *)
Fixpoint normalizeNewlines (s : jsstring) : jsstring :=
  match s with
  | [] => []
  | c :: r =>
      if c =? CR then
        LF :: match r with
              | d :: r' =>
                  if d =? LF then normalizeNewlines r'
                  else normalizeNewlines r
              | [] => []
              end
      else c :: normalizeNewlines r
  end.

(** [hydrateForm(form, xAxisData, yAxisData)] for axes that are [null]
    ([None]) or arrays of entries.  [yAxisData.map] on [null] is a
    TypeError. *)
Definition hydrateForm (xAxisData yAxisData : option (list ColorEntry))
  (p : Page) : result Page :=
  let p := match xAxisData with
           | Some x =>
               withInputs (normalizeNewlines (hydrateText x)) (yInput p) p
           | None => p
           end in
  if negb (jseqb (stringifyAxis xAxisData) (stringifyAxis yAxisData))
  then match yAxisData with
       | Some y =>
           Ok (withInputs (xInput p) (normalizeNewlines (hydrateText y)) p)
       | None => Throw TypeError
       end
  else Ok p.

(* ================================================================= *)
(** ** handlePopstate *)

Definition keyOfString (s : jsstring) : option key :=
  if jseqb s (keyString Kcolor) then Some Kcolor
  else if jseqb s (keyString Kname) then Some Kname
  else None.

Fixpoint traverse {A B : Type} (f : A -> option B) (l : list A)
  : option (list B) :=
  match l with
  | [] => Some []
  | a :: r =>
      b <-? f a ;; bs <-? traverse f r ;; Some (b :: bs)
  end.

Fixpoint distinctKeys (e : ColorEntry) : bool :=
  match e with
  | [] => true
  | (k, _) :: r => negb (obj_has k r) && distinctKeys r
  end.

(** A value of [JSON.parse] as an entry: an object whose members are
    [color] and [name], each at most once, with strings for values. *)
Definition asEntry (v : JSON.json) : option ColorEntry :=
  match v with
  | JSON.JObj members =>
      e <-? traverse (fun m =>
                        match keyOfString (fst m), snd m with
                        | Some k, JSON.JStr s => Some (k, s)
                        | _, _ => None
                        end) members ;;
      if distinctKeys e then Some e else None
  | _ => None
  end.

(** A value of [JSON.parse] as an axis: [null], or an array of
    entries.  Other values are outside of what the embedding of
    [hydrateForm] and of the table covers. *)
Definition asAxis (v : JSON.json) : option (option (list ColorEntry)) :=
  match v with
  | JSON.JNull => Some None
  | JSON.JArr elements => option_map Some (traverse asEntry elements)
  | _ => None
  end.

Section Popstate.
Context {CM : ColorMath} {HP : HTMLParser}.

(** [writeTableToDOM(xAxisData, yAxisData, false)] with a Y axis that
    may be [null]: [buildTable] then calls [map] on it. *)
Definition restoreTable (xAxisData yAxisData : option (list ColorEntry))
  (p : Page) : result Page :=
  match yAxisData with
  | Some y => writeTableToDOM xAxisData y false p
  | None =>
      match xAxisData with
      | Some (_ :: _) => Throw TypeError
      | _ => writeTableToDOM xAxisData [] false p
      end
  end.

(** A value on which ['name' in data] throws a TypeError: any value
    but an object or an array. *)
Definition isPrimitive (v : JSON.json) : bool :=
  match v with
  | JSON.JArr _ | JSON.JObj _ => false
  | _ => true
  end.

(** Values read from the address, beside the axes above, on which
    [handlePopstate] throws a TypeError.

    An X axis that is an array with an element that is no object:
    [hydrateForm] maps over it, ['name' in data] throws at that element,
    and what the template can throw at the elements before it, in the
    conversion of a value to a string, is a TypeError too.

    An X axis that is an array of entries beside a Y axis that is a
    number, a boolean, a string or an object: the X text is written,
    the serialization of X begins with a bracket and that of Y does
    not, and [yAxisData.map] is not a function. *)
Definition throwsTypeError (jx jy : JSON.json) : bool :=
  match jx with
  | JSON.JArr elements =>
      existsb isPrimitive elements
      || match traverse asEntry elements, jy with
         | Some _, (JSON.JNum _ | JSON.JBool _ | JSON.JStr _ | JSON.JObj _) =>
             true
         | _, _ => false
         end
  | _ => false
  end.

(** [handlePopstate()], and the statements of [init] after the
    listeners are registered: for the axes that the text areas and the
    table are made for, [null] or an array of entries, and for the
    values of [throwsTypeError].  For any other value read from the
    address the result is [None]: what the program does then depends
    on how the colour library and the templates treat values that are
    no strings, which is not part of the embedding, and no statement
    is made about it. *)
Definition handlePopstate (p : Page) : option (result Page) :=
  match axesFromQueryParams p with
  | Throw e => Some (Throw e)
  | Ok (jx, jy) =>
      match asAxis jx, asAxis jy with
      | Some xAxisData, Some yAxisData =>
          Some (p1 <- hydrateForm xAxisData yAxisData p ;;
                restoreTable xAxisData yAxisData p1)
      | _, _ =>
          if throwsTypeError jx jy then Some (Throw TypeError) else None
      end
  end.

End Popstate.

(* ================================================================= *)
(** ** Further notions used in the statements *)

Definition noneOf (chars : list Z) (s : jsstring) : Prop :=
  forall c, In c chars -> ~ In c s.

(** A string that cleaning leaves as it is and that a line of a text
    area can carry: trimmed, without final comma, colon, semicolon or
    line feed. *)
Definition plainString (s : jsstring) : Prop :=
  trim s = s /\ removeFinalComma s = s
  /\ noneOf [COLON; SEMICOLON; LF] s.

Definition endsWithComma (s : jsstring) : bool :=
  match rev s with
  | c :: _ => c =? COMMA
  | [] => false
  end.

Definition entryStrings (e : ColorEntry) : list jsstring := map snd e.

Section Restorable.
Context {CM : ColorMath}.

(** An entry that a line of a text area can carry back through
    [getInputData]: a valid colour alone, or with a name that is not
    itself a valid colour and is not empty; both strings plain. *)
Definition restorable (e : ColorEntry) : Prop :=
  (exists c, e = [(Kcolor, c)] /\ isValid c = true /\ plainString c)
  \/ (exists n c, e = [(Kname, n); (Kcolor, c)]
                  /\ isValid c = true /\ isValid n = false /\ n <> []
                  /\ plainString n /\ plainString c).

End Restorable.

(** No string of the entry ends with a comma. *)
Definition noFinalComma (e : ColorEntry) : bool :=
  forallb (fun s => negb (endsWithComma s)) (entryStrings e).

(* ================================================================= *)
(** ** copyOnClick *)

(** What [copyOnClick] passes to [navigator.clipboard.writeText] for a
    click on [target]: [target.textContent.trim()] when the target is
    a [td] ([target.tagName === 'TD']), and no call at all otherwise.
    The promise that follows, with its dialog and its timer, is not
    part of the embedding. *)
Definition copyOnClick (target : Node) : option jsstring :=
  if isTd target then Some (trim (textContent target)) else None.

(** Whether a pair of a parameter list is under the name [k]. *)
Definition named (k : list Z) (p : list Z * list Z) : bool :=
  URLSearchParams.usv_eqb (fst p) k.

(** No carriage return in the strings of an entry. *)
Definition noCarriageReturn (e : ColorEntry) : bool :=
  forallb (fun s => forallb (fun c => negb (c =? CR)) s) (entryStrings e).

(* ================================================================= *)
(** * Properties *)

Lemma jseqb_eq a b : jseqb a b = true <-> a = b.
Proof.
  revert b. induction a as [|x a IH]; intros [|y b]; simpl;
    try (split; (reflexivity || discriminate)).
  rewrite andb_true_iff, Z.eqb_eq, IH. split.
  - now intros [-> ->].
  - now intros [= -> ->].
Qed.

Lemma jseqb_refl a : jseqb a a = true.
Proof. now apply jseqb_eq. Qed.

Lemma jseqb_neq a b : jseqb a b = false <-> a <> b.
Proof.
  rewrite <- jseqb_eq. destruct (jseqb a b); split; congruence.
Qed.

(* ----------------------------------------------------------------- *)
(** ** trim *)

Lemma trimStart_split s :
  exists p, s = p ++ trimStart s /\ forallb isWhiteSpace p = true.
Proof.
  induction s as [|c r IH]; simpl.
  - now exists [].
  - destruct (isWhiteSpace c) eqn:E.
    + destruct IH as [p [H1 H2]]. exists (c :: p). simpl.
      rewrite E, H2. split; [now f_equal|reflexivity].
    + now exists [].
Qed.

Lemma trimStart_noLeading s : noLeadingWS (trimStart s).
Proof.
  induction s as [|c r IH]; simpl; [exact I|].
  destruct (isWhiteSpace c) eqn:E; [exact IH|exact E].
Qed.

Lemma trimStart_fix s : noLeadingWS s -> trimStart s = s.
Proof. destruct s as [|c r]; simpl; [easy|]. now intros ->. Qed.

Lemma trimEnd_split s :
  exists q, s = trimEnd s ++ q /\ forallb isWhiteSpace q = true.
Proof.
  unfold trimEnd. destruct (trimStart_split (rev s)) as [p [H1 H2]].
  exists (rev p). split.
  - rewrite <- rev_app_distr, <- H1. now rewrite rev_involutive.
  - rewrite forallb_forall in *. intros x Hx. apply H2. now apply in_rev.
Qed.

Lemma trimEnd_noTrailing s : noTrailingWS (trimEnd s).
Proof.
  unfold noTrailingWS, trimEnd. rewrite rev_involutive.
  apply trimStart_noLeading.
Qed.

Lemma trimEnd_fix s : noTrailingWS s -> trimEnd s = s.
Proof.
  unfold noTrailingWS, trimEnd. intros H.
  rewrite (trimStart_fix _ H). apply rev_involutive.
Qed.

Lemma trimEnd_noLeading s : noLeadingWS s -> noLeadingWS (trimEnd s).
Proof.
  intros H. destruct (trimEnd_split s) as [q [H1 H2]].
  destruct s as [|c r]; simpl in H.
  - destruct (trimEnd []); [exact I|discriminate].
  - destruct (trimEnd (c :: r)) as [|c' r'] eqn:E; [exact I|].
    simpl in H1. injection H1 as -> _. exact H.
Qed.

Lemma trim_idempotent s : trim (trim s) = trim s.
Proof.
  unfold trim.
  rewrite (trimStart_fix (trimEnd (trimStart s))).
  - apply trimEnd_fix, trimEnd_noTrailing.
  - apply trimEnd_noLeading, trimStart_noLeading.
Qed.

(* ----------------------------------------------------------------- *)
(** ** split *)

Lemma split_nonempty sep s : split sep s <> [].
Proof.
  destruct s as [|c r]; simpl; [discriminate|].
  destruct (c =? sep); [discriminate|].
  destruct (split sep r); discriminate.
Qed.

Lemma split_app sep a b :
  split sep (a ++ sep :: b) = split sep a ++ split sep b.
Proof.
  induction a as [|c r IH]; simpl.
  - now rewrite Z.eqb_refl.
  - destruct (c =? sep); [now rewrite IH|].
    rewrite IH. destruct (split sep r) as [|seg segs] eqn:E.
    + now destruct (split_nonempty sep r).
    + reflexivity.
Qed.

(* ----------------------------------------------------------------- *)
(** ** Objects *)

Lemma key_eqb_refl k : key_eqb k k = true.
Proof. now destruct k. Qed.

Lemma obj_get_set_same k v o : obj_get k (obj_set k v o) = Some v.
Proof.
  induction o as [|[k' v'] r IH]; simpl.
  - now rewrite key_eqb_refl.
  - destruct (key_eqb k' k) eqn:E; simpl.
    + now rewrite key_eqb_refl.
    + now rewrite E.
Qed.

Lemma obj_set_nonempty k v o : obj_set k v o <> [].
Proof.
  destruct o as [|[k' v'] r]; simpl; [discriminate|].
  destruct (key_eqb k' k); discriminate.
Qed.

(* ----------------------------------------------------------------- *)
(** ** getInputData *)

Section InputParserFacts.
Context {CM : ColorMath}.

Lemma cleanItem_trimmed item : trim (cleanItem item) = cleanItem item.
Proof. unfold cleanItem. apply trim_idempotent. Qed.

Lemma forEachIndexed_skipped l : forall i st,
  (2 <= i)%nat -> forEachIndexed itemCallback l i st = st.
Proof.
  induction l as [|a r IH]; intros i st Hi; simpl; [reflexivity|].
  rewrite IH by lia. unfold itemCallback.
  destruct (Nat.leb_spec 2 i); [reflexivity|lia].
Qed.

(** The inner loop only sees the processed segments. *)
Lemma lineData_processed line :
  lineData line =
  fold_left (fun st item => itemCallback st item 0%nat)
            (processedSegments line) ([], false).
Proof.
  unfold lineData, processedSegments.
  destruct (split COLON line) as [|a [|b rest]]; simpl; try reflexivity.
  now rewrite forEachIndexed_skipped by lia.
Qed.

Lemma processedSegments_cases line :
  (exists a, processedSegments line = [a]) \/
  (exists a b, processedSegments line = [a; b]).
Proof.
  unfold processedSegments.
  destruct (split COLON line) as [|a [|b rest]] eqn:E.
  - now destruct (split_nonempty COLON line).
  - left. now exists a.
  - right. now exists a, b.
Qed.

(** [lineHasValidColor] after the loop is the verdict on the last
    processed segment. *)
Lemma lineData_flag line :
  snd (lineData line) = isValid (cleanItem (lastProcessedSegment line)).
Proof.
  rewrite lineData_processed. unfold lastProcessedSegment.
  destruct (processedSegments_cases line) as [[a ->]|[a [b ->]]];
    cbn [fold_left last]; unfold itemCallback; cbn [Nat.leb fst];
    repeat match goal with
           | |- context [if ?c then _ else _] => destruct c; cbn [snd fst]
           end; reflexivity.
Qed.

Lemma lineData_flag_color line :
  snd (lineData line) = true ->
  obj_get Kcolor (fst (lineData line))
  = Some (cleanItem (lastProcessedSegment line)).
Proof.
  rewrite lineData_processed. unfold lastProcessedSegment.
  destruct (processedSegments_cases line) as [[a ->]|[a [b ->]]];
    cbn [fold_left last]; unfold itemCallback; cbn [Nat.leb fst];
    repeat match goal with
           | |- context [if ?c then _ else _] => destruct c; cbn [snd fst]
           end; try discriminate; intros _; apply obj_get_set_same.
Qed.

Lemma lineEntries_spec line :
  lineEntries line =
  if isValid (cleanItem (lastProcessedSegment line))
  then [fst (lineData line)] else [].
Proof.
  unfold lineEntries, lineCallback.
  pose proof (lineData_flag line) as Hf.
  pose proof (lineData_flag_color line) as Hc.
  destruct (lineData line) as [data ok]. cbn [fst snd] in *. subst ok.
  destruct (isValid (cleanItem (lastProcessedSegment line))).
  - specialize (Hc eq_refl). unfold obj_keys.
    destruct data; [discriminate|reflexivity].
  - now rewrite andb_false_r.
Qed.

Lemma lineCallback_app out line :
  lineCallback out line = out ++ lineEntries line.
Proof.
  unfold lineEntries, lineCallback. destruct (lineData line) as [data ok].
  destruct ((0 <? length (obj_keys data))%nat && ok);
    [reflexivity|now rewrite app_nil_r].
Qed.

Lemma fold_lineCallback lines : forall out,
  fold_left lineCallback lines out = out ++ flat_map lineEntries lines.
Proof.
  induction lines as [|l r IH]; intros out; simpl.
  - now rewrite app_nil_r.
  - now rewrite IH, lineCallback_app, <- app_assoc.
Qed.

Lemma getInputData_flat_map text :
  getInputData text = flat_map lineEntries (split LF text).
Proof. unfold getInputData. now rewrite fold_lineCallback. Qed.

End InputParserFacts.

(** On a segment with no line terminator in it, the first cleaning
    statement keeps what precedes the first semicolon. *)
Lemma removeSemicolonRuns_dropping s :
  forallb (fun c => negb (isLineTerminator c)) s = true ->
  removeSemicolonRuns true s = [].
Proof.
  induction s as [|c r IH]; intros H; [reflexivity|].
  cbn [forallb] in H. apply andb_true_iff in H as [H1 H2].
  cbn [removeSemicolonRuns]. apply negb_true_iff in H1.
  now rewrite H1, IH.
Qed.

Lemma removeSemicolonRuns_beforeSemicolon s :
  forallb (fun c => negb (isLineTerminator c)) s = true ->
  removeSemicolonRuns false s = beforeSemicolon s.
Proof.
  induction s as [|c r IH]; intros H; [reflexivity|].
  cbn [forallb] in H. apply andb_true_iff in H as [H1 H2].
  cbn [removeSemicolonRuns beforeSemicolon].
  destruct (c =? SEMICOLON).
  - now apply removeSemicolonRuns_dropping.
  - now rewrite IH.
Qed.

Lemma removeSemicolonRuns_id s :
  ~ In SEMICOLON s -> removeSemicolonRuns false s = s.
Proof.
  induction s as [|c r IH]; intros H; [reflexivity|].
  cbn [removeSemicolonRuns].
  destruct (Z.eqb_spec c SEMICOLON) as [->|N]; [destruct H; now left|].
  rewrite IH; [reflexivity|]. intros Hr. apply H. now right.
Qed.

(** A match of the pattern ends before the next line terminator. *)
Lemma removeSemicolonRuns_match_end b t rest :
  forallb (fun c => negb (isLineTerminator c)) b = true ->
  isLineTerminator t = true ->
  removeSemicolonRuns true (b ++ t :: rest)
  = t :: removeSemicolonRuns false rest.
Proof.
  intros Hb Ht. induction b as [|c r IH].
  - cbn [app removeSemicolonRuns]. now rewrite Ht.
  - cbn [forallb] in Hb. apply andb_true_iff in Hb as [H1 H2].
    apply negb_true_iff in H1.
    cbn [app removeSemicolonRuns]. rewrite H1. now apply IH.
Qed.

Lemma removeSemicolonRuns_run a b :
  ~ In SEMICOLON a ->
  forallb (fun c => negb (isLineTerminator c)) b = true ->
  removeSemicolonRuns false (a ++ SEMICOLON :: b) = a.
Proof.
  intros Ha Hb. induction a as [|c r IH].
  - cbn [app removeSemicolonRuns].
    change (SEMICOLON =? SEMICOLON) with true. cbn iota.
    now apply removeSemicolonRuns_dropping.
  - cbn [app removeSemicolonRuns].
    destruct (Z.eqb_spec c SEMICOLON) as [->|N]; [destruct Ha; now left|].
    rewrite IH; [reflexivity|]. intros Hr. apply Ha. now right.
Qed.

Lemma removeSemicolonRuns_run_then a b t rest :
  ~ In SEMICOLON a ->
  forallb (fun c => negb (isLineTerminator c)) b = true ->
  isLineTerminator t = true ->
  removeSemicolonRuns false (a ++ SEMICOLON :: b ++ t :: rest)
  = a ++ t :: removeSemicolonRuns false rest.
Proof.
  intros Ha Hb Ht. induction a as [|c r IH].
  - cbn [app removeSemicolonRuns].
    change (SEMICOLON =? SEMICOLON) with true. cbn iota.
    now apply removeSemicolonRuns_match_end.
  - cbn [app removeSemicolonRuns].
    destruct (Z.eqb_spec c SEMICOLON) as [->|N]; [destruct Ha; now left|].
    rewrite IH; [reflexivity|]. intros Hr. apply Ha. now right.
Qed.

Lemma removeFinalComma_snoc s c :
  removeFinalComma (s ++ [c]) = if c =? COMMA then s else s ++ [c].
Proof.
  induction s as [|a r IH]; [reflexivity|].
  destruct r as [|b r'].
  - cbn [app removeFinalComma]. now destruct (c =? COMMA).
  - change (removeFinalComma ((a :: b :: r') ++ [c]))
      with (a :: removeFinalComma ((b :: r') ++ [c])).
    rewrite IH. now destruct (c =? COMMA).
Qed.

Lemma removeFinalComma_id s :
  endsWithComma s = false -> removeFinalComma s = s.
Proof.
  destruct s as [|a r] using rev_ind; [reflexivity|].
  unfold endsWithComma. rewrite rev_app_distr. cbn [rev app].
  intros H. now rewrite removeFinalComma_snoc, H.
Qed.

(** What [trim] takes away is white space at the two ends, and what it
    leaves has none there. *)
Lemma trim_spec s :
  exists p q,
    s = p ++ trim s ++ q
    /\ forallb isWhiteSpace p = true /\ forallb isWhiteSpace q = true
    /\ noLeadingWS (trim s) /\ noTrailingWS (trim s).
Proof.
  destruct (trimStart_split s) as [p [Hp Hw]].
  destruct (trimEnd_split (trimStart s)) as [q [Hq Hv]].
  exists p, q. unfold trim. split; [now rewrite <- Hq|].
  split; [exact Hw|]. split; [exact Hv|]. split.
  - apply trimEnd_noLeading, trimStart_noLeading.
  - apply trimEnd_noTrailing.
Qed.

Section ParserTheorems.
Context {CM : ColorMath}.

(** The objects that reach [outputArray]: a colour alone, or a name
    followed by a colour. *)
Lemma lineData_shapes line :
  snd (lineData line) = true ->
  let c := cleanItem (lastProcessedSegment line) in
  fst (lineData line) = [(Kcolor, c)] \/
  exists a, fst (lineData line) = [(Kname, cleanItem a); (Kcolor, c)]
            /\ cleanItem a <> [] /\ isValid (cleanItem a) = false.
Proof.
  rewrite lineData_processed. unfold lastProcessedSegment.
  destruct (processedSegments_cases line) as [[a ->]|[a [b ->]]];
    cbn [fold_left last]; unfold itemCallback; cbn [Nat.leb fst].
  - destruct (isValid (cleanItem a)); cbn [snd fst].
    + intros _. now left.
    + destruct (0 <? length (cleanItem a))%nat; discriminate.
  - destruct (isValid (cleanItem b)) eqn:Eb; cbn [snd fst].
    2:{ destruct (isValid (cleanItem a));
        destruct (0 <? length (cleanItem b))%nat;
        try destruct (0 <? length (cleanItem a))%nat; discriminate. }
    intros _. destruct (isValid (cleanItem a)) eqn:Ea; cbn [snd fst].
    + left. reflexivity.
    + destruct (cleanItem a) as [|x r] eqn:Ec; cbn [length Nat.ltb Nat.leb fst].
      * left. reflexivity.
      * right. exists a. rewrite Ec.
        split; [reflexivity|]. split; [discriminate|].
        first [exact Ea | now rewrite <- Ec].
Qed.

(** C3, as the code has it.  [getInputData] goes through the lines in
    order and a line contributes one entry exactly when its last
    processed segment (the second of the segments between colons when
    there is one, the only one otherwise), once cleaned, is a valid
    colour; otherwise it contributes nothing.  Cleaning is what the two
    statements at the head of the inner callback do, in this order:
    every semicolon goes with what follows it up to the next line
    terminator, the rest is trimmed, one final comma goes, and the
    rest is trimmed again.  So a line whose first segment is a valid
    colour and whose second segment is not (empty or not) gives no
    entry, a line with no valid colour in its first two segments gives
    no entry, and ["notacolor: alsonotacolor"] parses to the empty
    array when the library rejects both words. *)
Theorem getInputData_line_acceptance (text : jsstring) :
  getInputData text = flat_map lineEntries (split LF text)
  /\ (forall line,
        (isValid (cleanItem (lastProcessedSegment line)) = true ->
         exists e, lineEntries line = [e])
        /\ (isValid (cleanItem (lastProcessedSegment line)) = false ->
            lineEntries line = []))
  /\ (forall item,
        cleanItem item
        = trim (removeFinalComma (trim (removeSemicolonRuns false item))))
  /\ (forall a b,
        ~ In SEMICOLON a ->
        forallb (fun c => negb (isLineTerminator c)) b = true ->
        removeSemicolonRuns false a = a
        /\ removeSemicolonRuns false (a ++ SEMICOLON :: b) = a
        /\ (forall t rest,
              isLineTerminator t = true ->
              removeSemicolonRuns false (a ++ SEMICOLON :: b ++ t :: rest)
              = a ++ t :: removeSemicolonRuns false rest))
  /\ (forall s,
        removeFinalComma (s ++ [COMMA]) = s
        /\ (endsWithComma s = false -> removeFinalComma s = s))
  /\ (forall s,
        exists p q,
          s = p ++ trim s ++ q
          /\ forallb isWhiteSpace p = true /\ forallb isWhiteSpace q = true
          /\ noLeadingWS (trim s) /\ noTrailingWS (trim s))
  /\ (forall line s1 s2 rest,
        split COLON line = s1 :: s2 :: rest ->
        isValid (cleanItem s1) = true ->
        isValid (cleanItem s2) = false ->
        lineEntries line = [])
  /\ (forall line,
        (forall s, In s (processedSegments line) ->
                   isValid (cleanItem s) = false) ->
        lineEntries line = [])
  /\ (isValid (lit "notacolor"%string) = false ->
      isValid (lit "alsonotacolor"%string) = false ->
      getInputData (lit "notacolor: alsonotacolor"%string) = []).
Proof.
  split; [apply getInputData_flat_map|].
  split.
  { intros line. rewrite lineEntries_spec. split; intros ->; eauto. }
  split; [reflexivity|].
  split.
  { intros a b Ha Hb. split; [now apply removeSemicolonRuns_id|].
    split; [now apply removeSemicolonRuns_run|].
    intros t rest Ht. now apply removeSemicolonRuns_run_then. }
  split.
  { intros s. split; [|apply removeFinalComma_id].
    rewrite removeFinalComma_snoc. reflexivity. }
  split; [apply trim_spec|].
  split.
  { intros line s1 s2 rest Hs _ H2. rewrite lineEntries_spec.
    unfold lastProcessedSegment, processedSegments. rewrite Hs.
    cbn [firstn last]. now rewrite H2. }
  split.
  { intros line H. rewrite lineEntries_spec.
    rewrite H; [reflexivity|]. unfold lastProcessedSegment.
    destruct (processedSegments_cases line) as [[a ->]|[a [b ->]]];
      cbn [last In]; auto. }
  intros H1 H2. rewrite getInputData_flat_map.
  change (split LF (lit "notacolor: alsonotacolor"%string))
    with [lit "notacolor: alsonotacolor"%string].
  cbn [flat_map]. rewrite lineEntries_spec.
  change (cleanItem (lastProcessedSegment (lit "notacolor: alsonotacolor"%string)))
    with (lit "alsonotacolor"%string).
  now rewrite H2.
Qed.

(** C8.  Every entry [getInputData] returns has a [color] property
    whose value the library accepts, and a [name] property, when it has
    one, that is not empty and that trimming leaves as it is. *)
Theorem getInputData_entry_invariant (text : jsstring) (e : ColorEntry) :
  In e (getInputData text) ->
  (exists c, obj_get Kcolor e = Some c /\ isValid c = true)
  /\ (forall n, obj_get Kname e = Some n -> trim n <> [] /\ trim n = n).
Proof.
  rewrite getInputData_flat_map, in_flat_map.
  intros [line [_ Hin]]. rewrite lineEntries_spec in Hin.
  destruct (isValid (cleanItem (lastProcessedSegment line))) eqn:Ev;
    [|contradiction].
  destruct Hin as [<-|[]].
  pose proof (lineData_shapes line) as Hs.
  rewrite lineData_flag in Hs. specialize (Hs Ev). cbn zeta in Hs.
  destruct Hs as [->|[a [-> [Hne Hinv]]]].
  - split.
    + eexists. split; [reflexivity|exact Ev].
    + intros n. cbn. discriminate.
  - split.
    + eexists. split; [reflexivity|exact Ev].
    + intros n. cbn. intros [= <-]. now rewrite cleanItem_trimmed.
Qed.

(** C5, as the code has it.  Nothing is removed from the output: the
    entries come in line order, one for each accepted line, so the
    output of two texts joined by a line break is the two outputs one
    after the other, and a text repeated on a further line gives its
    entries twice. *)
Theorem getInputData_keeps_duplicates (a b : jsstring) :
  getInputData (a ++ LF :: b) = getInputData a ++ getInputData b
  /\ getInputData (a ++ LF :: a) = getInputData a ++ getInputData a
  /\ (forall line, (length (lineEntries line) <= 1)%nat)
  /\ getInputData a = flat_map lineEntries (split LF a).
Proof.
  assert (H : forall x y,
             getInputData (x ++ LF :: y) = getInputData x ++ getInputData y).
  { intros x y. rewrite !getInputData_flat_map, split_app.
    apply flat_map_app. }
  repeat split; try apply H.
  - intros line. rewrite lineEntries_spec.
    destruct (isValid _); simpl; lia.
  - apply getInputData_flat_map.
Qed.

End ParserTheorems.

(** C5 fails as stated: the two lines ["#fff"] and ["#fff"] give two
    equal entries. *)
Lemma getInputData_not_deduplicated :
  @getInputData sampleColorMath Samples.twiceWhite
  = [Samples.white; Samples.white]
  /\ ~ NoDup (@getInputData sampleColorMath Samples.twiceWhite).
Proof.
  assert (E : @getInputData sampleColorMath Samples.twiceWhite
              = [Samples.white; Samples.white]) by (vm_compute; reflexivity).
  split; [exact E|]. rewrite E. intros H. inversion H as [|x l Hn _].
  apply Hn. now left.
Qed.

(** C3 fails with the cleaning as the specification words it.  The line
    ["#fff , "] is accepted, since the code trims before it looks for
    the final comma, while a final comma looked for first is not found
    and leaves ["#fff ,"], which is no colour.  The line ["#fff;"]
    followed by a line separator and ["junk"] is rejected, since the
    pattern stops at the line separator, while cutting at the
    semicolon leaves ["#fff"]. *)
Lemma getInputData_cleaning_not_as_claimed :
  (@getInputData sampleColorMath (lit "#fff , "%string) = [Samples.white]
   /\ SampleColor.isValid
        (cleanItemAsClaimed (lastProcessedSegment (lit "#fff , "%string)))
      = false)
  /\ (@getInputData sampleColorMath
        (lit "#fff;"%string ++ 8232 :: lit "junk"%string) = []
      /\ SampleColor.isValid
           (cleanItemAsClaimed
              (lastProcessedSegment
                 (lit "#fff;"%string ++ 8232 :: lit "junk"%string)))
         = true).
Proof. repeat split; vm_compute; reflexivity. Qed.

Lemma getInputData_line_acceptance_witness :
  (SampleColor.isValid (lit "notacolor"%string) = false
   /\ SampleColor.isValid (lit "alsonotacolor"%string) = false
   /\ @getInputData sampleColorMath (lit "notacolor: alsonotacolor"%string)
      = [])
  /\ (SampleColor.isValid
        (cleanItem (lastProcessedSegment (lit "ink: #000, ;x"%string)))
      = true
      /\ exists e,
           @lineEntries sampleColorMath (lit "ink: #000, ;x"%string) = [e]).
Proof.
  pose proof (@getInputData_line_acceptance sampleColorMath [])
    as [_ [H2 [_ [_ [_ [_ [_ [_ H9]]]]]]]].
  split.
  - split; [reflexivity|]. split; [reflexivity|]. apply H9; reflexivity.
  - split; [reflexivity|].
    apply (proj1 (H2 (lit "ink: #000, ;x"%string))). reflexivity.
Defined.

Lemma getInputData_entry_invariant_witness :
  In Samples.brand (@getInputData sampleColorMath Samples.namedThenBare)
  /\ (exists c, obj_get Kcolor Samples.brand = Some c
                /\ SampleColor.isValid c = true)
  /\ (forall n, obj_get Kname Samples.brand = Some n ->
                trim n <> [] /\ trim n = n).
Proof.
  assert (H : In Samples.brand
                (@getInputData sampleColorMath Samples.namedThenBare))
    by (vm_compute; left; reflexivity).
  split; [exact H|].
  exact (@getInputData_entry_invariant sampleColorMath _ _ H).
Defined.

(* ----------------------------------------------------------------- *)
(** ** The table *)

Section MatrixTheorems.
Context {CM : ColorMath}.

(** The markup of the row of an entry with a name: the name stands in
    it as it is. *)
Lemma buildDataRows_named x n c :
  buildDataRows x [[(Kname, n); (Kcolor, c)]]
  = (LF :: indent 8 ++ lit "<tr>"%string
     ++ LF :: indent 10 ++ litq "<th scope='row' style='"%string
     ++ LF :: indent 12 ++ lit "--color: "%string
     ++ toHexString (Some c) ++ lit ";"%string
     ++ LF :: indent 12 ++ lit "--text-color: "%string
     ++ mostReadableHex (Some c) blackAndWhite ++ lit ";"%string
     ++ LF :: indent 10 ++ litq "'>"%string
     ++ LF :: indent 12
     ++ LF :: indent 14 ++ litq "<div class='color-name'>"%string
     ++ LF :: indent 16)
    ++ n
    ++ (LF :: indent 14 ++ lit "</div>"%string
        ++ LF :: indent 14
        ++ LF :: LF :: indent 12 ++ c
        ++ LF :: indent 10 ++ lit "</th>"%string
        ++ LF :: indent 10 ++ buildTableTds x (Some c)
        ++ LF :: indent 8 ++ lit "</tr>"%string
        ++ LF :: indent 6).
Proof.
  unfold buildDataRows, colorNameMarkup.
  cbn [map concat obj_has obj_get key_eqb templateString].
  rewrite app_nil_r.
  repeat (rewrite <- ?app_assoc, <- ?app_comm_cons). reflexivity.
Qed.

End MatrixTheorems.

(** C6 at an input that breaks it.  [buildDataRows] puts the name of an
    entry into the markup of its row as it is, whatever it holds.  For
    the X axis of the one colour [#fff] and the Y axis that
    [getInputData] reads from the line ["<td>0.5: #000"], the markup
    of the one data row has two [td] start tags, that of the name and
    that of the one cell of the template, where C6 has one cell
    for an X axis of one entry. *)
Theorem buildDataRows_name_unescaped :
  (forall (CM : ColorMath) x n c,
     buildDataRows x [[(Kname, n); (Kcolor, c)]]
     = (LF :: indent 8 ++ lit "<tr>"%string
        ++ LF :: indent 10 ++ litq "<th scope='row' style='"%string
        ++ LF :: indent 12 ++ lit "--color: "%string
        ++ toHexString (Some c) ++ lit ";"%string
        ++ LF :: indent 12 ++ lit "--text-color: "%string
        ++ mostReadableHex (Some c) blackAndWhite ++ lit ";"%string
        ++ LF :: indent 10 ++ litq "'>"%string
        ++ LF :: indent 12
        ++ LF :: indent 14 ++ litq "<div class='color-name'>"%string
        ++ LF :: indent 16)
       ++ n
       ++ (LF :: indent 14 ++ lit "</div>"%string
           ++ LF :: indent 14
           ++ LF :: LF :: indent 12 ++ c
           ++ LF :: indent 10 ++ lit "</th>"%string
           ++ LF :: indent 10 ++ buildTableTds x (Some c)
           ++ LF :: indent 8 ++ lit "</tr>"%string
           ++ LF :: indent 6))
  /\ (let y := @getInputData sampleColorMath (lit "<td>0.5: #000"%string) in
      y = [[(Kname, lit "<td>0.5"%string); (Kcolor, lit "#000"%string)]]
      /\ Forall (fun e => exists c, obj_get Kcolor e = Some c
                                    /\ SampleColor.isValid c = true) y
      /\ length [Samples.white] = 1%nat
      /\ occurrences (lit "<tr>"%string)
           (@buildDataRows sampleColorMath [Samples.white] y) = 1%nat
      /\ occurrences (lit "<td"%string)
           (@buildDataRows sampleColorMath [Samples.white] y) = 2%nat).
Proof.
  split.
  - intros CM x n c. apply buildDataRows_named.
  - cbv zeta. split; [vm_compute; reflexivity|]. split.
    + assert (E : @getInputData sampleColorMath (lit "<td>0.5: #000"%string)
                  = [[(Kname, lit "<td>0.5"%string);
                      (Kcolor, lit "#000"%string)]])
        by (vm_compute; reflexivity).
      rewrite E. constructor; [|constructor].
      exists (lit "#000"%string). split; reflexivity.
    + split; [reflexivity|]. split; vm_compute; reflexivity.
Qed.

(* ----------------------------------------------------------------- *)
(** ** Decimal digits *)

Lemma digitsValueFrom_app acc l d :
  Number.digitsValueFrom acc (l ++ [d])
  = 10 * Number.digitsValueFrom acc l + (d - 48).
Proof.
  revert acc. induction l as [|c r IH]; intros acc; simpl; [reflexivity|].
  apply IH.
Qed.

Lemma isDigit_of_value d : 0 <= d <= 9 -> JSON.isDigit (48 + d) = true.
Proof.
  intros H. unfold JSON.isDigit, inRange. apply andb_true_iff. split; lia.
Qed.

Lemma single_digit d :
  0 <= d <= 9 ->
  digitsValue [48 + d] = d
  /\ forallb JSON.isDigit [48 + d] = true
  /\ [48 + d] <> [].
Proof.
  intros H. split; [|split].
  - unfold digitsValue. cbn [Number.digitsValueFrom]. lia.
  - cbn [forallb]. now rewrite isDigit_of_value.
  - discriminate.
Qed.

Lemma digitsFuel_spec f : forall n,
  0 <= n < 2 ^ (Z.of_nat f + 1) ->
  digitsValue (digitsFuel f n) = n
  /\ forallb JSON.isDigit (digitsFuel f n) = true
  /\ digitsFuel f n <> [].
Proof.
  induction f as [|f IH]; intros n Hn.
  - cbn [digitsFuel]. change (2 ^ (Z.of_nat 0 + 1)) with 2 in Hn.
    assert (E : n mod 10 = n) by (apply Z.mod_small; lia).
    rewrite E. apply single_digit. lia.
  - cbn [digitsFuel]. destruct (Z.ltb_spec n 10).
    + apply single_digit. lia.
    + assert (Hq : 0 <= n / 10 < 2 ^ (Z.of_nat f + 1)).
      { replace (Z.of_nat (S f) + 1) with (Z.succ (Z.of_nat f + 1)) in Hn
          by lia.
        rewrite Z.pow_succ_r in Hn by lia.
        split; [apply Z.div_pos; lia|].
        apply Z.div_lt_upper_bound; lia. }
      destruct (IH _ Hq) as [Hv [Hd Hne]].
      unfold digitsValue in *. rewrite digitsValueFrom_app, Hv.
      pose proof (Z.mod_pos_bound n 10 ltac:(lia)) as Hm.
      split; [|split].
      * pose proof (Z.div_mod n 10). lia.
      * rewrite forallb_app, Hd. cbn [forallb andb].
        now rewrite isDigit_of_value by lia.
      * intros E. now apply app_eq_nil in E as [E _].
Qed.

Lemma digits_spec n :
  0 <= n ->
  digitsValue (digits n) = n
  /\ forallb JSON.isDigit (digits n) = true
  /\ digits n <> [].
Proof.
  intros Hn. unfold digits. apply digitsFuel_spec.
  rewrite Z2Nat.id by apply Z.log2_nonneg.
  destruct (Z.eq_dec n 0) as [->|Hz]; [cbn; lia|].
  pose proof (Z.log2_spec n). replace (Z.log2 n + 1) with (Z.succ (Z.log2 n))
    by lia. lia.
Qed.

Lemma digitsValueFrom_zeros k : forall s,
  Number.digitsValueFrom 0 (repeat 48 k ++ s) = Number.digitsValueFrom 0 s.
Proof. induction k as [|k IH]; intros s; simpl; [reflexivity|apply IH]. Qed.

Lemma forallb_repeat {A} (f : A -> bool) a k :
  f a = true -> forallb f (repeat a k) = true.
Proof. intros H. induction k; simpl; [reflexivity|now rewrite H]. Qed.

Lemma padTo3_spec m :
  forallb JSON.isDigit m = true ->
  digitsValue (padTo3 m) = digitsValue m
  /\ forallb JSON.isDigit (padTo3 m) = true
  /\ (3 <= length (padTo3 m))%nat.
Proof.
  intros Hm. unfold padTo3, digitsValue. rewrite digitsValueFrom_zeros.
  split; [reflexivity|]. split.
  - rewrite forallb_app, Hm, andb_true_r. now apply forallb_repeat.
  - rewrite length_app, repeat_length. lia.
Qed.


Lemma Qltb_lt a b : Qltb a b = true <-> (a < b)%Q.
Proof.
  unfold Qltb. rewrite negb_true_iff. split.
  - intros H. apply Qnot_le_lt. intros Hle.
    apply Qle_bool_iff in Hle. congruence.
  - intros H. destruct (Qle_bool b a) eqn:E; [|reflexivity].
    apply Qle_bool_iff in E. exfalso. now apply (Qlt_not_le a b).
Qed.




(* ----------------------------------------------------------------- *)
(** ** setCellContrast *)



Section ThresholdTheorems.
Context {CM : ColorMath}.


End ThresholdTheorems.



(* ----------------------------------------------------------------- *)
(** ** UTF-8 *)

Ltac unfold_ranges :=
  unfold isScalar, isSurrogate, isLeadSurrogate, isTrailSurrogate,
    isContinuation, isByte, isAscii, inRange,
    secondLower3, secondUpper3, secondLower4, secondUpper4,
    REPLACEMENT in *.

(** Splits on a condition that has no conditional inside. *)
Ltac case_if :=
  match goal with
  | |- context [if ?c then _ else _] =>
      lazymatch c with
      | context [if _ then _ else _] => fail
      | _ => let E := fresh "E" in destruct c eqn:E
      end
  end.

Ltac divmod := Z.div_mod_to_equations; lia.

Lemma utf8EncodeCodePoint_bytes cp :
  isScalar cp = true -> forallb isByte (utf8EncodeCodePoint cp) = true.
Proof.
  intros H. unfold utf8EncodeCodePoint. unfold_ranges.
  repeat case_if; cbn [forallb]; rewrite ?andb_true_iff;
    repeat split; try reflexivity; divmod.
Qed.

Lemma utf8Decode_encode_one cp rest :
  isScalar cp = true ->
  utf8DecodeLossy (utf8EncodeCodePoint cp ++ rest)
  = cp :: utf8DecodeLossy rest.
Proof.
  intros H. unfold utf8EncodeCodePoint. unfold_ranges.
  destruct (Z.ltb_spec cp 128); [|destruct (Z.ltb_spec cp 2048);
    [|destruct (Z.ltb_spec cp 65536)]];
    cbn [app utf8DecodeLossy]; unfold_ranges; unfold cp2, cp3, cp4;
    repeat (case_if; try (exfalso; divmod));
    try reflexivity; f_equal; divmod.
Qed.

Lemma utf8Decode_encode cps :
  forallb isScalar cps = true -> utf8DecodeLossy (utf8Encode cps) = cps.
Proof.
  induction cps as [|cp r IH]; intros H; [reflexivity|].
  cbn [forallb] in H. apply andb_true_iff in H as [H1 H2].
  unfold utf8Encode. cbn [flat_map].
  rewrite utf8Decode_encode_one by exact H1.
  f_equal. now apply IH.
Qed.

Ltac case_list :=
  match goal with
  | |- context [match ?l with [] => _ | _ :: _ => _ end] =>
      is_var l; destruct l
  end.

Lemma isScalar_REPLACEMENT : isScalar REPLACEMENT = true.
Proof. reflexivity. Qed.

(** The decoder only returns scalar values, whatever it reads. *)
Lemma utf8DecodeLossy_scalar bytes :
  forallb isScalar (utf8DecodeLossy bytes) = true.
Proof.
  remember (length bytes) as n eqn:Hn.
  assert (Hlen : (length bytes <= n)%nat) by lia. clear Hn.
  revert bytes Hlen. induction n as [|n IH]; intros bytes Hlen.
  - destruct bytes; [reflexivity|simpl in Hlen; lia].
  - destruct bytes as [|b1 r1]; [reflexivity|].
    cbn [utf8DecodeLossy]. unfold isContinuation, inRange,
      secondLower3, secondUpper3, secondLower4, secondUpper4.
    repeat (first [case_if | case_list]);
      cbn [forallb length] in *;
      rewrite ?IH by (cbn [length]; lia); rewrite ?isScalar_REPLACEMENT;
      rewrite ?andb_true_r; try reflexivity;
      unfold isScalar, isSurrogate, cp2, cp3, cp4; lia.
Qed.

Lemma stringToCodePoints_toUSV_scalar s : forallb isScalar (toUSV s) = true.
Proof.
  unfold toUSV. induction (stringToCodePoints s) as [|cp r IH];
    [reflexivity|].
  cbn [map forallb]. rewrite IH, andb_true_r.
  destruct (isScalar cp) eqn:E; [exact E|reflexivity].
Qed.

Lemma isAscii_isScalar c : isAscii c = true -> isScalar c = true.
Proof. unfold_ranges. lia. Qed.

Lemma toUSV_ascii s : forallb isAscii s = true -> toUSV s = s.
Proof.
  unfold toUSV. induction s as [|c r IH]; intros H; [reflexivity|].
  cbn [forallb] in H. apply andb_true_iff in H as [H1 H2].
  cbn [stringToCodePoints].
  assert (El : isLeadSurrogate c = false) by (unfold_ranges; lia).
  rewrite El. cbn [map]. rewrite (isAscii_isScalar _ H1).
  f_equal. now apply IH.
Qed.

Lemma utf8Encode_ascii s : forallb isAscii s = true -> utf8Encode s = s.
Proof.
  unfold utf8Encode. induction s as [|c r IH]; intros H; [reflexivity|].
  cbn [forallb] in H. apply andb_true_iff in H as [H1 H2].
  cbn [flat_map]. rewrite IH by exact H2.
  unfold utf8EncodeCodePoint.
  assert (E : (c <? 128) = true) by (unfold_ranges; lia).
  now rewrite E.
Qed.

Lemma ofUSV_ascii s : forallb isAscii s = true -> ofUSV s = s.
Proof.
  unfold ofUSV. induction s as [|c r IH]; intros H; [reflexivity|].
  cbn [forallb] in H. apply andb_true_iff in H as [H1 H2].
  cbn [flat_map]. rewrite IH by exact H2.
  unfold utf16Encode.
  assert (E : (c <? 65536) = true) by (unfold_ranges; lia).
  now rewrite E.
Qed.

(* ----------------------------------------------------------------- *)
(** ** The URLSearchParams serializer and parser *)

Module ParamsFacts.
Import URLSearchParams.

Ltac unfold_chars :=
  unfold isComponentChar, isQuerySafe, isUriSafe, isUnreserved, isFormSafe,
    isAsciiAlphanumeric, hexUpper, hexLower, hexValue,
    PLUS, SPACE, AMP, EQUALS, QUESTION, PERCENT in *;
  unfold_ranges.

Lemma hexValue_hexUpper n : 0 <= n < 16 -> hexValue (hexUpper n) = Some n.
Proof.
  intros H. unfold hexValue, hexUpper, inRange.
  repeat case_if; try (exfalso; lia); f_equal; lia.
Qed.

Lemma hexUpper_component n :
  0 <= n < 16 -> isComponentChar (hexUpper n) = true.
Proof. intros H. unfold_chars. repeat case_if; lia. Qed.

Lemma hexUpper_not_plus n :
  0 <= n < 16 -> (hexUpper n =? PLUS) = false.
Proof. intros H. unfold_chars. repeat case_if; lia. Qed.

Lemma serializeByte_component b :
  isByte b = true -> forallb isComponentChar (serializeByte b) = true.
Proof.
  intros H. unfold serializeByte, percentEncodeByte.
  assert (Hb : 0 <= b < 256) by (unfold_ranges; lia).
  destruct (b =? SPACE) eqn:E1; [reflexivity|].
  destruct (isFormSafe b) eqn:E2.
  - cbn [forallb]. unfold isComponentChar. now rewrite E2.
  - cbn [forallb]. rewrite !hexUpper_component by divmod. reflexivity.
Qed.

Lemma percentDecode_serializeByte b rest :
  isByte b = true ->
  percentDecode (plusToSpace (serializeByte b ++ rest))
  = b :: percentDecode (plusToSpace rest).
Proof.
  intros H. assert (Hb : 0 <= b < 256) by (unfold_ranges; lia).
  unfold serializeByte, percentEncodeByte.
  destruct (b =? SPACE) eqn:E1.
  - apply Z.eqb_eq in E1. subst b. reflexivity.
  - destruct (isFormSafe b) eqn:E2.
    + cbn [app plusToSpace map percentDecode].
      assert (Ep : (b =? PLUS) = false) by (unfold_chars; lia).
      assert (Eq : (b =? PERCENT) = false) by (unfold_chars; lia).
      now rewrite Ep, Eq.
    + cbn [app plusToSpace map].
      rewrite !hexUpper_not_plus by divmod.
      change (PERCENT =? PLUS) with false. cbn [percentDecode].
      rewrite Z.eqb_refl, !hexValue_hexUpper by divmod.
      f_equal. divmod.
Qed.

Lemma percentDecode_serialize bytes :
  forallb isByte bytes = true ->
  percentDecode (plusToSpace (flat_map serializeByte bytes)) = bytes.
Proof.
  induction bytes as [|b r IH]; intros H; [reflexivity|].
  cbn [forallb] in H. apply andb_true_iff in H as [H1 H2].
  cbn [flat_map]. rewrite percentDecode_serializeByte by exact H1.
  f_equal. now apply IH.
Qed.

Lemma utf8Encode_bytes cps :
  forallb isScalar cps = true -> forallb isByte (utf8Encode cps) = true.
Proof.
  induction cps as [|cp r IH]; intros H; [reflexivity|].
  cbn [forallb] in H. apply andb_true_iff in H as [H1 H2].
  unfold utf8Encode. cbn [flat_map]. rewrite forallb_app.
  rewrite utf8EncodeCodePoint_bytes by exact H1. now apply IH.
Qed.

Lemma serializeString_component s :
  forallb isScalar s = true ->
  forallb isComponentChar (serializeString s) = true.
Proof.
  intros H. unfold serializeString.
  pose proof (utf8Encode_bytes s H) as Hb.
  induction (utf8Encode s) as [|b r IH]; [reflexivity|].
  cbn [forallb] in Hb. apply andb_true_iff in Hb as [H1 H2].
  cbn [flat_map]. rewrite forallb_app, serializeByte_component by exact H1.
  now apply IH.
Qed.

Lemma decodeComponent_serializeString s :
  forallb isScalar s = true -> decodeComponent (serializeString s) = s.
Proof.
  intros H. unfold decodeComponent, serializeString.
  rewrite percentDecode_serialize by now apply utf8Encode_bytes.
  now apply utf8Decode_encode.
Qed.

Lemma splitAtEquals_app a b :
  forallb isComponentChar a = true ->
  splitAtEquals (a ++ EQUALS :: b) = (a, b).
Proof.
  induction a as [|c r IH]; intros H.
  - reflexivity.
  - cbn [forallb] in H. apply andb_true_iff in H as [H1 H2].
    cbn [app splitAtEquals].
    assert (E : (c =? EQUALS) = false) by (unfold_chars; lia).
    now rewrite E, IH.
Qed.

Lemma parseSequence_serializePair p :
  scalarPair p = true -> parseSequence (serializePair p) = p.
Proof.
  destruct p as [n v]. unfold scalarPair. cbn [fst snd].
  intros H. apply andb_true_iff in H as [Hn Hv].
  unfold parseSequence, serializePair. cbn [fst snd].
  rewrite splitAtEquals_app by now apply serializeString_component.
  now rewrite !decodeComponent_serializeString.
Qed.

Lemma serializePair_chars p :
  scalarPair p = true ->
  forallb isPairChar (serializePair p) = true /\ serializePair p <> [].
Proof.
  destruct p as [n v]. unfold scalarPair. cbn [fst snd].
  intros H. apply andb_true_iff in H as [Hn Hv].
  unfold serializePair. cbn [fst snd]. split.
  - rewrite forallb_app. cbn [forallb].
    apply serializeString_component in Hn, Hv.
    assert (W : forall l, forallb isComponentChar l = true ->
                          forallb isPairChar l = true).
    { intros l Hl. rewrite forallb_forall in *. intros x Hx.
      unfold isPairChar. now rewrite (Hl x Hx). }
    now rewrite (W _ Hn), (W _ Hv).
  - intros E. now apply app_eq_nil in E as [_ E].
Qed.

Lemma split_no_separator sep s :
  forallb (fun c => negb (c =? sep)) s = true -> split sep s = [s].
Proof.
  induction s as [|c r IH]; intros H; [reflexivity|].
  cbn [forallb] in H. apply andb_true_iff in H as [H1 H2].
  cbn [split]. apply negb_true_iff in H1. now rewrite H1, IH.
Qed.

Lemma isPairChar_not_amp s :
  forallb isPairChar s = true ->
  forallb (fun c => negb (c =? AMP)) s = true.
Proof.
  intros H. rewrite forallb_forall in *. intros x Hx.
  specialize (H x Hx). unfold isPairChar in H. unfold_chars. lia.
Qed.

Lemma split_joinWith pieces :
  pieces <> [] ->
  Forall (fun s => forallb isPairChar s = true) pieces ->
  split AMP (joinWith AMP pieces) = pieces.
Proof.
  induction pieces as [|x r IH]; intros Hne HF; [congruence|].
  inversion HF as [|? ? Hx Hr]; subst.
  destruct r as [|y r'].
  - cbn [joinWith]. apply split_no_separator. now apply isPairChar_not_amp.
  - change (joinWith AMP (x :: y :: r'))
      with (x ++ AMP :: joinWith AMP (y :: r')).
    rewrite split_app, IH by (auto; discriminate).
    rewrite split_no_separator by now apply isPairChar_not_amp.
    reflexivity.
Qed.

(** Parsing what the serializer wrote gives the list back. *)
Lemma parseBytes_toString (l : t) :
  forallb scalarPair l = true -> parseBytes (toString l) = l.
Proof.
  intros H. unfold parseBytes, toString.
  destruct l as [|p r]; [reflexivity|].
  rewrite split_joinWith.
  - induction (p :: r) as [|q s IH]; [reflexivity|].
    cbn [forallb] in H. apply andb_true_iff in H as [H1 H2].
    cbn [map filter].
    destruct (serializePair_chars q H1) as [_ Hne].
    destruct (serializePair q) eqn:E; [congruence|].
    cbn [isEmpty negb map]. rewrite <- E.
    rewrite parseSequence_serializePair by exact H1.
    f_equal. now apply IH.
  - discriminate.
  - rewrite forallb_forall in H. apply Forall_forall.
    intros s Hs. apply in_map_iff in Hs as [q [<- Hq]].
    now apply serializePair_chars, H.
Qed.

End ParamsFacts.

Module ParamsOps.
Import URLSearchParams ParamsFacts.

Lemma usv_eqb_eq a b : usv_eqb a b = true <-> a = b.
Proof. apply jseqb_eq. Qed.

Lemma usv_eqb_refl a : usv_eqb a a = true.
Proof. apply jseqb_refl. Qed.

Lemma getUSV_setUSV_same k v l : getUSV k (setUSV k v l) = Some v.
Proof.
  induction l as [|[n w] r IH]; cbn [setUSV getUSV].
  - now rewrite usv_eqb_refl.
  - destruct (usv_eqb n k) eqn:E; cbn [getUSV].
    + now rewrite usv_eqb_refl.
    + now rewrite E.
Qed.

Lemma getUSV_deleteUSV_same k l : getUSV k (deleteUSV k l) = None.
Proof.
  induction l as [|[n w] r IH]; [reflexivity|].
  unfold deleteUSV in *. cbn [filter fst].
  destruct (usv_eqb n k) eqn:E; cbn [negb getUSV]; [exact IH|].
  now rewrite E.
Qed.

Lemma getUSV_deleteUSV_other k k' l :
  k <> k' -> getUSV k' (deleteUSV k l) = getUSV k' l.
Proof.
  intros Hk. induction l as [|[n w] r IH]; [reflexivity|].
  unfold deleteUSV in *. cbn [filter fst getUSV].
  destruct (usv_eqb n k) eqn:E; cbn [negb getUSV].
  - apply usv_eqb_eq in E. subst n.
    destruct (usv_eqb k k') eqn:E'; [|exact IH].
    apply usv_eqb_eq in E'. congruence.
  - now rewrite IH.
Qed.

Lemma getUSV_setUSV_other k k' v l :
  k <> k' -> getUSV k' (setUSV k v l) = getUSV k' l.
Proof.
  intros Hk. induction l as [|[n w] r IH]; cbn [setUSV getUSV].
  - destruct (usv_eqb k k') eqn:E; [|reflexivity].
    apply usv_eqb_eq in E. congruence.
  - destruct (usv_eqb n k) eqn:E; cbn [getUSV].
    + apply usv_eqb_eq in E. subst n.
      destruct (usv_eqb k k') eqn:E'.
      * apply usv_eqb_eq in E'. congruence.
      * now apply getUSV_deleteUSV_other.
    + now rewrite IH.
Qed.

Lemma has_getUSV name l :
  has name l = match getUSV (toUSV name) l with
               | Some _ => true | None => false end.
Proof.
  unfold has. induction l as [|[n w] r IH]; [reflexivity|].
  cbn [existsb getUSV fst]. destruct (usv_eqb n (toUSV name)); [reflexivity|].
  exact IH.
Qed.

(** [set] and [delete] under a name leave the pairs under every other
    name as they are, and in their order. *)
Lemma filter_deleteUSV (f : list Z * list Z -> bool) k l :
  (forall p, usv_eqb (fst p) k = true -> f p = false) ->
  filter f (deleteUSV k l) = filter f l.
Proof.
  intros Hf. induction l as [|q r IH]; [reflexivity|].
  unfold deleteUSV in *. cbn [filter].
  destruct (usv_eqb (fst q) k) eqn:E; cbn [negb filter].
  - now rewrite (Hf q E).
  - now rewrite IH.
Qed.

Lemma filter_setUSV (f : list Z * list Z -> bool) k v l :
  (forall p, usv_eqb (fst p) k = true -> f p = false) ->
  filter f (setUSV k v l) = filter f l.
Proof.
  intros Hf. induction l as [|[n w] r IH]; cbn [setUSV filter].
  - now rewrite (Hf (k, v)) by apply usv_eqb_refl.
  - destruct (usv_eqb n k) eqn:E; cbn [filter].
    + rewrite (Hf (k, v)) by apply usv_eqb_refl.
      rewrite (Hf (n, w)) by exact E.
      now apply filter_deleteUSV.
    + now rewrite IH.
Qed.

Lemma otherParams_set_x v l :
  otherParams (set xAxisDataName v l) = otherParams l.
Proof.
  unfold otherParams, set. apply filter_setUSV.
  intros p E. now rewrite E.
Qed.

Lemma otherParams_set_y v l :
  otherParams (set yAxisDataName v l) = otherParams l.
Proof.
  unfold otherParams, set. apply filter_setUSV.
  intros p E. rewrite E. apply andb_false_r.
Qed.

Lemma otherParams_delete_y l :
  otherParams (delete yAxisDataName l) = otherParams l.
Proof.
  unfold otherParams, delete. apply filter_deleteUSV.
  intros p E. rewrite E. apply andb_false_r.
Qed.

(** Scalar values all along. *)
Lemma parseBytes_scalar input : forallb scalarPair (parseBytes input) = true.
Proof.
  unfold parseBytes.
  induction (filter (fun s => negb (isEmpty s)) (split AMP input))
    as [|s r IH]; [reflexivity|].
  cbn [map forallb]. rewrite IH, andb_true_r.
  unfold parseSequence. destruct (splitAtEquals s) as [n v].
  unfold scalarPair, decodeComponent. cbn [fst snd].
  now rewrite !utf8DecodeLossy_scalar.
Qed.

Lemma ofString_scalar init : forallb scalarPair (ofString init) = true.
Proof. unfold ofString. apply parseBytes_scalar. Qed.

Lemma deleteUSV_scalar k l :
  forallb scalarPair l = true -> forallb scalarPair (deleteUSV k l) = true.
Proof.
  intros H. rewrite forallb_forall in *. intros p Hp.
  apply H. unfold deleteUSV in Hp. now apply filter_In in Hp as [Hp _].
Qed.

Lemma setUSV_scalar k v l :
  forallb isScalar k = true -> forallb isScalar v = true ->
  forallb scalarPair l = true -> forallb scalarPair (setUSV k v l) = true.
Proof.
  intros Hk Hv. induction l as [|[n w] r IH]; intros H; cbn [setUSV forallb].
  - unfold scalarPair. cbn [fst snd]. now rewrite Hk, Hv.
  - cbn [forallb] in H. apply andb_true_iff in H as [H1 H2].
    destruct (usv_eqb n k); cbn [forallb].
    + rewrite deleteUSV_scalar by exact H2.
      unfold scalarPair. cbn [fst snd]. now rewrite Hk, Hv.
    + now rewrite H1, IH.
Qed.

Lemma set_scalar name value l :
  forallb scalarPair l = true ->
  forallb scalarPair (set name value l) = true.
Proof.
  intros H. unfold set.
  apply setUSV_scalar; auto using stringToCodePoints_toUSV_scalar.
Qed.

Lemma delete_scalar name l :
  forallb scalarPair l = true -> forallb scalarPair (delete name l) = true.
Proof. intros H. now apply deleteUSV_scalar. Qed.

(** What the serializer writes is left alone by the URL parser. *)
Lemma toString_querySafe l :
  forallb scalarPair l = true -> forallb isQuerySafe (toString l) = true.
Proof.
  intros H. unfold toString.
  assert (W : forall s, forallb isPairChar s = true ->
                        forallb isQuerySafe s = true).
  { intros s Hs. rewrite forallb_forall in *. intros x Hx.
    specialize (Hs x Hx). unfold isPairChar in Hs. unfold_chars. lia. }
  induction l as [|p r IH]; [reflexivity|].
  cbn [forallb] in H. apply andb_true_iff in H as [H1 H2].
  destruct (serializePair_chars p H1) as [Hc _].
  cbn [map]. destruct r as [|q r'].
  - cbn [joinWith]. now apply W.
  - change (joinWith AMP (serializePair p :: map serializePair (q :: r')))
      with (serializePair p ++ AMP :: joinWith AMP (map serializePair (q :: r'))).
    rewrite forallb_app. cbn [forallb]. rewrite (W _ Hc), (IH H2).
    reflexivity.
Qed.

Lemma isQuerySafe_ascii s :
  forallb isQuerySafe s = true -> forallb isAscii s = true.
Proof.
  intros H. rewrite forallb_forall in *. intros x Hx.
  specialize (H x Hx). unfold_chars. lia.
Qed.

Lemma parseQuery_safe s :
  forallb isQuerySafe s = true -> Location.parseQuery s = s.
Proof.
  intros H. unfold Location.parseQuery.
  assert (F : filter (fun c => negb (Location.isTabOrNewline c)) s = s).
  { apply forallb_filter_id. rewrite forallb_forall in *. intros x Hx.
    specialize (H x Hx). unfold Location.isTabOrNewline.
    unfold_chars. lia. }
  rewrite F, toUSV_ascii by now apply isQuerySafe_ascii.
  induction s as [|c r IH]; [reflexivity|].
  cbn [forallb] in H. apply andb_true_iff in H as [H1 H2].
  assert (F2 : filter (fun c => negb (Location.isTabOrNewline c)) r = r).
  { cbn [filter] in F. destruct (negb (Location.isTabOrNewline c)).
    - now injection F.
    - exfalso. assert (L : (length (filter
        (fun c => negb (Location.isTabOrNewline c)) r) <= length r)%nat)
        by apply filter_length_le.
      rewrite F in L. cbn [length] in L. lia. }
  cbn [Location.untilHash].
  assert (Eh : (c =? Location.HASH) = false)
    by (unfold Location.HASH; unfold_chars; lia).
  rewrite Eh. cbn [flat_map]. rewrite (IH H2 F2).
  unfold Location.queryEncodeCodePoint.
  assert (Es : Location.inQueryEncodeSet c = false)
    by (unfold Location.inQueryEncodeSet; unfold_chars; lia).
  now rewrite Es.
Qed.

(** Reading back the address [pushState] has installed. *)
Lemma ofString_pushed l :
  forallb scalarPair l = true ->
  ofString (Location.searchOfQuery (Location.parseQuery (toString l))) = l.
Proof.
  intros H. pose proof (toString_querySafe l H) as Hs.
  rewrite parseQuery_safe by exact Hs.
  unfold Location.searchOfQuery, ofString.
  destruct (toString l) as [|c r] eqn:E.
  - pose proof (parseBytes_toString l H) as P. rewrite E in P. exact P.
  - rewrite Z.eqb_refl. rewrite <- E in *.
    rewrite toUSV_ascii, utf8Encode_ascii by now apply isQuerySafe_ascii.
    now apply parseBytes_toString.
Qed.

End ParamsOps.

(* ----------------------------------------------------------------- *)
(** ** Surrogates in the text of JSON.stringify *)

Lemma wellPaired_app a b : wellPaired a -> wellPaired b -> wellPaired (a ++ b).
Proof.
  intros Ha Hb. induction Ha; cbn [app]; auto using wellPaired.
Qed.

Lemma wellPaired_plain s :
  forallb notSurrogate s = true -> wellPaired s.
Proof.
  induction s as [|c r IH]; intros H; [constructor|].
  cbn [forallb] in H. apply andb_true_iff in H as [H1 H2].
  apply wp_unit; [|now apply IH].
  unfold notSurrogate in H1. now apply negb_true_iff in H1.
Qed.

Lemma wellPaired_cons c s :
  notSurrogate c = true -> wellPaired s -> wellPaired (c :: s).
Proof.
  intros H1 H2. apply wp_unit; [|exact H2].
  unfold notSurrogate in H1. now apply negb_true_iff in H1.
Qed.

Lemma hexLower_range n : 0 <= n < 16 -> 48 <= hexLower n <= 102.
Proof. intros H. unfold hexLower. case_if; lia. Qed.

Lemma quoteCodeUnit_plain c :
  forallb notSurrogate (JSON.quoteCodeUnit c) = true.
Proof.
  unfold JSON.quoteCodeUnit, JSON.unicodeEscape, JSON.hex4.
  repeat case_if; try reflexivity.
  - cbn [forallb].
    pose proof (hexLower_range ((c / 4096) mod 16) ltac:(divmod)).
    pose proof (hexLower_range ((c / 256) mod 16) ltac:(divmod)).
    pose proof (hexLower_range ((c / 16) mod 16) ltac:(divmod)).
    pose proof (hexLower_range (c mod 16) ltac:(divmod)).
    unfold notSurrogate, isSurrogate, JSON.BACKSLASH. lia.
  - cbn [forallb]. unfold notSurrogate.
    match goal with
    | H : (_ <? 32) || isSurrogate c = false |- _ =>
        apply orb_false_iff in H as [_ ->]
    end.
    reflexivity.
Qed.

Lemma quoteBody_wellPaired s : wellPaired (JSON.quoteBody s).
Proof.
  remember (length s) as n eqn:Hn.
  assert (Hlen : (length s <= n)%nat) by lia. clear Hn.
  revert s Hlen. induction n as [|n IH]; intros s Hlen.
  - destruct s; [constructor|simpl in Hlen; lia].
  - destruct s as [|c r]; [constructor|]. cbn [length] in Hlen.
    cbn [JSON.quoteBody].
    destruct (isLeadSurrogate c) eqn:El.
    + destruct r as [|d r'].
      * apply wellPaired_plain, quoteCodeUnit_plain.
      * destruct (isTrailSurrogate d) eqn:Et.
        -- apply wp_pair; auto. apply IH. cbn [length] in Hlen. lia.
        -- apply wellPaired_app;
             [apply wellPaired_plain, quoteCodeUnit_plain|].
           apply IH. lia.
    + apply wellPaired_app; [apply wellPaired_plain, quoteCodeUnit_plain|].
      apply IH. lia.
Qed.

Lemma quoteJSONString_wellPaired s : wellPaired (JSON.quoteJSONString s).
Proof.
  unfold JSON.quoteJSONString. apply wellPaired_cons; [reflexivity|].
  apply wellPaired_app; [apply quoteBody_wellPaired|].
  apply wellPaired_plain. reflexivity.
Qed.

Lemma joinWith_wellPaired sep pieces :
  notSurrogate sep = true ->
  Forall wellPaired pieces ->
  wellPaired (URLSearchParams.joinWith sep pieces).
Proof.
  intros Hs HF. induction HF as [|x r Hx Hr IH]; [constructor|].
  destruct r as [|y r'].
  - exact Hx.
  - change (URLSearchParams.joinWith sep (x :: y :: r'))
      with (x ++ sep :: URLSearchParams.joinWith sep (y :: r')).
    apply wellPaired_app; [exact Hx|]. now apply wellPaired_cons.
Qed.

Lemma stringifyEntry_wellPaired e : wellPaired (JSON.stringifyEntry e).
Proof.
  unfold JSON.stringifyEntry. apply wellPaired_cons; [reflexivity|].
  apply wellPaired_app; [|apply wellPaired_plain; reflexivity].
  apply joinWith_wellPaired; [reflexivity|].
  apply Forall_forall. intros s Hs. apply in_map_iff in Hs as [p [<- _]].
  unfold JSON.stringifyProperty.
  apply wellPaired_app; [apply quoteJSONString_wellPaired|].
  apply wellPaired_cons; [reflexivity|apply quoteJSONString_wellPaired].
Qed.

Lemma stringifyEntries_wellPaired l : wellPaired (JSON.stringifyEntries l).
Proof.
  unfold JSON.stringifyEntries. apply wellPaired_cons; [reflexivity|].
  apply wellPaired_app; [|apply wellPaired_plain; reflexivity].
  apply joinWith_wellPaired; [reflexivity|].
  apply Forall_forall. intros s Hs. apply in_map_iff in Hs as [e [<- _]].
  apply stringifyEntry_wellPaired.
Qed.

(** [encodeURIComponent] throws on unpaired surrogates only. *)
Lemma encodeURIComponent_wellPaired s :
  wellPaired s -> exists e, encodeURIComponent s = Ok e.
Proof.
  intros H. induction H as [|c r Hc Hr [e IH]|c d r Hc Hd Hr [e IH]].
  - now exists [].
  - cbn [encodeURIComponent]. rewrite IH. cbn [bind].
    destruct (isUnreserved c); [eauto|].
    assert (El : isLeadSurrogate c = false) by (unfold_ranges; lia).
    assert (Et : isTrailSurrogate c = false) by (unfold_ranges; lia).
    rewrite El, Et. eauto.
  - cbn [encodeURIComponent].
    assert (Eu : isUnreserved c = false).
    { unfold isUnreserved, isAsciiAlphanumeric. unfold_ranges. lia. }
    rewrite Eu, Hc, Hd, IH. cbn [bind]. eauto.
Qed.

Lemma encodeURIComponent_stringifyEntries l :
  exists e, encodeURIComponent (JSON.stringifyEntries l) = Ok e.
Proof. apply encodeURIComponent_wellPaired, stringifyEntries_wellPaired. Qed.

(* ----------------------------------------------------------------- *)
(** ** decodeURIComponent after encodeURIComponent *)

Module URIFacts.
Import ParamsFacts.

Lemma hexUpper_uriSafe n : 0 <= n < 16 -> isUriSafe (hexUpper n) = true.
Proof. intros H. unfold_chars. repeat case_if; lia. Qed.

Lemma escape_uriSafe bytes :
  forallb isByte bytes = true ->
  forallb isUriSafe (flat_map percentEncodeByte bytes) = true.
Proof.
  induction bytes as [|b r IH]; intros H; [reflexivity|].
  cbn [forallb] in H. apply andb_true_iff in H as [H1 H2].
  assert (Hb : 0 <= b < 256) by (unfold_ranges; lia).
  cbn [flat_map percentEncodeByte app forallb].
  rewrite !hexUpper_uriSafe by divmod. now rewrite IH.
Qed.

Lemma unescape_escape bytes rest items :
  forallb isByte bytes = true ->
  unescape rest = Ok items ->
  unescape (flat_map percentEncodeByte bytes ++ rest)
  = Ok (map Octet bytes ++ items).
Proof.
  intros Hb Hr. induction bytes as [|b r IH]; [exact Hr|].
  cbn [forallb] in Hb. apply andb_true_iff in Hb as [H1 H2].
  assert (Hr' : 0 <= b < 256) by (unfold_ranges; lia).
  cbn [flat_map percentEncodeByte app unescape map].
  rewrite Z.eqb_refl.
  rewrite (hexValue_hexUpper (b / 16)) by divmod.
  rewrite (hexValue_hexUpper (b mod 16)) by divmod.
  rewrite (IH H2). cbn [bind]. do 3 f_equal. divmod.
Qed.

Lemma decodeOctets_encoded cp items rest :
  isScalar cp = true ->
  decodeOctets items = Ok rest ->
  decodeOctets (map Octet (utf8EncodeCodePoint cp) ++ items)
  = Ok (utf16Encode cp ++ rest).
Proof.
  intros H Hi. unfold utf8EncodeCodePoint. unfold_ranges.
  destruct (Z.ltb_spec cp 128); [|destruct (Z.ltb_spec cp 2048);
    [|destruct (Z.ltb_spec cp 65536)]];
    cbn [map app decodeOctets]; unfold_ranges;
    repeat (case_if; try (exfalso; divmod));
    rewrite Hi; cbn [bind]; unfold cp2, cp3, cp4;
    match goal with
    | |- Ok (utf16Encode ?a ++ _) = Ok (utf16Encode ?b ++ _) =>
        replace a with b by divmod; reflexivity
    | |- Ok (?a :: _) = Ok (utf16Encode ?b ++ _) =>
        unfold utf16Encode;
        replace (b <? 65536) with true by lia; reflexivity
    end.
Qed.

Lemma utf16Encode_unit c : code_unit c -> utf16Encode c = [c].
Proof.
  unfold code_unit, utf16Encode. intros H.
  now replace (c <? 65536) with true by lia.
Qed.

Lemma utf16Encode_pair c d :
  isLeadSurrogate c = true -> isTrailSurrogate d = true ->
  utf16Encode (pairToCodePoint c d) = [c; d]
  /\ isScalar (pairToCodePoint c d) = true.
Proof.
  intros Hc Hd. unfold utf16Encode, pairToCodePoint. unfold_ranges.
  split; [|lia].
  replace ((c - 55296) * 1024 + (d - 56320) + 65536 <? 65536) with false
    by lia.
  f_equal; [|f_equal]; divmod.
Qed.

(** On a string whose surrogates are paired, [encodeURIComponent]
    returns text of unreserved characters and escapes that
    [decodeURIComponent] turns back into the string. *)
Lemma decode_encode s :
  wellPaired s -> wf_string s ->
  exists e items,
    encodeURIComponent s = Ok e
    /\ forallb isUriSafe e = true
    /\ unescape e = Ok items
    /\ decodeOctets items = Ok s.
Proof.
  intros H. induction H as [|c r Hc Hr IH|c d r Hc Hd Hr IH]; intros Hwf.
  - exists [], []. repeat split.
  - inversion Hwf as [|? ? Hcu Hwr]; subst.
    destruct (IH Hwr) as [e [items [He [Hs [Hu Hd]]]]].
    cbn [encodeURIComponent]. rewrite He. cbn [bind].
    destruct (isUnreserved c) eqn:Eu.
    + exists (c :: e), (Unit c :: items). split; [reflexivity|].
      split; [|split].
      * cbn [forallb]. unfold isUriSafe at 1. now rewrite Eu, Hs.
      * cbn [unescape].
        assert (Ep : (c =? PERCENT) = false) by (unfold_chars; lia).
        now rewrite Ep, Hu.
      * cbn [decodeOctets]. now rewrite Hd.
    + assert (El : isLeadSurrogate c = false) by (unfold_ranges; lia).
      assert (Et : isTrailSurrogate c = false) by (unfold_ranges; lia).
      assert (Hsc : isScalar c = true)
        by (unfold code_unit in Hcu; unfold_ranges; lia).
      rewrite El, Et.
      exists (escapeCodePoint c ++ e),
             (map Octet (utf8EncodeCodePoint c) ++ items).
      split; [reflexivity|]. split; [|split].
      * rewrite forallb_app, Hs. unfold escapeCodePoint.
        now rewrite escape_uriSafe by now apply utf8EncodeCodePoint_bytes.
      * apply unescape_escape; [now apply utf8EncodeCodePoint_bytes|exact Hu].
      * rewrite (decodeOctets_encoded c items r Hsc Hd).
        now rewrite utf16Encode_unit.
  - inversion Hwf as [|? ? Hcu Hwr0]; subst.
    inversion Hwr0 as [|? ? Hdu Hwr]; subst.
    destruct (IH Hwr) as [e [items [He [Hs [Hu Hdd]]]]].
    destruct (utf16Encode_pair c d Hc Hd) as [Hp Hsc].
    cbn [encodeURIComponent].
    assert (Eu : isUnreserved c = false) by (unfold_chars; lia).
    rewrite Eu, Hc, Hd, He. cbn [bind].
    exists (escapeCodePoint (pairToCodePoint c d) ++ e),
           (map Octet (utf8EncodeCodePoint (pairToCodePoint c d)) ++ items).
    split; [reflexivity|]. split; [|split].
    + rewrite forallb_app, Hs. unfold escapeCodePoint.
      now rewrite escape_uriSafe by now apply utf8EncodeCodePoint_bytes.
    + apply unescape_escape; [now apply utf8EncodeCodePoint_bytes|exact Hu].
    + rewrite (decodeOctets_encoded _ items r Hsc Hdd). now rewrite Hp.
Qed.

Lemma decodeURIComponent_encodeURIComponent s :
  wellPaired s -> wf_string s ->
  exists e,
    encodeURIComponent s = Ok e
    /\ forallb isUriSafe e = true
    /\ decodeURIComponent e = Ok s.
Proof.
  intros H1 H2. destruct (decode_encode s H1 H2) as [e [items [A [B [C D]]]]].
  exists e. repeat split; auto. unfold decodeURIComponent. now rewrite C.
Qed.

Lemma isUriSafe_ascii e :
  forallb isUriSafe e = true -> forallb isAscii e = true.
Proof.
  intros H. rewrite forallb_forall in *. intros x Hx.
  specialize (H x Hx). unfold_chars. lia.
Qed.

End URIFacts.

(* ----------------------------------------------------------------- *)
(** ** JSON.parse after JSON.stringify *)

Module JSONFacts.
Import JSON.

Lemma hexValue_hexLower n : 0 <= n < 16 -> hexValue (hexLower n) = Some n.
Proof.
  intros H. unfold hexValue, hexLower, inRange.
  repeat case_if; try (exfalso; lia); f_equal; lia.
Qed.

Lemma hex4Value_hex4 c :
  code_unit c ->
  match hex4 c with
  | [h1; h2; h3; h4] => hex4Value h1 h2 h3 h4 = Some c
  | _ => False
  end.
Proof.
  unfold code_unit. intros H. unfold hex4, hex4Value.
  rewrite (hexValue_hexLower ((c / 4096) mod 16)) by divmod.
  rewrite (hexValue_hexLower ((c / 256) mod 16)) by divmod.
  rewrite (hexValue_hexLower ((c / 16) mod 16)) by divmod.
  rewrite (hexValue_hexLower (c mod 16)) by divmod.
  cbn [obind]. f_equal. divmod.
Qed.

(** The parser reads back the code unit [quoteCodeUnit] wrote. *)
Lemma parseStringBody_quoteCodeUnit c tail :
  code_unit c ->
  parseStringBody (quoteCodeUnit c ++ tail)
  = (p <-? parseStringBody tail ;; Some (c :: fst p, snd p)).
Proof.
  intros Hc. unfold quoteCodeUnit.
  destruct (Z.eqb_spec c 8) as [->|N1]; [reflexivity|].
  destruct (Z.eqb_spec c 9) as [->|N2]; [reflexivity|].
  destruct (Z.eqb_spec c 10) as [->|N3]; [reflexivity|].
  destruct (Z.eqb_spec c 12) as [->|N4]; [reflexivity|].
  destruct (Z.eqb_spec c 13) as [->|N5]; [reflexivity|].
  destruct (Z.eqb_spec c QUOTE) as [->|N6]; [reflexivity|].
  destruct (Z.eqb_spec c BACKSLASH) as [->|N7]; [reflexivity|].
  destruct ((c <? 32) || isSurrogate c) eqn:E.
  - pose proof (hex4Value_hex4 c Hc) as Hh.
    unfold unicodeEscape. unfold hex4 in *.
    cbn [app parseStringBody].
    change (BACKSLASH =? QUOTE) with false.
    change (BACKSLASH =? BACKSLASH) with true.
    change (117 =? 117) with true. cbn iota.
    now rewrite Hh.
  - apply orb_false_iff in E as [E1 E2].
    cbn [app parseStringBody].
    assert (Q : (c =? QUOTE) = false) by (apply Z.eqb_neq; exact N6).
    assert (B : (c =? BACKSLASH) = false) by (apply Z.eqb_neq; exact N7).
    now rewrite Q, B, E1.
Qed.

Lemma parseStringBody_quoteBody s : forall rest,
  wf_string s ->
  parseStringBody (quoteBody s ++ QUOTE :: rest) = Some (s, rest).
Proof.
  remember (length s) as n eqn:Hn.
  assert (Hlen : (length s <= n)%nat) by lia. clear Hn.
  revert s Hlen. induction n as [|n IH]; intros s Hlen rest Hwf.
  - destruct s; [reflexivity|simpl in Hlen; lia].
  - destruct s as [|c r]; [reflexivity|]. cbn [length] in Hlen.
    inversion Hwf as [|? ? Hc Hr]; subst.
    assert (Step : parseStringBody (quoteCodeUnit c ++ quoteBody r
                                      ++ QUOTE :: rest)
                   = Some (c :: r, rest)).
    { rewrite parseStringBody_quoteCodeUnit by exact Hc.
      rewrite IH by (auto; lia). reflexivity. }
    cbn [quoteBody]. destruct (isLeadSurrogate c) eqn:El.
    + destruct r as [|d r'].
      * exact Step.
      * destruct (isTrailSurrogate d) eqn:Et.
        -- inversion Hr as [|? ? Hd Hr']; subst.
           cbn [app parseStringBody].
           assert (Q1 : (c =? QUOTE) = false)
             by (unfold QUOTE; unfold_ranges; lia).
           assert (B1 : (c =? BACKSLASH) = false)
             by (unfold BACKSLASH; unfold_ranges; lia).
           assert (L1 : (c <? 32) = false) by (unfold_ranges; lia).
           assert (Q2 : (d =? QUOTE) = false)
             by (unfold QUOTE; unfold_ranges; lia).
           assert (B2 : (d =? BACKSLASH) = false)
             by (unfold BACKSLASH; unfold_ranges; lia).
           assert (L2 : (d <? 32) = false) by (unfold_ranges; lia).
           rewrite Q1, B1, L1, Q2, B2, L2.
           rewrite IH by (auto; cbn [length] in Hlen; lia). reflexivity.
        -- rewrite <- app_assoc. exact Step.
    + rewrite <- app_assoc. exact Step.
Qed.

Lemma parseStringBody_quoteJSONString s rest :
  wf_string s ->
  match quoteJSONString s ++ rest with
  | q :: body => q = QUOTE /\ parseStringBody body = Some (s, rest)
  | [] => False
  end.
Proof.
  intros H. unfold quoteJSONString. cbn [app]. split; [reflexivity|].
  rewrite <- app_assoc. now apply parseStringBody_quoteBody.
Qed.

Lemma keyString_wf k : wf_string (keyString k).
Proof.
  destruct k; repeat constructor; unfold code_unit; cbn; lia.
Qed.

Lemma joinWith_map_cons {A} sep (f : A -> jsstring) x r :
  URLSearchParams.joinWith sep (map f (x :: r))
  = f x ++ flat_map (fun y => sep :: f y) r.
Proof.
  revert x. induction r as [|y r IH]; intros x.
  - cbn. now rewrite app_nil_r.
  - change (URLSearchParams.joinWith sep (map f (x :: y :: r)))
      with (f x ++ sep :: URLSearchParams.joinWith sep (map f (y :: r))).
    now rewrite IH.
Qed.

Lemma parseValue_string f v rest :
  wf_string v -> (1 <= f)%nat ->
  parseValue f (quoteJSONString v ++ rest) = Some (JStr v, rest).
Proof.
  intros Hv Hf. destruct f as [|f]; [lia|].
  pose proof (parseStringBody_quoteJSONString v rest Hv) as H.
  destruct (quoteJSONString v ++ rest) as [|q body]; [contradiction|].
  destruct H as [-> H]. cbn [parseValue skipWhiteSpace].
  change (isJSONWhiteSpace QUOTE) with false. cbn iota.
  rewrite Z.eqb_refl, H. reflexivity.
Qed.

Lemma stringifyProperty_length p : (5 <= length (stringifyProperty p))%nat.
Proof.
  unfold stringifyProperty, quoteJSONString.
  cbn [length]. rewrite !length_app. cbn [length]. rewrite !length_app.
  cbn [length]. lia.
Qed.

Lemma parseMember_property f p rest :
  wf_string (snd p) -> (2 <= f)%nat ->
  parseMember f (stringifyProperty p ++ rest) = Some (memberOf p, rest).
Proof.
  intros Hv Hf. destruct f as [|f]; [lia|].
  unfold stringifyProperty. rewrite <- app_assoc.
  pose proof (parseStringBody_quoteJSONString (keyString (fst p))
                ((58 :: quoteJSONString (snd p)) ++ rest)
                (keyString_wf _)) as H.
  destruct (quoteJSONString (keyString (fst p)) ++
            (58 :: quoteJSONString (snd p)) ++ rest) as [|q body];
    [contradiction|].
  destruct H as [-> H]. cbn [parseMember skipWhiteSpace].
  change (isJSONWhiteSpace QUOTE) with false. cbn iota.
  rewrite Z.eqb_refl, H. cbn [obind snd fst app skipWhiteSpace].
  change (isJSONWhiteSpace 58) with false. cbn iota.
  cbn [afterHead]. change (58 =? 58) with true. cbn iota. cbn [obind].
  rewrite parseValue_string by (first [assumption | lia]). reflexivity.
Qed.

Lemma parseMembers_tail ms : forall f rest,
  wf_entry ms -> (length (membersTail ms) + 1 <= f)%nat ->
  parseMembers f (membersTail ms ++ 125 :: rest)
  = Some (map memberOf ms, rest).
Proof.
  induction ms as [|p r IH]; intros f rest Hwf Hf.
  - destruct f as [|f]; [lia|]. reflexivity.
  - inversion Hwf as [|? ? Hp Hr]; subst. cbn beta in Hp.
    destruct f as [|f]; [cbn in Hf; lia|].
    pose proof (stringifyProperty_length p) as Hl.
    unfold membersTail in *. cbn [flat_map] in *.
    cbn [length] in Hf. rewrite ?length_app in Hf. cbn [length] in Hf.
    cbn [app parseMembers skipWhiteSpace].
    change (isJSONWhiteSpace 44) with false. cbn iota.
    change (44 =? 125) with false. change (44 =? 44) with true. cbn iota.
    rewrite <- app_assoc.
    rewrite parseMember_property by (first [assumption | lia]).
    cbn [obind snd fst]. rewrite IH by (first [assumption | lia]). reflexivity.
Qed.

Lemma parseValue_entry e f rest :
  wf_entry e -> (length (stringifyEntry e) <= f)%nat ->
  parseValue f (stringifyEntry e ++ rest) = Some (ofEntry e, rest).
Proof.
  intros Hwf Hf. unfold stringifyEntry in *.
  destruct f as [|f]; [cbn in Hf; lia|].
  destruct e as [|p r].
  - reflexivity.
  - inversion Hwf as [|? ? Hp Hr]; subst. cbn beta in Hp.
    rewrite joinWith_map_cons in *. fold (membersTail r) in *.
    pose proof (stringifyProperty_length p) as Hl.
    cbn [length] in Hf. rewrite !length_app in Hf. cbn [length] in Hf.
    cbn [app parseValue skipWhiteSpace].
    change (isJSONWhiteSpace 123) with false. cbn iota.
    change (123 =? QUOTE) with false. change (123 =? 91) with false.
    change (123 =? 123) with true. cbn iota.
    rewrite <- !app_assoc.
    assert (Hq : exists body,
               stringifyProperty p ++ membersTail r ++ [125] ++ rest
               = QUOTE :: body).
    { unfold stringifyProperty, quoteJSONString. cbn [app]. eauto. }
    destruct Hq as [body Hq].
    replace (skipWhiteSpace
               (stringifyProperty p ++ membersTail r ++ [125] ++ rest))
      with (QUOTE :: body) by (rewrite Hq; reflexivity).
    cbn [afterHead]. change (QUOTE =? 125) with false. cbn iota.
    rewrite parseMember_property by (first [assumption | lia]).
    cbn [obind snd fst app].
    rewrite parseMembers_tail by (first [assumption | lia]). reflexivity.
Qed.

Lemma stringifyEntry_length e : (2 <= length (stringifyEntry e))%nat.
Proof.
  unfold stringifyEntry. cbn [length]. rewrite length_app. cbn [length]. lia.
Qed.

Lemma parseElements_tail es : forall f rest,
  wf_axis es -> (length (elementsTail es) + 1 <= f)%nat ->
  parseElements f (elementsTail es ++ 93 :: rest)
  = Some (map ofEntry es, rest).
Proof.
  induction es as [|e r IH]; intros f rest Hwf Hf.
  - destruct f as [|f]; [lia|]. reflexivity.
  - inversion Hwf as [|? ? He Hr]; subst.
    destruct f as [|f]; [cbn in Hf; lia|].
    pose proof (stringifyEntry_length e) as Hl.
    unfold elementsTail in *. cbn [flat_map] in *.
    cbn [length] in Hf. rewrite ?length_app in Hf. cbn [length] in Hf.
    cbn [app parseElements skipWhiteSpace].
    change (isJSONWhiteSpace 44) with false. cbn iota.
    change (44 =? 93) with false. change (44 =? 44) with true. cbn iota.
    rewrite <- app_assoc.
    rewrite parseValue_entry by (first [assumption | lia]).
    cbn [obind snd fst]. rewrite IH by (first [assumption | lia]). reflexivity.
Qed.

Lemma parseValue_entries l f rest :
  wf_axis l -> (length (stringifyEntries l) <= f)%nat ->
  parseValue f (stringifyEntries l ++ rest) = Some (ofEntries l, rest).
Proof.
  intros Hwf Hf. unfold stringifyEntries in *.
  destruct f as [|f]; [cbn in Hf; lia|].
  destruct l as [|e r].
  - reflexivity.
  - inversion Hwf as [|? ? He Hr]; subst.
    rewrite joinWith_map_cons in *. fold (elementsTail r) in *.
    pose proof (stringifyEntry_length e) as Hl.
    cbn [length] in Hf. rewrite !length_app in Hf. cbn [length] in Hf.
    cbn [app parseValue skipWhiteSpace].
    change (isJSONWhiteSpace 91) with false. cbn iota.
    change (91 =? QUOTE) with false. change (91 =? 91) with true. cbn iota.
    rewrite <- !app_assoc.
    replace (skipWhiteSpace
               (stringifyEntry e ++ elementsTail r ++ [93] ++ rest))
      with (123 :: URLSearchParams.joinWith 44 (map stringifyProperty e)
                ++ [125] ++ elementsTail r ++ [93] ++ rest)
      by (unfold stringifyEntry; cbn [app]; now rewrite <- !app_assoc).
    cbn [afterHead]. change (123 =? 93) with false. cbn iota.
    rewrite parseValue_entry by (first [assumption | lia]).
    cbn [obind snd fst app].
    rewrite parseElements_tail by (first [assumption | lia]). reflexivity.
Qed.

(** [JSON.parse] of the text [JSON.stringify] gives for an array of
    entries is that array. *)
Lemma parse_stringifyEntries l :
  wf_axis l -> parse (stringifyEntries l) = Ok (ofEntries l).
Proof.
  intros H. unfold parse.
  rewrite <- (app_nil_r (stringifyEntries l)) at 2.
  rewrite parseValue_entries by (first [assumption | lia]). reflexivity.
Qed.

End JSONFacts.

(* ----------------------------------------------------------------- *)
(** ** The fuel of the JSON parser *)

Module JSONFuel.
Import JSON.

Lemma skipWhiteSpace_length s : (length (skipWhiteSpace s) <= length s)%nat.
Proof.
  induction s as [|c r IH]; [reflexivity|].
  cbn [skipWhiteSpace]. destruct (isJSONWhiteSpace c); cbn [length]; lia.
Qed.

Lemma parseStringBody_consumes s : forall x rest,
  parseStringBody s = Some (x, rest) -> (length rest < length s)%nat.
Proof.
  remember (length s) as n eqn:Hn.
  assert (Hlen : (length s <= n)%nat) by lia. clear Hn.
  revert s Hlen. induction n as [|n IH]; intros s Hlen x rest H.
  - destruct s; [discriminate|simpl in Hlen; lia].
  - destruct s as [|c r]; [discriminate|]. cbn [length] in *.
    cbn [parseStringBody] in H.
    destruct (c =? QUOTE); [injection H as _ <-; lia|].
    destruct (c =? BACKSLASH).
    + destruct r as [|e r']; [discriminate|]. cbn [length] in *.
      destruct (e =? 117).
      * destruct r' as [|h1 [|h2 [|h3 [|h4 r'']]]]; try discriminate.
        cbn [length] in *.
        destruct (hex4Value h1 h2 h3 h4); [|discriminate]. cbn [obind] in H.
        destruct (parseStringBody r'') as [[y t]|] eqn:E; [|discriminate].
        cbn [obind fst snd] in H. injection H as _ <-.
        apply IH in E; lia.
      * destruct (simpleEscape e); [|discriminate]. cbn [obind] in H.
        destruct (parseStringBody r') as [[y t]|] eqn:E; [|discriminate].
        cbn [obind fst snd] in H. injection H as _ <-.
        apply IH in E; lia.
    + destruct (c <? 32); [discriminate|].
      destruct (parseStringBody r) as [[y t]|] eqn:E; [|discriminate].
      cbn [obind fst snd] in H. injection H as _ <-.
      apply IH in E; lia.
Qed.

Lemma spanDigits_length s :
  (length (snd (spanDigits s)) <= length s)%nat.
Proof.
  induction s as [|c r IH]; [reflexivity|].
  cbn [spanDigits]. destruct (isDigit c); [|reflexivity].
  destruct (spanDigits r) as [d rest]. cbn [snd length] in *. lia.
Qed.

Lemma parseInt_consumes s p :
  parseInt s = Some p -> (length (snd p) < length s)%nat.
Proof.
  destruct s as [|c r]; [discriminate|]. cbn [parseInt].
  destruct (c =? 48); [intros [= <-]; cbn; lia|].
  destruct (isDigit c) eqn:E; [|discriminate]. intros [= <-].
  cbn [spanDigits]. rewrite E. pose proof (spanDigits_length r).
  destruct (spanDigits r). cbn [snd length] in *. lia.
Qed.

Lemma afterHead_length c s r :
  afterHead c s = Some r -> length s = S (length r).
Proof.
  destruct s as [|x t]; [discriminate|]. cbn [afterHead].
  destruct (x =? c); [|discriminate]. now intros [= ->].
Qed.

Lemma parseFraction_length s p :
  parseFraction s = Some p -> (length (snd p) <= length s)%nat.
Proof.
  unfold parseFraction. destruct (afterHead 46 s) as [r|] eqn:E.
  - apply afterHead_length in E. pose proof (spanDigits_length r).
    destruct (spanDigits r) as [d rest]. destruct (isEmpty d); [discriminate|].
    intros [= <-]. cbn [snd] in *. lia.
  - intros [= <-]. cbn. lia.
Qed.

Lemma parseExponent_length s p :
  parseExponent s = Some p -> (length (snd p) <= length s)%nat.
Proof.
  unfold parseExponent. destruct s as [|c r]; [intros [= <-]; cbn; lia|].
  destruct ((c =? 101) || (c =? 69)); [|intros [= <-]; cbn; lia].
  assert (H : forall sign r', (length r' <= length r)%nat ->
              (let (d, rest) := spanDigits r' in
               if isEmpty d then None else Some (c :: sign ++ d, rest))
              = Some p -> (length (snd p) <= length (c :: r))%nat).
  { intros sign r' Hr'. pose proof (spanDigits_length r').
    destruct (spanDigits r') as [d t]. destruct (isEmpty d); [discriminate|].
    intros [= <-]. cbn [snd length] in *. lia. }
  destruct r as [|x r1]; [apply H; lia|].
  destruct ((x =? 43) || (x =? 45)); apply H; cbn [length]; lia.
Qed.

Lemma parseNumber_consumes s p :
  parseNumber s = Some p -> (length (snd p) < length s)%nat.
Proof.
  unfold parseNumber.
  assert (H : forall minus s1, (length s1 <= length s)%nat ->
              (i <-? parseInt s1 ;; f <-? parseFraction (snd i) ;;
               e <-? parseExponent (snd f) ;;
               Some (minus ++ fst i ++ fst f ++ fst e, snd e)) = Some p ->
              (length (snd p) < length s)%nat).
  { intros minus s1 Hs1 E.
    destruct (parseInt s1) as [i|] eqn:Ei; [|discriminate].
    cbn [obind] in E.
    destruct (parseFraction (snd i)) as [f|] eqn:Ef; [|discriminate].
    cbn [obind] in E.
    destruct (parseExponent (snd f)) as [e|] eqn:Ee; [|discriminate].
    cbn [obind] in E. injection E as <-. cbn [snd].
    apply parseInt_consumes in Ei. apply parseFraction_length in Ef.
    apply parseExponent_length in Ee. lia. }
  destruct (afterHead 45 s) as [r|] eqn:E.
  - apply afterHead_length in E. apply H. lia.
  - apply H. lia.
Qed.

Lemma stripPrefix_length p : forall s rest,
  stripPrefix p s = Some rest -> (length rest <= length s)%nat.
Proof.
  induction p as [|a p IH]; intros s rest H.
  - cbn in H. injection H as <-. lia.
  - destruct s as [|b s']; [discriminate|]. cbn [stripPrefix] in H.
    destruct (a =? b); [|discriminate]. apply IH in H. cbn [length]. lia.
Qed.

(** A successful call leaves less text than it was given. *)
Lemma parse_consumes f :
  (forall s v rest, parseValue f s = Some (v, rest) ->
                    (length rest < length s)%nat)
  /\ (forall s vs rest, parseElements f s = Some (vs, rest) ->
                        (length rest < length s)%nat)
  /\ (forall s m rest, parseMember f s = Some (m, rest) ->
                       (length rest < length s)%nat)
  /\ (forall s ms rest, parseMembers f s = Some (ms, rest) ->
                        (length rest < length s)%nat).
Proof.
  induction f as [|f [IHv [IHe [IHm IHms]]]].
  { repeat split; intros; discriminate. }
  split; [|split; [|split]].
  - intros s v rest H. cbn [parseValue] in H.
    pose proof (skipWhiteSpace_length s) as Hw.
    destruct (skipWhiteSpace s) as [|c r]; [discriminate|].
    cbn [length] in Hw.
    destruct (c =? QUOTE).
    { destruct (parseStringBody r) as [[x t]|] eqn:E; [|discriminate].
      cbn [obind fst snd] in H. injection H as _ <-.
      apply parseStringBody_consumes in E. lia. }
    destruct (c =? 91).
    { pose proof (skipWhiteSpace_length r) as Hw'.
      destruct (afterHead 93 (skipWhiteSpace r)) as [r'|] eqn:Ea.
      - apply afterHead_length in Ea. injection H as _ <-. lia.
      - destruct (parseValue f r) as [[v0 t]|] eqn:E; [|discriminate].
        cbn [obind fst snd] in H.
        destruct (parseElements f t) as [[vs t']|] eqn:E'; [|discriminate].
        cbn [obind fst snd] in H. injection H as _ <-.
        apply IHv in E. apply IHe in E'. lia. }
    destruct (c =? 123).
    { pose proof (skipWhiteSpace_length r) as Hw'.
      destruct (afterHead 125 (skipWhiteSpace r)) as [r'|] eqn:Ea.
      - apply afterHead_length in Ea. injection H as _ <-. lia.
      - destruct (parseMember f r) as [[m0 t]|] eqn:E; [|discriminate].
        cbn [obind fst snd] in H.
        destruct (parseMembers f t) as [[ms t']|] eqn:E'; [|discriminate].
        cbn [obind fst snd] in H. injection H as _ <-.
        apply IHm in E. apply IHms in E'. lia. }
    destruct (c =? 116).
    { destruct (stripPrefix (lit "rue"%string) r) as [t|] eqn:E;
        [|discriminate].
      cbn [obind] in H. injection H as _ <-.
      apply stripPrefix_length in E. lia. }
    destruct (c =? 102).
    { destruct (stripPrefix (lit "alse"%string) r) as [t|] eqn:E;
        [|discriminate].
      cbn [obind] in H. injection H as _ <-.
      apply stripPrefix_length in E. lia. }
    destruct (c =? 110).
    { destruct (stripPrefix (lit "ull"%string) r) as [t|] eqn:E;
        [|discriminate].
      cbn [obind] in H. injection H as _ <-.
      apply stripPrefix_length in E. lia. }
    destruct (parseNumber (c :: r)) as [n|] eqn:E; [|discriminate].
    cbn [obind] in H. injection H as _ <-.
    apply parseNumber_consumes in E. cbn [length] in E. lia.
  - intros s vs rest H. cbn [parseElements] in H.
    pose proof (skipWhiteSpace_length s) as Hw.
    destruct (skipWhiteSpace s) as [|c r]; [discriminate|].
    cbn [length] in Hw.
    destruct (c =? 93); [injection H as _ <-; lia|].
    destruct (c =? 44); [|discriminate].
    destruct (parseValue f r) as [[v0 t]|] eqn:E; [|discriminate].
    cbn [obind fst snd] in H.
    destruct (parseElements f t) as [[vs' t']|] eqn:E'; [|discriminate].
    cbn [obind fst snd] in H. injection H as _ <-.
    apply IHv in E. apply IHe in E'. lia.
  - intros s m rest H. cbn [parseMember] in H.
    pose proof (skipWhiteSpace_length s) as Hw.
    destruct (skipWhiteSpace s) as [|c r]; [discriminate|].
    cbn [length] in Hw.
    destruct (c =? QUOTE); [|discriminate].
    destruct (parseStringBody r) as [[k t]|] eqn:E; [|discriminate].
    cbn [obind fst snd] in H.
    pose proof (skipWhiteSpace_length t) as Hw'.
    destruct (afterHead 58 (skipWhiteSpace t)) as [r'|] eqn:Ea;
      [|discriminate].
    cbn [obind] in H.
    destruct (parseValue f r') as [[v0 t']|] eqn:E'; [|discriminate].
    cbn [obind fst snd] in H. injection H as _ <-.
    apply parseStringBody_consumes in E. apply afterHead_length in Ea.
    apply IHv in E'. lia.
  - intros s ms rest H. cbn [parseMembers] in H.
    pose proof (skipWhiteSpace_length s) as Hw.
    destruct (skipWhiteSpace s) as [|c r]; [discriminate|].
    cbn [length] in Hw.
    destruct (c =? 125); [injection H as _ <-; lia|].
    destruct (c =? 44); [|discriminate].
    destruct (parseMember f r) as [[m0 t]|] eqn:E; [|discriminate].
    cbn [obind fst snd] in H.
    destruct (parseMembers f t) as [[ms' t']|] eqn:E'; [|discriminate].
    cbn [obind fst snd] in H. injection H as _ <-.
    apply IHm in E. apply IHms in E'. lia.
Qed.

(** Fuel above the length of the text never runs out: the result does
    not depend on it. *)
Lemma parse_fuel_irrelevant n : forall s,
  (length s <= n)%nat ->
  forall f1 f2, (length s < f1)%nat -> (length s < f2)%nat ->
  parseValue f1 s = parseValue f2 s
  /\ parseElements f1 s = parseElements f2 s
  /\ parseMember f1 s = parseMember f2 s
  /\ parseMembers f1 s = parseMembers f2 s.
Proof.
  induction n as [|n IH]; intros s Hn f1 f2 H1 H2;
    destruct f1 as [|g1]; try lia; destruct f2 as [|g2]; try lia.
  { destruct s; [|cbn in Hn; lia]. repeat split. }
  assert (A : forall t, (length t < length s)%nat ->
              parseValue g1 t = parseValue g2 t
              /\ parseElements g1 t = parseElements g2 t
              /\ parseMember g1 t = parseMember g2 t
              /\ parseMembers g1 t = parseMembers g2 t).
  { intros t Ht. apply IH; lia. }
  destruct (parse_consumes g2) as [Cv [Ce [Cm Cms]]].
  pose proof (skipWhiteSpace_length s) as Hw.
  split; [|split; [|split]].
  - cbn [parseValue]. destruct (skipWhiteSpace s) as [|c r]; [reflexivity|].
    cbn [length] in Hw. pose proof (skipWhiteSpace_length r) as Hw'.
    destruct (c =? QUOTE); [reflexivity|].
    destruct (c =? 91).
    { destruct (afterHead 93 (skipWhiteSpace r)); [reflexivity|].
      rewrite (proj1 (A r ltac:(lia))).
      destruct (parseValue g2 r) as [[v t]|] eqn:E; [|reflexivity].
      cbn [obind fst snd]. apply Cv in E.
      now rewrite (proj1 (proj2 (A t ltac:(lia)))). }
    destruct (c =? 123).
    { destruct (afterHead 125 (skipWhiteSpace r)); [reflexivity|].
      rewrite (proj1 (proj2 (proj2 (A r ltac:(lia))))).
      destruct (parseMember g2 r) as [[m t]|] eqn:E; [|reflexivity].
      cbn [obind fst snd]. apply Cm in E.
      now rewrite (proj2 (proj2 (proj2 (A t ltac:(lia))))). }
    reflexivity.
  - cbn [parseElements]. destruct (skipWhiteSpace s) as [|c r]; [reflexivity|].
    cbn [length] in Hw.
    destruct (c =? 93); [reflexivity|]. destruct (c =? 44); [|reflexivity].
    rewrite (proj1 (A r ltac:(lia))).
    destruct (parseValue g2 r) as [[v t]|] eqn:E; [|reflexivity].
    cbn [obind fst snd]. apply Cv in E.
    now rewrite (proj1 (proj2 (A t ltac:(lia)))).
  - cbn [parseMember]. destruct (skipWhiteSpace s) as [|c r]; [reflexivity|].
    cbn [length] in Hw.
    destruct (c =? QUOTE); [|reflexivity].
    destruct (parseStringBody r) as [[k t]|] eqn:E; [|reflexivity].
    cbn [obind fst snd]. apply parseStringBody_consumes in E.
    pose proof (skipWhiteSpace_length t) as Hw'.
    destruct (afterHead 58 (skipWhiteSpace t)) as [r'|] eqn:Ea;
      [|reflexivity].
    cbn [obind]. apply afterHead_length in Ea.
    now rewrite (proj1 (A r' ltac:(lia))).
  - cbn [parseMembers]. destruct (skipWhiteSpace s) as [|c r]; [reflexivity|].
    cbn [length] in Hw.
    destruct (c =? 125); [reflexivity|]. destruct (c =? 44); [|reflexivity].
    rewrite (proj1 (proj2 (proj2 (A r ltac:(lia))))).
    destruct (parseMember g2 r) as [[m t]|] eqn:E; [|reflexivity].
    cbn [obind fst snd]. apply Cm in E.
    now rewrite (proj2 (proj2 (proj2 (A t ltac:(lia))))).
Qed.

(** [JSON.parse] with any fuel above the length of the text. *)
Lemma parse_any_fuel text f :
  (length text < f)%nat ->
  parseValue f text = parseValue (S (length text)) text.
Proof.
  intros H. apply (parse_fuel_irrelevant (length text)); lia.
Qed.

End JSONFuel.

Module StringifyFacts.
Import JSON.

Lemma wf_app a b : wf_string a -> wf_string b -> wf_string (a ++ b).
Proof. unfold wf_string. intros. now apply Forall_app. Qed.

Lemma wf_ascii s : forallb isAscii s = true -> wf_string s.
Proof.
  intros H. apply Forall_forall. intros x Hx.
  rewrite forallb_forall in H. specialize (H x Hx).
  unfold code_unit. unfold_ranges. lia.
Qed.

Lemma quoteCodeUnit_wf c : code_unit c -> wf_string (quoteCodeUnit c).
Proof.
  intros Hc. unfold quoteCodeUnit, unicodeEscape, hex4.
  repeat case_if; try (apply wf_ascii; reflexivity).
  - pose proof (hexLower_range ((c / 4096) mod 16) ltac:(divmod)).
    pose proof (hexLower_range ((c / 256) mod 16) ltac:(divmod)).
    pose proof (hexLower_range ((c / 16) mod 16) ltac:(divmod)).
    pose proof (hexLower_range (c mod 16) ltac:(divmod)).
    repeat constructor; unfold code_unit, BACKSLASH; lia.
  - constructor; [exact Hc|constructor].
Qed.

Lemma quoteBody_wf s : wf_string s -> wf_string (quoteBody s).
Proof.
  remember (length s) as n eqn:Hn.
  assert (Hlen : (length s <= n)%nat) by lia. clear Hn.
  revert s Hlen. induction n as [|n IH]; intros s Hlen Hwf.
  - destruct s; [constructor|simpl in Hlen; lia].
  - destruct s as [|c r]; [constructor|]. cbn [length] in Hlen.
    inversion Hwf as [|? ? Hc Hr]; subst.
    cbn [quoteBody]. destruct (isLeadSurrogate c).
    + destruct r as [|d r']; [now apply quoteCodeUnit_wf|].
      destruct (isTrailSurrogate d).
      * inversion Hr as [|? ? Hd Hr']; subst.
        constructor; [exact Hc|]. constructor; [exact Hd|].
        apply IH; [cbn [length] in Hlen; lia|exact Hr'].
      * apply wf_app; [now apply quoteCodeUnit_wf|]. apply IH; [lia|exact Hr].
    + apply wf_app; [now apply quoteCodeUnit_wf|]. apply IH; [lia|exact Hr].
Qed.

Lemma quoteJSONString_wf s : wf_string s -> wf_string (quoteJSONString s).
Proof.
  intros H. unfold quoteJSONString.
  constructor; [unfold code_unit, QUOTE; lia|].
  apply wf_app; [now apply quoteBody_wf|].
  repeat constructor; unfold code_unit, QUOTE; lia.
Qed.

Lemma joinWith_wf sep pieces :
  code_unit sep -> Forall wf_string pieces ->
  wf_string (URLSearchParams.joinWith sep pieces).
Proof.
  intros Hs HF. induction HF as [|x r Hx Hr IH]; [constructor|].
  destruct r as [|y r']; [exact Hx|].
  change (URLSearchParams.joinWith sep (x :: y :: r'))
    with (x ++ sep :: URLSearchParams.joinWith sep (y :: r')).
  apply wf_app; [exact Hx|]. now constructor.
Qed.

Lemma stringifyEntry_wf e : wf_entry e -> wf_string (stringifyEntry e).
Proof.
  intros H. unfold stringifyEntry.
  constructor; [unfold code_unit; lia|].
  apply wf_app; [|repeat constructor; unfold code_unit; lia].
  apply joinWith_wf; [unfold code_unit; lia|].
  apply Forall_forall. intros s Hs. apply in_map_iff in Hs as [p [<- Hp]].
  unfold wf_entry in H. rewrite Forall_forall in H. specialize (H p Hp).
  unfold stringifyProperty.
  apply wf_app; [apply quoteJSONString_wf, JSONFacts.keyString_wf|].
  constructor; [unfold code_unit; lia|]. now apply quoteJSONString_wf.
Qed.

Lemma stringifyEntries_wf l : wf_axis l -> wf_string (stringifyEntries l).
Proof.
  intros H. unfold stringifyEntries.
  constructor; [unfold code_unit; lia|].
  apply wf_app; [|repeat constructor; unfold code_unit; lia].
  apply joinWith_wf; [unfold code_unit; lia|].
  apply Forall_forall. intros s Hs. apply in_map_iff in Hs as [e [<- He]].
  unfold wf_axis in H. rewrite Forall_forall in H.
  now apply stringifyEntry_wf, H.
Qed.

(** The whole chain on one axis: text, escapes, and back. *)
Lemma axis_roundtrip l :
  wf_axis l ->
  exists e,
    encodeURIComponent (stringifyEntries l) = Ok e
    /\ forallb isAscii e = true
    /\ (text <- decodeURIComponent e ;; parse text) = Ok (ofEntries l).
Proof.
  intros H.
  destruct (URIFacts.decodeURIComponent_encodeURIComponent
              (stringifyEntries l) (stringifyEntries_wellPaired l)
              (stringifyEntries_wf l H)) as [e [He [Hs Hd]]].
  exists e. split; [exact He|]. split; [now apply URIFacts.isUriSafe_ascii|].
  rewrite Hd. cbn [bind]. now apply JSONFacts.parse_stringifyEntries.
Qed.

Lemma stringifyEntries_injective a b :
  wf_axis a -> wf_axis b ->
  stringifyEntries a = stringifyEntries b -> a = b.
Proof.
  intros Ha Hb E.
  pose proof (JSONFacts.parse_stringifyEntries a Ha) as Pa.
  pose proof (JSONFacts.parse_stringifyEntries b Hb) as Pb.
  assert (M : map ofEntry a = map ofEntry b)
    by (unfold ofEntries in *; congruence).
  clear -M. revert b M.
  induction a as [|x a IH]; intros [|y b] M; try discriminate;
    [reflexivity|].
  cbn [map] in M. injection M as Exy Eab. f_equal; [|now apply IH].
  assert (N : map memberOf x = map memberOf y)
    by (first [exact Exy
              | unfold ofEntry in Exy; injection Exy as Exy; exact Exy]).
  clear -N. revert y N.
  induction x as [|[k v] x IH]; intros [|[k' v'] y] N;
    try discriminate; [reflexivity|].
  cbn [map] in N. unfold memberOf at 1 3 in N. cbn [fst snd] in N.
  injection N as Ek Ev Er.
  f_equal; [|now apply IH].
  f_equal; [|exact Ev]. destruct k, k'; try reflexivity; discriminate.
Qed.

End StringifyFacts.

(* ----------------------------------------------------------------- *)
(** ** setQueryParams and the address it installs *)

Module PageFacts.
Import URLSearchParams ParamsOps.

Lemma xName_ascii : forallb isAscii xAxisDataName = true.
Proof. reflexivity. Qed.

Lemma yName_ascii : forallb isAscii yAxisDataName = true.
Proof. reflexivity. Qed.

Lemma names_differ : toUSV xAxisDataName <> toUSV yAxisDataName.
Proof. discriminate. Qed.

Lemma get_set_same name v l :
  forallb isAscii v = true -> get name (set name v l) = Some v.
Proof.
  intros Hv. unfold get, set. rewrite getUSV_setUSV_same. cbn [option_map].
  now rewrite toUSV_ascii, ofUSV_ascii.
Qed.

Lemma get_set_other name name' v l :
  toUSV name <> toUSV name' -> get name' (set name v l) = get name' l.
Proof. intros H. unfold get, set. now rewrite getUSV_setUSV_other. Qed.

Lemma get_delete_same name l : get name (delete name l) = None.
Proof. unfold get, delete. now rewrite getUSV_deleteUSV_same. Qed.

Lemma get_delete_other name name' l :
  toUSV name <> toUSV name' -> get name' (delete name l) = get name' l.
Proof. intros H. unfold get, delete. now rewrite getUSV_deleteUSV_other. Qed.

Lemma has_get name l :
  has name l = match get name l with Some _ => true | None => false end.
Proof.
  rewrite has_getUSV. unfold get. now destruct (getUSV (toUSV name) l).
Qed.

(** The two outcomes of [updateParams]. *)
Lemma updateParams_cases x y ps :
  exists ex,
    encodeURIComponent (JSON.stringifyEntries x) = Ok ex
    /\ ((JSON.stringifyEntries x = JSON.stringifyEntries y
         /\ updateParams x y ps
            = Ok (delete yAxisDataName (set xAxisDataName ex ps)))
        \/ (JSON.stringifyEntries x <> JSON.stringifyEntries y
            /\ exists ey,
                 encodeURIComponent (JSON.stringifyEntries y) = Ok ey
                 /\ updateParams x y ps
                    = Ok (set yAxisDataName ey (set xAxisDataName ex ps)))).
Proof.
  destruct (encodeURIComponent_stringifyEntries x) as [ex Hx].
  destruct (encodeURIComponent_stringifyEntries y) as [ey Hy].
  exists ex. split; [exact Hx|].
  unfold updateParams. rewrite Hx. cbn [bind].
  destruct (jseqb (JSON.stringifyEntries x) (JSON.stringifyEntries y)) eqn:E.
  - left. apply jseqb_eq in E. split; [exact E|reflexivity].
  - right. apply jseqb_neq in E. split; [exact E|].
    exists ey. split; [exact Hy|]. cbn [negb]. now rewrite Hy.
Qed.

Lemma updateParams_scalar x y ps ps' :
  forallb scalarPair ps = true ->
  updateParams x y ps = Ok ps' -> forallb scalarPair ps' = true.
Proof.
  intros Hs H.
  destruct (updateParams_cases x y ps)
    as [ex [_ [[_ E]|[_ [ey [_ E]]]]]]; rewrite E in H; injection H as <-.
  - now apply delete_scalar, set_scalar.
  - now apply set_scalar, set_scalar.
Qed.

(** With a non-empty X axis [setQueryParams] returns, and the address
    it installs reads back as the parameters it computed. *)
Lemma setQueryParams_installs x y p :
  x <> [] ->
  exists ps',
    updateParams x y (ofString (search p)) = Ok ps'
    /\ setQueryParams (Some x) y p = Ok (pushState (toString ps') p)
    /\ ofString (search (pushState (toString ps') p)) = ps'.
Proof.
  intros Hx. destruct x as [|x0 xr]; [congruence|].
  destruct (updateParams_cases (x0 :: xr) y (ofString (search p)))
    as [ex [_ Hc]].
  assert (Hex : exists ps', updateParams (x0 :: xr) y (ofString (search p))
                            = Ok ps').
  { destruct Hc as [[_ E]|[_ [ey [_ E]]]]; eauto. }
  destruct Hex as [ps' Hps]. exists ps'. split; [exact Hps|].
  split.
  - unfold setQueryParams. now rewrite Hps.
  - cbn [pushState search]. apply ofString_pushed.
    eapply updateParams_scalar; [apply ofString_scalar|exact Hps].
Qed.

Lemma otherParams_updateParams x y ps ps' :
  updateParams x y ps = Ok ps' -> otherParams ps' = otherParams ps.
Proof.
  intros H.
  destruct (updateParams_cases x y ps)
    as [ex [_ [[_ E]|[_ [ey [_ E]]]]]]; rewrite E in H; injection H as <-.
  - now rewrite otherParams_delete_y, otherParams_set_x.
  - now rewrite otherParams_set_y, otherParams_set_x.
Qed.

(** Only an ASCII string is converted to a given ASCII scalar value
    string. *)
Lemma toUSV_ascii_inv name : forall s,
  forallb isAscii s = true -> toUSV name = s -> name = s.
Proof.
  unfold toUSV.
  remember (length name) as n eqn:Hn.
  assert (Hlen : (length name <= n)%nat) by lia. clear Hn.
  revert name Hlen. induction n as [|n IH]; intros name Hlen s Hs E.
  - destruct name; [now destruct s|simpl in Hlen; lia].
  - destruct name as [|c r]; [now destruct s|]. cbn [length] in Hlen.
    cbn [stringToCodePoints] in E.
    assert (Step : forall cp r',
               (length r' <= n)%nat ->
               map (fun cp => if isScalar cp then cp else REPLACEMENT)
                   (cp :: stringToCodePoints r') = s ->
               (isScalar cp = true /\ isAscii cp = true)
               /\ exists s', s = cp :: s' /\ r' = s').
    { intros cp r' Hr' E'. destruct s as [|a s']; [discriminate|].
      cbn [map] in E'. injection E' as Ea Es.
      cbn [forallb] in Hs. apply andb_true_iff in Hs as [Ha Hs'].
      assert (Hcp : isScalar cp = true /\ a = cp).
      { destruct (isScalar cp) eqn:Ec; [now split|].
        subst a. discriminate. }
      destruct Hcp as [Hsc ->]. split; [now split|].
      exists s'. split; [reflexivity|]. now apply IH. }
    destruct (isLeadSurrogate c) eqn:El.
    + destruct r as [|d r'].
      * destruct (Step c [] ltac:(cbn; lia) E) as [[_ Ha] _].
        exfalso. unfold_ranges. lia.
      * destruct (isTrailSurrogate d) eqn:Et.
        -- destruct (Step _ r' ltac:(cbn [length] in Hlen; lia) E)
             as [[_ Ha] _].
           exfalso. unfold pairToCodePoint in Ha. unfold_ranges. lia.
        -- destruct (Step c (d :: r') ltac:(lia) E) as [[_ Ha] _].
           exfalso. unfold_ranges. lia.
    + destruct (Step c r ltac:(lia) E) as [_ [s' [-> ->]]]. reflexivity.
Qed.

Lemma toUSV_name_neq name ascii :
  forallb isAscii ascii = true -> name <> ascii ->
  toUSV name <> toUSV ascii.
Proof.
  intros Ha Hn E. rewrite (toUSV_ascii ascii Ha) in E.
  apply Hn. now apply toUSV_ascii_inv.
Qed.

Lemma filter_filter_implied {A} (f g : A -> bool) l :
  (forall a, f a = true -> g a = true) ->
  filter f (filter g l) = filter f l.
Proof.
  intros H. induction l as [|a r IH]; [reflexivity|].
  cbn [filter]. destruct (g a) eqn:Eg; cbn [filter].
  - now rewrite IH.
  - destruct (f a) eqn:Ef; [|exact IH].
    rewrite (H a Ef) in Eg. discriminate.
Qed.

Lemma getUSV_filter k l :
  getUSV k l = match filter (fun p => usv_eqb (fst p) k) l with
               | [] => None
               | p :: _ => Some (snd p)
               end.
Proof.
  induction l as [|[n v] r IH]; [reflexivity|].
  cbn [getUSV filter fst]. destruct (usv_eqb n k); [reflexivity|exact IH].
Qed.

(** The pairs under a name that is not one of the two are all in
    [otherParams]. *)
Lemma filter_name_otherParams name l :
  name <> xAxisDataName -> name <> yAxisDataName ->
  filter (fun p => usv_eqb (fst p) (toUSV name)) (otherParams l)
  = filter (fun p => usv_eqb (fst p) (toUSV name)) l.
Proof.
  intros Hx Hy. unfold otherParams. apply filter_filter_implied.
  intros [n v] E. cbn [fst] in *. apply usv_eqb_eq in E. subst n.
  apply andb_true_iff. split; apply negb_true_iff, jseqb_neq;
    apply toUSV_name_neq; auto using xName_ascii, yName_ascii.
Qed.

Lemma otherParams_getAll name l l' :
  name <> xAxisDataName -> name <> yAxisDataName ->
  otherParams l' = otherParams l ->
  getAll name l' = getAll name l /\ get name l' = get name l.
Proof.
  intros Hx Hy E. unfold getAll, get. rewrite !getUSV_filter.
  rewrite <- (filter_name_otherParams name l Hx Hy).
  rewrite <- (filter_name_otherParams name l' Hx Hy).
  now rewrite E.
Qed.

End PageFacts.

Lemma wf_axisb_ok l : wf_axisb l = true -> wf_axis l.
Proof.
  unfold wf_axisb, wf_axis, wf_entry, wf_string. intros H.
  rewrite forallb_forall in H. apply Forall_forall. intros e He.
  specialize (H e He). rewrite forallb_forall in H.
  apply Forall_forall. intros q Hq. specialize (H q Hq).
  rewrite forallb_forall in H. apply Forall_forall. intros c Hc.
  specialize (H c Hc). unfold code_unitb in H. unfold code_unit. lia.
Qed.

(* ----------------------------------------------------------------- *)
(** ** The query string and the axes *)

Module Codec.
Import URLSearchParams ParamsOps PageFacts.

(** What [setQueryParams] leaves under the two names. *)
Lemma setQueryParams_params (x y : list ColorEntry) (p : Page) :
  x <> [] -> wf_axis x -> wf_axis y ->
  exists p' ex,
    setQueryParams (Some x) y p = Ok p'
    /\ encodeURIComponent (JSON.stringifyEntries x) = Ok ex
    /\ forallb isAscii ex = true
    /\ get xAxisDataName (ofString (search p')) = Some ex
    /\ (JSON.stringifyEntries y <> JSON.stringifyEntries x ->
        exists ey,
          encodeURIComponent (JSON.stringifyEntries y) = Ok ey
          /\ forallb isAscii ey = true
          /\ get yAxisDataName (ofString (search p')) = Some ey)
    /\ (JSON.stringifyEntries y = JSON.stringifyEntries x ->
        get yAxisDataName (ofString (search p')) = None).
Proof.
  intros Hne Hx Hy.
  destruct (setQueryParams_installs x y p Hne) as [ps' [Hu [Hs Hr]]].
  destruct (StringifyFacts.axis_roundtrip x Hx) as [ex' [Hex [Hax _]]].
  destruct (StringifyFacts.axis_roundtrip y Hy) as [ey' [Hey [Hay _]]].
  exists (pushState (toString ps') p), ex'.
  split; [exact Hs|]. split; [exact Hex|]. split; [exact Hax|].
  rewrite Hr.
  destruct (updateParams_cases x y (ofString (search p)))
    as [ex [Hex2 [[E1 E2]|[E1 [ey [Hey2 E2]]]]]];
    rewrite Hex in Hex2; injection Hex2 as <-;
    rewrite E2 in Hu; injection Hu as <-.
  - split; [|split].
    + rewrite get_delete_other by (intros E; now apply names_differ).
      now apply get_set_same.
    + intros N. congruence.
    + intros _. apply get_delete_same.
  - rewrite Hey in Hey2. injection Hey2 as <-. split; [|split].
    + rewrite get_set_other by (intros E; now apply names_differ).
      now apply get_set_same.
    + intros _. exists ey'. split; [exact Hey|]. split; [exact Hay|].
      now apply get_set_same.
    + intros N. congruence.
Qed.

(** C2.  With a non-empty X axis, [setQueryParams] stores under
    [xAxisData] the percent-encoded JSON text of [x]; it stores under
    [yAxisData] the percent-encoded JSON text of [y] when the JSON text
    of [y] differs from that of [x], and leaves no [yAxisData]
    parameter when the two texts are the same, whatever the address
    held before.  So with [{color:"#fff"}] on both axes the query
    string has no [yAxisData]. *)
Theorem setQueryParams_axis_compaction
  (x y : list ColorEntry) (p : Page) :
  x <> [] -> wf_axis x -> wf_axis y ->
  (exists p' ex,
     setQueryParams (Some x) y p = Ok p'
     /\ encodeURIComponent (JSON.stringifyEntries x) = Ok ex
     /\ get xAxisDataName (ofString (search p')) = Some ex
     /\ (has yAxisDataName (ofString (search p')) = true
         <-> JSON.stringifyEntries y <> JSON.stringifyEntries x)
     /\ (JSON.stringifyEntries y <> JSON.stringifyEntries x ->
         exists ey,
           encodeURIComponent (JSON.stringifyEntries y) = Ok ey
           /\ get yAxisDataName (ofString (search p')) = Some ey)
     /\ (JSON.stringifyEntries y = JSON.stringifyEntries x ->
         has yAxisDataName (ofString (search p')) = false))
  /\ (forall q, exists q',
        setQueryParams (Some [Samples.white]) [Samples.white] q = Ok q'
        /\ has yAxisDataName (ofString (search q')) = false).
Proof.
  intros Hne Hx Hy. split.
  - destruct (setQueryParams_params x y p Hne Hx Hy)
      as [p' [ex [H1 [H2 [_ [H3 [H4 H5]]]]]]].
    exists p', ex. split; [exact H1|]. split; [exact H2|].
    split; [exact H3|]. rewrite has_get. split; [|split].
    + destruct (list_eq_dec Z.eq_dec (JSON.stringifyEntries y)
                  (JSON.stringifyEntries x)) as [E|N].
      * rewrite (H5 E). split; [discriminate|congruence].
      * destruct (H4 N) as [ey [_ [_ ->]]]. split; auto.
    + intros N. destruct (H4 N) as [ey [A [_ B]]]. eauto.
    + intros E. now rewrite (H5 E).
  - intros q.
    assert (Hw : wf_axis [Samples.white]) by (apply wf_axisb_ok; reflexivity).
    destruct (setQueryParams_params [Samples.white] [Samples.white] q
                ltac:(discriminate) Hw Hw)
      as [q' [ex [H1 [_ [_ [_ [_ H5]]]]]]].
    exists q'. split; [exact H1|]. rewrite has_get. now rewrite (H5 eq_refl).
Qed.

(** C9.  With an X axis that is absent or empty [setQueryParams]
    returns the page as it was: no address installed, no history entry.
    With a non-empty X axis it installs an address and touches nothing
    else of the page, and in the query string of that address the
    parameters under every name other than [xAxisData] and [yAxisData]
    are those of the query string before, with their values and in
    their order. *)
Theorem setQueryParams_frame (x y : list ColorEntry) (p : Page) :
  setQueryParams None y p = Ok p
  /\ setQueryParams (Some []) y p = Ok p
  /\ (x <> [] ->
      exists p',
        setQueryParams (Some x) y p = Ok p'
        /\ otherParams (ofString (search p'))
           = otherParams (ofString (search p))
        /\ (forall name,
              name <> xAxisDataName -> name <> yAxisDataName ->
              getAll name (ofString (search p'))
              = getAll name (ofString (search p))
              /\ get name (ofString (search p'))
                 = get name (ofString (search p)))
        /\ xInput p' = xInput p /\ yInput p' = yInput p
        /\ tableContainer p' = tableContainer p
        /\ contrast p' = contrast p
        /\ pushed p' = S (pushed p)).
Proof.
  split; [reflexivity|]. split; [reflexivity|].
  intros Hne.
  destruct (setQueryParams_installs x y p Hne) as [ps' [Hu [Hs Hr]]].
  exists (pushState (toString ps') p). split; [exact Hs|].
  rewrite Hr. pose proof (otherParams_updateParams _ _ _ _ Hu) as Ho.
  split; [exact Ho|]. split.
  - intros name Nx Ny. now apply otherParams_getAll.
  - repeat split.
Qed.

(** C1.  After [setQueryParams] with a non-empty X axis, reading the
    installed query string back gives the two axes: when [x] and [y]
    differ [getDataFromQueryParams] returns both, and when they are
    equal it returns [x] and [null] for the absent [yAxisData], which
    [handlePopstate] and [init] replace by [x].  The escapes of
    [encodeURIComponent] and those of the URLSearchParams serializer
    are undone in turn by the URLSearchParams parser and by
    [decodeURIComponent]. *)
Theorem query_string_round_trip (x y : list ColorEntry) (p : Page) :
  x <> [] -> wf_axis x -> wf_axis y ->
  exists p',
    setQueryParams (Some x) y p = Ok p'
    /\ axesFromQueryParams p' = Ok (JSON.ofEntries x, JSON.ofEntries y)
    /\ (x <> y ->
        getDataFromQueryParams p'
        = Ok {| xAxisData := JSON.ofEntries x;
                yAxisData := JSON.ofEntries y |})
    /\ (x = y ->
        getDataFromQueryParams p'
        = Ok {| xAxisData := JSON.ofEntries x; yAxisData := JSON.JNull |}
        /\ axesFromQueryParams p'
           = Ok (JSON.ofEntries x, JSON.ofEntries x)).
Proof.
  intros Hne Hx Hy.
  destruct (setQueryParams_params x y p Hne Hx Hy)
    as [p' [ex [H1 [H2 [_ [H3 [H4 H5]]]]]]].
  destruct (StringifyFacts.axis_roundtrip x Hx) as [ex' [Hex [_ Rx]]].
  rewrite H2 in Hex. injection Hex as <-.
  assert (Ax : readAxis (ofString (search p')) xAxisDataName
               = Ok (JSON.ofEntries x)).
  { unfold readAxis, decodeValue. rewrite H3. exact Rx. }
  assert (Differ : JSON.stringifyEntries y <> JSON.stringifyEntries x ->
                   getDataFromQueryParams p'
                   = Ok {| xAxisData := JSON.ofEntries x;
                           yAxisData := JSON.ofEntries y |}).
  { intros N. destruct (H4 N) as [ey [Hey [_ Gy]]].
    destruct (StringifyFacts.axis_roundtrip y Hy) as [ey' [Hey' [_ Ry]]].
    rewrite Hey in Hey'. injection Hey' as <-.
    unfold getDataFromQueryParams. rewrite Ax. cbn [bind].
    unfold readAxis, decodeValue. rewrite Gy, Ry. reflexivity. }
  assert (Same : JSON.stringifyEntries y = JSON.stringifyEntries x ->
                 getDataFromQueryParams p'
                 = Ok {| xAxisData := JSON.ofEntries x;
                         yAxisData := JSON.JNull |}).
  { intros E. unfold getDataFromQueryParams. rewrite Ax. cbn [bind].
    unfold readAxis. rewrite (H5 E). reflexivity. }
  exists p'. split; [exact H1|]. split; [|split].
  - unfold axesFromQueryParams.
    destruct (list_eq_dec Z.eq_dec (JSON.stringifyEntries y)
                (JSON.stringifyEntries x)) as [E|N].
    + rewrite (Same E). cbn [bind xAxisData yAxisData truthy].
      now rewrite (StringifyFacts.stringifyEntries_injective y x Hy Hx E).
    + rewrite (Differ N). reflexivity.
  - intros N. apply Differ. intros E. apply N. symmetry.
    now apply StringifyFacts.stringifyEntries_injective.
  - intros <-. split.
    + now apply Same.
    + unfold axesFromQueryParams. now rewrite (Same eq_refl).
Qed.

(** C7.  [getDataFromQueryParams] throws whenever one of the two
    parameters is there and its value, once percent-decoded, is text
    that [JSON.parse] rejects (or cannot be percent-decoded at all):
    nothing is returned for either axis.  A parameter that is not there
    gives [null] for its axis and costs no exception: with both absent,
    as on an empty query string, the result is [null] for both, and
    with one absent the result has the other's value. *)
Theorem getDataFromQueryParams_errors (p : Page) :
  let urlParams := ofString (search p) in
  (forall axis value e,
     axis = xAxisDataName \/ axis = yAxisDataName ->
     get axis urlParams = Some value ->
     decodeValue value = Throw e ->
     exists e', getDataFromQueryParams p = Throw e')
  /\ (forall axis, get axis urlParams = None ->
                   readAxis urlParams axis = Ok JSON.JNull)
  /\ (get xAxisDataName urlParams = None ->
      get yAxisDataName urlParams = None ->
      getDataFromQueryParams p
      = Ok {| xAxisData := JSON.JNull; yAxisData := JSON.JNull |})
  /\ (search p = [] ->
      getDataFromQueryParams p
      = Ok {| xAxisData := JSON.JNull; yAxisData := JSON.JNull |})
  /\ (forall value v,
        get xAxisDataName urlParams = None ->
        get yAxisDataName urlParams = Some value ->
        decodeValue value = Ok v ->
        getDataFromQueryParams p
        = Ok {| xAxisData := JSON.JNull; yAxisData := v |})
  /\ (forall value v,
        get xAxisDataName urlParams = Some value ->
        get yAxisDataName urlParams = None ->
        decodeValue value = Ok v ->
        getDataFromQueryParams p
        = Ok {| xAxisData := v; yAxisData := JSON.JNull |}).
Proof.
  intros urlParams.
  assert (Absent : forall axis, get axis urlParams = None ->
                                readAxis urlParams axis = Ok JSON.JNull).
  { intros axis H. unfold readAxis. rewrite H. reflexivity. }
  assert (Present : forall axis value,
             get axis urlParams = Some value ->
             readAxis urlParams axis = decodeValue value).
  { intros axis value H. unfold readAxis. rewrite H. reflexivity. }
  split; [|split; [exact Absent|split; [|split; [|split]]]].
  - intros axis value e [-> | ->] Hg Hd; unfold getDataFromQueryParams;
      fold urlParams.
    + rewrite (Present _ _ Hg), Hd. cbn [bind]. eauto.
    + destruct (readAxis urlParams xAxisDataName) as [vx|ex];
        cbn [bind]; [|eauto].
      rewrite (Present _ _ Hg), Hd. cbn [bind]. eauto.
  - intros Hx Hy. unfold getDataFromQueryParams. fold urlParams.
    now rewrite (Absent _ Hx), (Absent _ Hy).
  - intros Hs. unfold getDataFromQueryParams. now rewrite Hs.
  - intros value v Hx Hy Hd. unfold getDataFromQueryParams. fold urlParams.
    rewrite (Absent _ Hx). cbn [bind]. now rewrite (Present _ _ Hy), Hd.
  - intros value v Hx Hy Hd. unfold getDataFromQueryParams. fold urlParams.
    rewrite (Present _ _ Hx), Hd. cbn [bind]. now rewrite (Absent _ Hy).
Qed.

End Codec.

(* ----------------------------------------------------------------- *)
(** ** reverseInputData *)

Lemma trim_empty_whitespace s :
  trim s = [] -> forallb isWhiteSpace s = true.
Proof.
  unfold trim. intros H.
  destruct (trimStart_split s) as [p [Hp Hw]].
  destruct (trimEnd_split (trimStart s)) as [q [Hq Hv]].
  rewrite H in Hq. cbn [app] in Hq. rewrite Hp, Hq, forallb_app.
  now rewrite Hw, Hv.
Qed.

Lemma trimStart_whitespace s : forallb isWhiteSpace s = true -> trimStart s = [].
Proof.
  induction s as [|c r IH]; intros H; [reflexivity|].
  cbn [forallb] in H. apply andb_true_iff in H as [H1 H2].
  cbn [trimStart]. rewrite H1. now apply IH.
Qed.

Lemma trim_whitespace s : forallb isWhiteSpace s = true -> trim s = [].
Proof. intros H. unfold trim. now rewrite trimStart_whitespace. Qed.

Lemma split_forallb (f : Z -> bool) sep s :
  forallb f s = true -> Forall (fun seg => forallb f seg = true) (split sep s).
Proof.
  induction s as [|c r IH]; intros H.
  - repeat constructor.
  - cbn [forallb] in H. apply andb_true_iff in H as [H1 H2].
    specialize (IH H2). cbn [split]. destruct (c =? sep).
    + constructor; [reflexivity|exact IH].
    + destruct (split sep r) as [|seg segs]; [repeat constructor|].
      * cbn. now rewrite H1.
      * inversion IH as [|? ? Hs Hr]; subst.
        constructor; [|exact Hr]. cbn [forallb]. now rewrite H1, Hs.
Qed.

Lemma removeSemicolonRuns_whitespace s :
  forallb isWhiteSpace s = true -> removeSemicolonRuns false s = s.
Proof.
  induction s as [|c r IH]; intros H; [reflexivity|].
  cbn [forallb] in H. apply andb_true_iff in H as [H1 H2].
  cbn [removeSemicolonRuns].
  assert (E : (c =? SEMICOLON) = false).
  { destruct (Z.eqb_spec c SEMICOLON) as [->|]; [discriminate|reflexivity]. }
  now rewrite E, IH.
Qed.

Section ReverseTheorems.
Context {CM : ColorMath} {HP : HTMLParser}.

Lemma cleanItem_whitespace s :
  forallb isWhiteSpace s = true -> cleanItem s = [].
Proof.
  intros H. unfold cleanItem.
  rewrite removeSemicolonRuns_whitespace by exact H.
  rewrite (trim_whitespace s H). reflexivity.
Qed.

(** A blank text area gives an empty axis, with a library that, like
    tinycolor, rejects the empty string. *)
Lemma getInputData_blank text :
  isValid [] = false -> trim text = [] -> getInputData text = [].
Proof.
  intros Hv Ht. apply trim_empty_whitespace in Ht.
  rewrite getInputData_flat_map.
  pose proof (split_forallb isWhiteSpace LF text Ht) as HF.
  induction HF as [|line r Hl Hr IH]; [reflexivity|].
  cbn [flat_map]. rewrite IH, app_nil_r, lineEntries_spec.
  pose proof (split_forallb isWhiteSpace COLON line Hl) as HS.
  assert (Hc : cleanItem (lastProcessedSegment line) = []).
  { apply cleanItem_whitespace. unfold lastProcessedSegment, processedSegments.
    destruct (split COLON line) as [|a [|b rest]]; [reflexivity| |].
    - now inversion HS.
    - inversion HS as [|? ? _ HS']; subst. now inversion HS'. }
  now rewrite Hc, Hv.
Qed.

(** C10, as the code has it.  [reverseInputData] looks at the text of
    the Y text area, not at the axis read from it.  With a Y text that
    is blank, and so parses to the empty axis, it returns the page as
    it was: neither text, and nothing else, changes.  With anything
    else in the Y text area, as is the case whenever the Y axis parsed
    from it is not empty, the two texts change places and the table
    and the query string are rebuilt from them: the new X axis is the
    parse of the old Y text and the new Y axis the parse of the old X
    text.  (The library is taken to reject the empty string where the
    parse of a blank text is concerned.) *)
Theorem reverseInputData_swaps (p : Page) :
  (trim (yInput p) = [] ->
   reverseInputData p = Ok p
   /\ (isValid [] = false -> getInputData (yInput p) = []))
  /\ (isValid [] = false -> getInputData (yInput p) <> [] ->
      trim (yInput p) <> [])
  /\ (trim (yInput p) <> [] ->
      exists p',
        reverseInputData p = Ok p'
        /\ xInput p' = yInput p
        /\ yInput p' = xInput p
        /\ reverseInputData p
           = writeTableToDOM (Some (getInputData (yInput p)))
               (getInputData (xInput p)) true
               (withInputs (yInput p) (xInput p) p)
        /\ (getInputData (yInput p) <> [] ->
            tableContainer p'
            = setCellContrastTable (contrast p)
                (parseFragment
                   (buildTable (getInputData (yInput p))
                               (getInputData (xInput p)))))).
Proof.
  split; [|split].
  - intros H. split.
    + unfold reverseInputData. now rewrite H.
    + intros Hv. now apply getInputData_blank.
  - intros Hv Hne Ht. apply Hne. now apply getInputData_blank.
  - intros H.
    assert (E : (length (trim (yInput p)) =? 0)%nat = false).
    { destruct (trim (yInput p)); [congruence|reflexivity]. }
    assert (R : reverseInputData p
                = writeTableToDOM (Some (getInputData (yInput p)))
                    (getInputData (xInput p)) true
                    (withInputs (yInput p) (xInput p) p)).
    { unfold reverseInputData. rewrite E. reflexivity. }
    rewrite R. unfold writeTableToDOM.
    destruct (getInputData (yInput p)) as [|x0 xr] eqn:Ex.
    + eexists. split; [reflexivity|]. cbn.
      repeat split. intros N. congruence.
    + set (q := setCellContrast _ _).
      destruct (PageFacts.setQueryParams_installs (x0 :: xr)
                  (getInputData (xInput p)) q ltac:(discriminate))
        as [ps' [_ [H1 _]]].
      eexists. split; [exact H1|]. repeat split.
Qed.

End ReverseTheorems.

(* ----------------------------------------------------------------- *)
(** ** The functions on concrete inputs *)

Example getInputData_namedThenBare :
  @getInputData sampleColorMath Samples.namedThenBare
  = [Samples.brand; Samples.black].
Proof. vm_compute. reflexivity. Qed.

Example stringifyEntries_brand :
  JSON.stringifyEntries [Samples.brand]
  = litq "[{'name':'Brand','color':'#ff0000'}]"%string.
Proof. vm_compute. reflexivity. Qed.

(** The address after a first submission of white against black: the
    escapes of [encodeURIComponent] are escaped once more by the
    serializer. *)
Example search_after_setQueryParams :
  option_map search
    (match setQueryParams (Some [Samples.white]) [Samples.black]
             SamplePages.fresh with
     | Ok p => Some p
     | Throw _ => None
     end)
  = Some (lit "?xAxisData=%255B%257B%2522color%2522%253A%2522%2523fff"%string
          ++ lit "%2522%257D%255D&yAxisData=%255B%257B%2522color%2522"%string
          ++ lit "%253A%2522%2523000%2522%257D%255D"%string).
Proof. vm_compute. reflexivity. Qed.

Example toFixed2_examples :
  toFixed2 (21 # 1) = lit "21.00"%string
  /\ toFixed2 (1 # 1) = lit "1.00"%string
  /\ toFixed2 (4495 # 1000) = lit "4.50"%string
  /\ toFixed2 (44949 # 10000) = lit "4.49"%string
  /\ toFixed2 (5 # 1000) = lit "0.01"%string.
Proof. vm_compute. repeat split. Qed.

Example getDataFromQueryParams_no_query :
  getDataFromQueryParams SamplePages.fresh
  = Ok {| xAxisData := JSON.JNull; yAxisData := JSON.JNull |}.
Proof. vm_compute. reflexivity. Qed.

(* ----------------------------------------------------------------- *)
(** ** The theorems at concrete inputs *)

Lemma setQueryParams_axis_compaction_witness :
  [Samples.white] <> []
  /\ wf_axis [Samples.white] /\ wf_axis [Samples.white]
  /\ exists q',
       setQueryParams (Some [Samples.white]) [Samples.white]
         SamplePages.busy = Ok q'
       /\ URLSearchParams.has yAxisDataName
            (URLSearchParams.ofString (search q')) = false.
Proof.
  assert (Hn : [Samples.white] <> []) by discriminate.
  assert (Hw : wf_axis [Samples.white]) by (apply wf_axisb_ok; reflexivity).
  split; [exact Hn|]. split; [exact Hw|]. split; [exact Hw|].
  exact (proj2 (Codec.setQueryParams_axis_compaction
                  [Samples.white] [Samples.white] SamplePages.busy Hn Hw Hw)
               SamplePages.busy).
Defined.

Lemma setQueryParams_frame_witness :
  [Samples.white] <> []
  /\ exists p',
       setQueryParams (Some [Samples.white]) [Samples.brand]
         SamplePages.busy = Ok p'
       /\ otherParams (URLSearchParams.ofString (search p'))
          = otherParams (URLSearchParams.ofString (search SamplePages.busy)).
Proof.
  assert (Hn : [Samples.white] <> []) by discriminate.
  split; [exact Hn|].
  destruct (proj2 (proj2 (Codec.setQueryParams_frame
                            [Samples.white] [Samples.brand] SamplePages.busy))
                  Hn) as [p' [H1 [H2 _]]].
  exists p'. split; [exact H1|exact H2].
Defined.

Lemma query_string_round_trip_witness :
  [Samples.brand; Samples.white] <> []
  /\ wf_axis [Samples.brand; Samples.white] /\ wf_axis [Samples.black]
  /\ exists p',
       setQueryParams (Some [Samples.brand; Samples.white]) [Samples.black]
         SamplePages.busy = Ok p'
       /\ axesFromQueryParams p'
          = Ok (JSON.ofEntries [Samples.brand; Samples.white],
                JSON.ofEntries [Samples.black]).
Proof.
  assert (Hn : [Samples.brand; Samples.white] <> []) by discriminate.
  assert (Hx : wf_axis [Samples.brand; Samples.white])
    by (apply wf_axisb_ok; reflexivity).
  assert (Hy : wf_axis [Samples.black]) by (apply wf_axisb_ok; reflexivity).
  split; [exact Hn|]. split; [exact Hx|]. split; [exact Hy|].
  destruct (Codec.query_string_round_trip
              [Samples.brand; Samples.white] [Samples.black]
              SamplePages.busy Hn Hx Hy) as [p' [H1 [H2 _]]].
  exists p'. split; [exact H1|exact H2].
Defined.

Lemma getDataFromQueryParams_errors_witness :
  URLSearchParams.get xAxisDataName
    (URLSearchParams.ofString (search SamplePages.malformed))
  = Some (lit "[{color"%string)
  /\ decodeValue (lit "[{color"%string) = Throw SyntaxError
  /\ exists e', getDataFromQueryParams SamplePages.malformed = Throw e'.
Proof.
  assert (Hg : URLSearchParams.get xAxisDataName
                 (URLSearchParams.ofString (search SamplePages.malformed))
               = Some (lit "[{color"%string)) by reflexivity.
  assert (Hd : decodeValue (lit "[{color"%string)
               = Throw SyntaxError) by reflexivity.
  split; [exact Hg|]. split; [exact Hd|].
  exact (proj1 (Codec.getDataFromQueryParams_errors
                  SamplePages.malformed)
               xAxisDataName _ SyntaxError (or_introl eq_refl) Hg Hd).
Defined.

Lemma reverseInputData_swaps_witness :
  trim (yInput SamplePages.busy) <> []
  /\ trim (yInput SamplePages.blankY) = []
  /\ (exists p',
        @reverseInputData sampleColorMath sampleHTMLParser SamplePages.busy = Ok p'
        /\ xInput p' = yInput SamplePages.busy
        /\ yInput p' = xInput SamplePages.busy)
  /\ @reverseInputData sampleColorMath sampleHTMLParser SamplePages.blankY
     = Ok SamplePages.blankY.
Proof.
  assert (Hn : trim (yInput SamplePages.busy) <> []) by discriminate.
  assert (Hb : trim (yInput SamplePages.blankY) = []) by reflexivity.
  split; [exact Hn|]. split; [exact Hb|]. split.
  - destruct (proj2 (proj2 (@reverseInputData_swaps sampleColorMath sampleHTMLParser
                              SamplePages.busy)) Hn)
      as [p' [H1 [H2 [H3 _]]]].
    exists p'. auto.
  - exact (proj1 (proj1 (@reverseInputData_swaps sampleColorMath sampleHTMLParser
                           SamplePages.blankY) Hb)).
Defined.

(** C10 fails as stated.  The Y text ["nothing here"] holds no colour,
    so the Y axis is empty; yet the two texts change places, and the X
    axis, which was the one colour [#fff], is empty afterwards. *)
Lemma reverseInputData_swaps_on_empty_axis :
  @getInputData sampleColorMath (yInput SamplePages.wordsY) = []
  /\ @getInputData sampleColorMath (xInput SamplePages.wordsY)
     = [Samples.white]
  /\ exists p',
       @reverseInputData sampleColorMath sampleHTMLParser SamplePages.wordsY
       = Ok p'
       /\ p' <> SamplePages.wordsY
       /\ xInput p' = lit "nothing here"%string
       /\ yInput p' = lit "#fff"%string
       /\ @getInputData sampleColorMath (xInput p') = []
       /\ @getInputData sampleColorMath (yInput p') = [Samples.white].
Proof.
  split; [vm_compute; reflexivity|]. split; [vm_compute; reflexivity|].
  eexists. split; [vm_compute; reflexivity|].
  split; [discriminate|]. repeat split; vm_compute; reflexivity.
Qed.

(* ================================================================= *)
(** * Further properties *)

(* ----------------------------------------------------------------- *)
(** ** What cleaning keeps *)

Lemma trimStart_incl s : incl (trimStart s) s.
Proof.
  induction s as [|c r IH]; [apply incl_refl|].
  cbn [trimStart]. destruct (isWhiteSpace c); [|apply incl_refl].
  now apply incl_tl.
Qed.

Lemma trimEnd_incl s : incl (trimEnd s) s.
Proof.
  unfold trimEnd. intros x Hx. apply in_rev in Hx.
  apply trimStart_incl in Hx. now apply in_rev in Hx.
Qed.

Lemma trim_incl s : incl (trim s) s.
Proof.
  unfold trim. eapply incl_tran; [apply trimEnd_incl|apply trimStart_incl].
Qed.

Lemma removeFinalComma_incl s : incl (removeFinalComma s) s.
Proof.
  induction s as [|c r IH]; [apply incl_refl|].
  cbn [removeFinalComma]. destruct r as [|d r'].
  - destruct (c =? COMMA); [apply incl_nil_l|apply incl_refl].
  - intros x [->|Hx]; [now left|right; now apply IH].
Qed.

Lemma removeSemicolonRuns_incl b s : incl (removeSemicolonRuns b s) s.
Proof.
  revert b. induction s as [|c r IH]; intros b; [apply incl_refl|].
  cbn [removeSemicolonRuns].
  destruct b; [destruct (isLineTerminator c)|destruct (c =? SEMICOLON)];
    try (apply incl_tl; apply IH);
    intros x [->|Hx]; try (now left); right; eapply IH; eassumption.
Qed.

Lemma removeSemicolonRuns_no_semicolon b s :
  ~ In SEMICOLON (removeSemicolonRuns b s).
Proof.
  revert b. induction s as [|c r IH]; intros b; [easy|].
  cbn [removeSemicolonRuns].
  destruct b.
  - destruct (isLineTerminator c) eqn:E; [|apply IH].
    intros [->|H]; [discriminate|now apply IH in H].
  - destruct (Z.eqb_spec c SEMICOLON) as [->|N]; [apply IH|].
    intros [E|H]; [congruence|now apply IH in H].
Qed.

Lemma cleanItem_incl s : incl (cleanItem s) s.
Proof.
  unfold cleanItem.
  eapply incl_tran; [apply trim_incl|].
  eapply incl_tran; [apply removeFinalComma_incl|].
  eapply incl_tran; [apply trim_incl|].
  apply removeSemicolonRuns_incl.
Qed.

Lemma cleanItem_no_semicolon s : ~ In SEMICOLON (cleanItem s).
Proof.
  unfold cleanItem. intros H.
  apply trim_incl, removeFinalComma_incl, trim_incl in H.
  now apply removeSemicolonRuns_no_semicolon in H.
Qed.

Lemma split_segment_incl sep s seg : In seg (split sep s) -> incl seg s.
Proof.
  revert seg. induction s as [|c r IH]; intros seg H.
  - destruct H as [<-|[]]. apply incl_refl.
  - cbn [split] in H. destruct (c =? sep).
    + destruct H as [<-|H]; [apply incl_nil_l|].
      apply incl_tl. now apply IH.
    + destruct (split sep r) as [|s0 segs] eqn:E.
      * now destruct (split_nonempty sep r).
      * destruct H as [<-|H].
        -- intros x [->|Hx]; [now left|]. right.
           apply (IH s0); [now left|exact Hx].
        -- apply incl_tl. apply IH. now right.
Qed.

Lemma split_segment_no_separator sep s seg :
  In seg (split sep s) -> ~ In sep seg.
Proof.
  revert seg. induction s as [|c r IH]; intros seg H.
  - destruct H as [<-|[]]. easy.
  - cbn [split] in H. destruct (Z.eqb_spec c sep) as [->|N].
    + destruct H as [<-|H]; [easy|now apply IH].
    + destruct (split sep r) as [|s0 segs] eqn:E.
      * now destruct (split_nonempty sep r).
      * destruct H as [<-|H].
        -- intros [E'|Hx]; [congruence|].
           apply (IH s0); [now left|exact Hx].
        -- apply IH. now right.
Qed.

(* ----------------------------------------------------------------- *)
(** ** The entry of a line *)

Section ParserMore.
Context {CM : ColorMath}.

Lemma lineData_one s1 line :
  split COLON line = [s1] ->
  lineData line = itemCallback ([], false) s1 0%nat.
Proof. intros H. unfold lineData. now rewrite H. Qed.

Lemma lineData_two s1 s2 rest line :
  split COLON line = s1 :: s2 :: rest ->
  lineData line
  = itemCallback (itemCallback ([], false) s1 0%nat) s2 1%nat.
Proof.
  intros H. unfold lineData. rewrite H. cbn [forEachIndexed].
  now rewrite forEachIndexed_skipped by lia.
Qed.

Lemma lineEntries_cases (line : jsstring) :
  (forall s1,
     split COLON line = [s1] ->
     lineEntries line
     = if isValid (cleanItem s1) then [[(Kcolor, cleanItem s1)]] else [])
  /\ (forall s1 s2 rest,
        split COLON line = s1 :: s2 :: rest ->
        lineEntries line
        = if isValid (cleanItem s2) then
            if isValid (cleanItem s1) || isEmpty (cleanItem s1)
            then [[(Kcolor, cleanItem s2)]]
            else [[(Kname, cleanItem s1); (Kcolor, cleanItem s2)]]
          else []).
Proof.
  split.
  - intros s1 H. unfold lineEntries, lineCallback.
    rewrite (lineData_one s1 line H). unfold itemCallback. cbn [Nat.leb fst].
    destruct (isValid (cleanItem s1)); [reflexivity|].
    destruct (0 <? length (cleanItem s1))%nat; reflexivity.
  - intros s1 s2 rest H. unfold lineEntries, lineCallback.
    rewrite (lineData_two s1 s2 rest line H).
    unfold itemCallback. cbn [Nat.leb fst].
    destruct (isValid (cleanItem s1)) eqn:E1; cbn [fst orb].
    + destruct (isValid (cleanItem s2)); [reflexivity|].
      destruct (0 <? length (cleanItem s2))%nat; reflexivity.
    + destruct (cleanItem s1) as [|c r] eqn:Ec;
        cbn [length Nat.ltb Nat.leb isEmpty fst].
      * destruct (isValid (cleanItem s2)); [reflexivity|].
        destruct (cleanItem s2); reflexivity.
      * destruct (isValid (cleanItem s2)); [reflexivity|].
        destruct (cleanItem s2); reflexivity.
Qed.

(** X1.  The entry of a line is decided by its first two segments
    between colons, cleaned; what follows a second colon is not read.
    A line of one segment gives that segment as a colour when it is
    valid.  A line of two gives the second as the colour when it is
    valid, with the first as the name when the first is neither empty
    nor itself a valid colour; a first segment that is a valid colour
    is dropped, and never kept as a name.  In every other case the
    line gives nothing. *)
Theorem lineEntries_classification (line : jsstring) :
  (forall s1,
     split COLON line = [s1] ->
     lineEntries line
     = if isValid (cleanItem s1) then [[(Kcolor, cleanItem s1)]] else [])
  /\ (forall s1 s2 rest,
        split COLON line = s1 :: s2 :: rest ->
        lineEntries line
        = if isValid (cleanItem s2) then
            if isValid (cleanItem s1) || isEmpty (cleanItem s1)
            then [[(Kcolor, cleanItem s2)]]
            else [[(Kname, cleanItem s1); (Kcolor, cleanItem s2)]]
          else []).
Proof. apply lineEntries_cases. Qed.

(** Where an entry of the output comes from. *)
Lemma entry_origin text e :
  In e (getInputData text) ->
  exists line, In line (split LF text) /\ lineEntries line = [e].
Proof.
  rewrite getInputData_flat_map, in_flat_map. intros [line [Hl He]].
  exists line. split; [exact Hl|].
  rewrite lineEntries_spec in *.
  destruct (isValid (cleanItem (lastProcessedSegment line))); [|easy].
  destruct He as [<-|[]]. reflexivity.
Qed.

Lemma lineEntries_shape line e :
  lineEntries line = [e] ->
  (exists s, In s (split COLON line)
             /\ e = [(Kcolor, cleanItem s)] /\ isValid (cleanItem s) = true)
  \/ (exists s1 s2, In s1 (split COLON line) /\ In s2 (split COLON line)
                    /\ e = [(Kname, cleanItem s1); (Kcolor, cleanItem s2)]
                    /\ isValid (cleanItem s2) = true
                    /\ isValid (cleanItem s1) = false
                    /\ cleanItem s1 <> []).
Proof.
  intros H. destruct (lineEntries_cases line) as [H1 H2].
  destruct (split COLON line) as [|s1 [|s2 rest]] eqn:E.
  - now destruct (split_nonempty COLON line).
  - rewrite (H1 s1 eq_refl) in H.
    destruct (isValid (cleanItem s1)) eqn:V; [|discriminate].
    injection H as <-. left. exists s1. repeat split; auto. now left.
  - rewrite (H2 s1 s2 rest eq_refl) in H.
    destruct (isValid (cleanItem s2)) eqn:V2; [|discriminate].
    destruct (isValid (cleanItem s1)) eqn:V1; cbn [orb] in H.
    + injection H as <-. left. exists s2. repeat split; auto.
      right. now left.
    + destruct (cleanItem s1) as [|c r] eqn:Ec; cbn [isEmpty] in H.
      * injection H as <-. left. exists s2. repeat split; auto.
        right. now left.
      * injection H as <-. right. exists s1, s2. rewrite Ec.
        split; [now left|]. split; [right; now left|].
        split; [reflexivity|]. split; [exact V2|].
        split; [first [exact V1 | rewrite <- Ec; exact V1]|discriminate].
Qed.

(** X2.  The output has at most one entry for each line of the text,
    and a text of white space and line breaks only gives the empty
    axis, with a library that rejects the empty string. *)
Theorem getInputData_size text :
  (length (getInputData text) <= length (split LF text))%nat
  /\ (isValid [] = false -> trim text = [] -> getInputData text = []).
Proof.
  split; [|apply getInputData_blank].
  rewrite getInputData_flat_map.
  induction (split LF text) as [|line r IH]; [apply Nat.le_refl|].
  cbn [flat_map]. rewrite length_app, lineEntries_spec.
  destruct (isValid (cleanItem (lastProcessedSegment line)));
    cbn [length]; lia.
Qed.

Lemma entry_strings_origin text e s :
  In e (getInputData text) -> In s (entryStrings e) ->
  exists line seg,
    In line (split LF text) /\ In seg (split COLON line)
    /\ s = cleanItem seg.
Proof.
  intros He Hs. destruct (entry_origin text e He) as [line [Hl Hle]].
  exists line.
  destruct (lineEntries_shape line e Hle)
    as [[s1 [H1 [-> _]]]|[s1 [s2 [H1 [H2 [-> _]]]]]];
    cbn [entryStrings map snd In] in Hs.
  - destruct Hs as [<-|[]]. now exists s1.
  - destruct Hs as [<-|[<-|[]]]; [now exists s1|now exists s2].
Qed.

Lemma entry_strings_clean text e s :
  In e (getInputData text) -> In s (entryStrings e) ->
  trim s = s /\ noneOf [COLON; SEMICOLON; LF] s /\ incl s text.
Proof.
  intros He Hs.
  destruct (entry_strings_origin text e s He Hs)
    as [line [seg [Hl [Hseg ->]]]].
  split; [apply cleanItem_trimmed|]. split.
  - intros c [<-|[<-|[<-|[]]]] Hc.
    + apply cleanItem_incl in Hc.
      now apply (split_segment_no_separator COLON line seg).
    + now apply cleanItem_no_semicolon in Hc.
    + apply cleanItem_incl in Hc.
      apply (split_segment_incl COLON line seg Hseg) in Hc.
      now apply (split_segment_no_separator LF text line).
  - eapply incl_tran; [apply cleanItem_incl|].
    eapply incl_tran; [apply (split_segment_incl COLON line seg Hseg)|].
    now apply (split_segment_incl LF text line).
Qed.

(** X3.  Every string kept in an entry, name or colour, is trimmed,
    holds no colon, no semicolon and no line feed, and is made of code
    units of the text; so the strings of a text of code units are
    strings of code units. *)
Theorem getInputData_strings text e s :
  In e (getInputData text) -> In s (entryStrings e) ->
  trim s = s
  /\ noneOf [COLON; SEMICOLON; LF] s
  /\ incl s text
  /\ (wf_string text -> wf_string s).
Proof.
  intros He Hs.
  destruct (entry_strings_clean text e s He Hs) as [H1 [H2 H3]].
  repeat split; try assumption.
  unfold wf_string. rewrite !Forall_forall. intros Hw c Hc.
  apply Hw, H3, Hc.
Qed.

End ParserMore.

(* ----------------------------------------------------------------- *)
(** ** From an axis to the text of a text area and back *)

Lemma trim_space s : trim (32 :: s) = trim s.
Proof. reflexivity. Qed.

Lemma cleanItem_space s : cleanItem (32 :: s) = cleanItem s.
Proof. reflexivity. Qed.

Lemma plainString_no c s :
  plainString s -> In c [COLON; SEMICOLON; LF] -> ~ In c s.
Proof. intros [_ [_ H]]. apply H. Qed.

Lemma cleanItem_plain s : plainString s -> cleanItem s = s.
Proof.
  intros H. pose proof (plainString_no SEMICOLON s H) as Hs.
  destruct H as [Ht [Hc _]]. unfold cleanItem.
  rewrite removeSemicolonRuns_id, Ht, Hc, Ht; [reflexivity|].
  apply Hs. right. now left.
Qed.

Lemma split_plain sep s : ~ In sep s -> split sep s = [s].
Proof.
  induction s as [|c r IH]; intros H; [reflexivity|].
  cbn [split]. destruct (Z.eqb_spec c sep) as [->|N]; [destruct H; now left|].
  rewrite IH; [reflexivity|]. intros Hr. apply H. now right.
Qed.

Lemma split_joinWith_lines sep pieces :
  pieces <> [] -> Forall (fun s => ~ In sep s) pieces ->
  split sep (URLSearchParams.joinWith sep pieces) = pieces.
Proof.
  induction pieces as [|x r IH]; intros Hne HF; [congruence|].
  inversion HF as [|? ? Hx Hr]; subst.
  destruct r as [|y r'].
  - cbn [URLSearchParams.joinWith]. now apply split_plain.
  - change (URLSearchParams.joinWith sep (x :: y :: r'))
      with (x ++ sep :: URLSearchParams.joinWith sep (y :: r')).
    rewrite split_app, split_plain by exact Hx.
    rewrite IH; [reflexivity|discriminate|exact Hr].
Qed.

Section HydrateFacts.
Context {CM : ColorMath}.

Lemma hydrateLine_color c : hydrateLine [(Kcolor, c)] = 32 :: c.
Proof. reflexivity. Qed.

Lemma hydrateLine_named n c :
  hydrateLine [(Kname, n); (Kcolor, c)] = n ++ COLON :: 32 :: 32 :: c.
Proof.
  unfold hydrateLine. cbn. now rewrite <- app_assoc.
Qed.

Lemma lineEntries_hydrateLine e :
  restorable e -> lineEntries (hydrateLine e) = [e].
Proof.
  intros [[c [-> [Hv Hp]]]|[n [c [-> [Hv [Hn [Hne [Hpn Hpc]]]]]]]].
  - rewrite hydrateLine_color.
    destruct (lineEntries_cases (32 :: c)) as [H1 _].
    rewrite (H1 (32 :: c)).
    + now rewrite cleanItem_space, (cleanItem_plain c Hp), Hv.
    + apply split_plain. intros [E|H]; [discriminate|].
      revert H. apply (plainString_no COLON c Hp). now left.
  - rewrite hydrateLine_named.
    destruct (lineEntries_cases (n ++ COLON :: 32 :: 32 :: c)) as [_ H2].
    rewrite (H2 n (32 :: 32 :: c) []).
    + rewrite !cleanItem_space, (cleanItem_plain c Hpc),
        (cleanItem_plain n Hpn), Hv, Hn.
      destruct n; [congruence|reflexivity].
    + rewrite split_app, !split_plain; [reflexivity| |].
      * intros [E|[E|H]]; [discriminate|discriminate|].
        revert H. apply (plainString_no COLON c Hpc). now left.
      * apply (plainString_no COLON n Hpn). now left.
Qed.

Lemma hydrateLine_no_LF e : restorable e -> ~ In LF (hydrateLine e).
Proof.
  intros [[c [-> [Hv Hp]]]|[n [c [-> [Hv [Hn [Hne [Hpn Hpc]]]]]]]].
  - rewrite hydrateLine_color. intros [E|H]; [discriminate|].
    revert H. apply (plainString_no LF c Hp). right. right. now left.
  - rewrite hydrateLine_named. rewrite in_app_iff.
    intros [H|[E|[E|[E|H]]]]; try discriminate; revert H.
    + apply (plainString_no LF n Hpn). right. right. now left.
    + apply (plainString_no LF c Hpc). right. right. now left.
Qed.

Lemma getInputData_hydrateText x :
  isValid [] = false -> Forall restorable x ->
  getInputData (hydrateText x) = x.
Proof.
  intros Hv HF. destruct x as [|e r].
  - apply getInputData_blank; [exact Hv|reflexivity].
  - rewrite getInputData_flat_map. unfold hydrateText.
    rewrite split_joinWith_lines.
    + induction HF as [|a l Ha Hl IH]; [reflexivity|].
      cbn [map flat_map]. now rewrite (lineEntries_hydrateLine a Ha), IH.
    + discriminate.
    + rewrite Forall_map. revert HF. apply Forall_impl.
      apply hydrateLine_no_LF.
Qed.

Lemma getInputData_restorable text e :
  In e (getInputData text) -> noFinalComma e = true -> restorable e.
Proof.
  intros He Hc.
  assert (Hplain : forall s, In s (entryStrings e) -> plainString s).
  { intros s Hs.
    destruct (entry_strings_clean text e s He Hs) as [H1 [H2 _]].
    split; [exact H1|]. split; [|exact H2].
    apply removeFinalComma_id. unfold noFinalComma in Hc.
    rewrite forallb_forall in Hc. specialize (Hc s Hs).
    now apply negb_true_iff in Hc. }
  destruct (entry_origin text e He) as [line [_ Hle]].
  destruct (lineEntries_shape line e Hle)
    as [[s1 [_ [-> Hv]]]|[s1 [s2 [_ [_ [-> [Hv [Hn Hne]]]]]]]].
  - left. exists (cleanItem s1). repeat split; auto;
      apply Hplain; now left.
  - right. exists (cleanItem s1), (cleanItem s2).
    split; [reflexivity|]. split; [exact Hv|]. split; [exact Hn|].
    split; [exact Hne|]. split; apply Hplain; [now left|right; now left].
Qed.

Lemma normalizeNewlines_id s :
  forallb (fun c => negb (c =? CR)) s = true -> normalizeNewlines s = s.
Proof.
  induction s as [|c r IH]; intros H; [reflexivity|].
  cbn [forallb] in H. apply andb_true_iff in H as [H1 H2].
  apply negb_true_iff in H1. cbn [normalizeNewlines]. rewrite H1.
  now rewrite IH.
Qed.

Lemma obj_get_entryStrings k e v :
  obj_get k e = Some v -> In v (entryStrings e).
Proof.
  induction e as [|[k' v'] r IH]; [discriminate|].
  cbn [obj_get entryStrings map snd]. destruct (key_eqb k' k).
  - intros [= ->]. now left.
  - intros H. right. now apply IH.
Qed.

Lemma hydrateLine_noCR e :
  noCarriageReturn e = true ->
  forallb (fun c => negb (c =? CR)) (hydrateLine e) = true.
Proof.
  unfold noCarriageReturn. rewrite forallb_forall. intros H.
  assert (Hget : forall k,
             forallb (fun c => negb (c =? CR))
               match obj_get k e with
               | Some s => s
               | None => lit "undefined"%string
               end = true).
  { intros k. destruct (obj_get k e) as [v|] eqn:E; [|reflexivity].
    apply H. now apply (obj_get_entryStrings k). }
  unfold hydrateLine. rewrite forallb_app. apply andb_true_iff. split.
  - destruct (obj_has Kname e); [|reflexivity].
    rewrite forallb_app, (Hget Kname). reflexivity.
  - cbn [forallb]. now rewrite (Hget Kcolor).
Qed.

Lemma joinWith_forallb (f : Z -> bool) sep l :
  f sep = true -> Forall (fun s => forallb f s = true) l ->
  forallb f (URLSearchParams.joinWith sep l) = true.
Proof.
  intros Hs HF. induction HF as [|x r Hx Hr IH]; [reflexivity|].
  destruct r as [|y r'].
  - exact Hx.
  - change (URLSearchParams.joinWith sep (x :: y :: r'))
      with (x ++ sep :: URLSearchParams.joinWith sep (y :: r')).
    rewrite forallb_app, Hx. cbn [forallb andb]. now rewrite Hs, IH.
Qed.

Lemma hydrateText_noCR x :
  forallb noCarriageReturn x = true ->
  normalizeNewlines (hydrateText x) = hydrateText x.
Proof.
  intros H. apply normalizeNewlines_id. unfold hydrateText.
  apply joinWith_forallb; [reflexivity|].
  rewrite Forall_map, Forall_forall. rewrite forallb_forall in H.
  intros e He. now apply hydrateLine_noCR, H.
Qed.

(** X4.  Writing an axis into a text area and reading the value of
    the text area back gives the axis again, entry by entry and in
    order, for entries of a valid colour with or without a name that
    is neither empty nor a valid colour, whose strings are trimmed, do
    not end with a comma and hold no colon, semicolon, line feed or
    carriage return (which a text area gives back as a line feed). *)
Theorem hydrateText_round_trip x :
  isValid [] = false -> Forall restorable x ->
  forallb noCarriageReturn x = true ->
  getInputData (normalizeNewlines (hydrateText x)) = x
  /\ (forall y p q,
        hydrateForm (Some x) y p = Ok q -> getInputData (xInput q) = x).
Proof.
  intros Hv Hr Hc.
  assert (E : getInputData (normalizeNewlines (hydrateText x)) = x).
  { rewrite (hydrateText_noCR x Hc). now apply getInputData_hydrateText. }
  split; [exact E|].
  intros y p q. unfold hydrateForm.
  destruct (negb (jseqb (stringifyAxis (Some x)) (stringifyAxis y))).
  - destruct y as [y|]; [|discriminate]. intros [= <-]. exact E.
  - intros [= <-]. exact E.
Qed.

(** X5.  The text that [hydrateForm] writes for the axis read from a
    text reads back as that same axis, whenever no kept name or colour
    ends with a comma: reading, writing and reading again changes
    nothing. *)
Theorem getInputData_hydrate_stable text :
  isValid [] = false ->
  forallb noFinalComma (getInputData text) = true ->
  getInputData (hydrateText (getInputData text)) = getInputData text.
Proof.
  intros Hv Hc. apply getInputData_hydrateText; [exact Hv|].
  rewrite Forall_forall. intros e He.
  apply (getInputData_restorable text e He).
  rewrite forallb_forall in Hc. now apply Hc.
Qed.

Lemma trim_snoc_comma s :
  trim s = s -> trim (s ++ [COMMA]) = s ++ [COMMA].
Proof.
  intros H. unfold trim.
  assert (Hl : noLeadingWS (s ++ [COMMA])).
  { assert (Hs : noLeadingWS s).
    { rewrite <- H. apply trimEnd_noLeading, trimStart_noLeading. }
    destruct s; [reflexivity|exact Hs]. }
  rewrite (trimStart_fix _ Hl). apply trimEnd_fix.
  unfold noTrailingWS. rewrite rev_app_distr. reflexivity.
Qed.

Lemma no_semicolon_snoc_comma s :
  ~ In SEMICOLON s -> ~ In SEMICOLON (s ++ [COMMA]).
Proof.
  intros H. rewrite in_app_iff. intros [Hs|[E|[]]]; [auto|discriminate].
Qed.

Lemma cleanItem_final_comma s :
  plainString s -> cleanItem (s ++ [COMMA]) = s.
Proof.
  intros H. pose proof (plainString_no SEMICOLON s H) as Hs.
  destruct H as [Ht [Hc _]]. unfold cleanItem.
  rewrite removeSemicolonRuns_id, (trim_snoc_comma s Ht),
    removeFinalComma_snoc; [exact Ht|].
  apply no_semicolon_snoc_comma, Hs. right. now left.
Qed.

Lemma cleanItem_two_final_commas s :
  plainString s -> cleanItem ((s ++ [COMMA]) ++ [COMMA]) = s ++ [COMMA].
Proof.
  intros H. pose proof (plainString_no SEMICOLON s H) as Hs.
  destruct H as [Ht [Hc _]]. unfold cleanItem.
  pose proof (trim_snoc_comma s Ht) as H1.
  rewrite removeSemicolonRuns_id, (trim_snoc_comma _ H1),
    removeFinalComma_snoc; [exact H1|].
  apply no_semicolon_snoc_comma, no_semicolon_snoc_comma, Hs.
  right. now left.
Qed.

Lemma getInputData_one_line line :
  ~ In LF line -> getInputData line = lineEntries line.
Proof.
  intros H. rewrite getInputData_flat_map, (split_plain LF line H).
  cbn [flat_map]. apply app_nil_r.
Qed.

(** X6.  A final comma does not survive the text area.  A line whose
    name ends with two commas is read with a name ending with one
    (cleaning takes one comma away); written back by [hydrateForm] and
    read again, the name has lost that comma too, so the axis read
    from the hydrated text is not the axis that was written. *)
Theorem hydrateText_drops_final_comma n c :
  plainString n -> plainString c ->
  isValid c = true -> isValid n = false -> n <> [] ->
  isValid (n ++ [COMMA]) = false ->
  let text := ((n ++ [COMMA]) ++ [COMMA]) ++ COLON :: c in
  getInputData text = [[(Kname, n ++ [COMMA]); (Kcolor, c)]]
  /\ getInputData (hydrateText (getInputData text))
     = [[(Kname, n); (Kcolor, c)]].
Proof.
  intros Hpn Hpc Hv Hn Hne Hn' text.
  assert (HnC : ~ In COLON n) by (apply (plainString_no COLON n Hpn); now left).
  assert (HcC : ~ In COLON c) by (apply (plainString_no COLON c Hpc); now left).
  assert (HnL : ~ In LF n)
    by (apply (plainString_no LF n Hpn); right; right; now left).
  assert (HcL : ~ In LF c)
    by (apply (plainString_no LF c Hpc); right; right; now left).
  assert (H1 : getInputData text = [[(Kname, n ++ [COMMA]); (Kcolor, c)]]).
  { rewrite getInputData_one_line.
    - destruct (lineEntries_cases text) as [_ H2].
      rewrite (H2 ((n ++ [COMMA]) ++ [COMMA]) c []).
      + rewrite (cleanItem_plain c Hpc), (cleanItem_two_final_commas n Hpn),
          Hv, Hn'.
        destruct n; reflexivity.
      + unfold text. rewrite split_app, !split_plain; [reflexivity|exact HcC|].
        rewrite !in_app_iff.
        intros [[H|[E|[]]]|[E|[]]]; [auto|discriminate|discriminate].
    - unfold text. rewrite !in_app_iff.
      intros [[[H|[E|[]]]|[E|[]]]|[E|H]]; try discriminate; auto. }
  split; [exact H1|]. rewrite H1.
  unfold hydrateText. cbn [map URLSearchParams.joinWith].
  rewrite hydrateLine_named, getInputData_one_line.
  - destruct (lineEntries_cases ((n ++ [COMMA]) ++ COLON :: 32 :: 32 :: c))
      as [_ H2].
    rewrite (H2 (n ++ [COMMA]) (32 :: 32 :: c) []).
    + rewrite !cleanItem_space, (cleanItem_plain c Hpc),
        (cleanItem_final_comma n Hpn), Hv, Hn.
      destruct n; [congruence|reflexivity].
    + rewrite split_app, !split_plain; [reflexivity| |].
      * intros [E|[E|H]]; [discriminate|discriminate|auto].
      * rewrite in_app_iff. intros [H|[E|[]]]; [auto|discriminate].
  - rewrite !in_app_iff.
    intros [[H|[E|[]]]|[E|[E|[E|H]]]]; try discriminate; auto.
Qed.

(* ----------------------------------------------------------------- *)
(** ** Comments *)

Lemma removeSemicolonRuns_in_match s :
  forallb (fun c => negb (isLineTerminator c)) s = true ->
  removeSemicolonRuns true s = [].
Proof.
  induction s as [|c r IH]; intros H; [reflexivity|].
  cbn [forallb] in H. apply andb_true_iff in H as [H1 H2].
  apply negb_true_iff in H1. cbn [removeSemicolonRuns]. rewrite H1.
  now apply IH.
Qed.

Lemma removeSemicolonRuns_comment s comment : forall b,
  forallb (fun c => negb (isLineTerminator c)) comment = true ->
  removeSemicolonRuns b (s ++ SEMICOLON :: comment)
  = removeSemicolonRuns b s.
Proof.
  induction s as [|c r IH]; intros b H.
  - cbn [app removeSemicolonRuns].
    change (isLineTerminator SEMICOLON) with false.
    change (SEMICOLON =? SEMICOLON) with true.
    destruct b; now apply removeSemicolonRuns_in_match.
  - cbn [app removeSemicolonRuns].
    destruct b; [destruct (isLineTerminator c)|destruct (c =? SEMICOLON)];
      now rewrite IH.
Qed.

Lemma cleanItem_comment s comment :
  forallb (fun c => negb (isLineTerminator c)) comment = true ->
  cleanItem (s ++ SEMICOLON :: comment) = cleanItem s.
Proof.
  intros H. unfold cleanItem. now rewrite removeSemicolonRuns_comment.
Qed.

Lemma split_app_last sep s t :
  ~ In sep t ->
  split sep (s ++ t)
  = removelast (split sep s) ++ [last (split sep s) [] ++ t].
Proof.
  intros Ht. induction s as [|c r IH].
  - cbn [app split removelast last]. now apply split_plain.
  - cbn [app split]. rewrite IH.
    destruct (split sep r) as [|seg segs] eqn:E;
      [now destruct (split_nonempty sep r)|].
    destruct (c =? sep).
    + reflexivity.
    + destruct segs as [|seg' segs']; reflexivity.
Qed.

(** X26.  What follows a semicolon on a line is a comment: appended
    to a line, a semicolon and any text without colon and without line
    terminator leaves the entry of the line as it is.  A colon in the
    comment is not covered by this: it still separates segments, and a
    line without colon followed by a semicolon, a colon and a text
    that is not a valid colour gives no entry, whatever the line
    holds. *)
Theorem lineEntries_comment line comment :
  (~ In COLON comment ->
   forallb (fun c => negb (isLineTerminator c)) comment = true ->
   lineEntries (line ++ SEMICOLON :: comment) = lineEntries line)
  /\ (~ In COLON line -> ~ In COLON comment ->
      isValid (cleanItem comment) = false ->
      lineEntries (line ++ SEMICOLON :: COLON :: comment) = []).
Proof.
  split.
  - intros Hc Hl.
    assert (Hs : ~ In COLON (SEMICOLON :: comment))
      by (intros [E|H]; [discriminate|auto]).
    pose proof (split_app_last COLON line _ Hs) as E.
    destruct (lineEntries_cases line) as [A1 A2].
    destruct (lineEntries_cases (line ++ SEMICOLON :: comment)) as [B1 B2].
    destruct (split COLON line) as [|s1 [|s2 [|s3 rest]]] eqn:El.
    + now destruct (split_nonempty COLON line).
    + cbn [removelast last app] in E.
      rewrite (B1 _ E), (A1 _ eq_refl). now rewrite cleanItem_comment.
    + cbn [removelast last app] in E.
      rewrite (B2 _ _ _ E), (A2 _ _ _ eq_refl).
      now rewrite cleanItem_comment.
    + change (removelast (s1 :: s2 :: s3 :: rest))
        with (s1 :: s2 :: removelast (s3 :: rest)) in E.
      cbn [app] in E.
      now rewrite (B2 _ _ _ E), (A2 _ _ _ eq_refl).
  - intros Hl Hc Hv.
    destruct (lineEntries_cases (line ++ SEMICOLON :: COLON :: comment))
      as [_ B2].
    rewrite (B2 (line ++ [SEMICOLON]) comment []).
    + now rewrite Hv.
    + change (line ++ SEMICOLON :: COLON :: comment)
        with (line ++ [SEMICOLON] ++ COLON :: comment).
      rewrite app_assoc, split_app, !split_plain; [reflexivity|exact Hc|].
      rewrite in_app_iff. intros [H|[E|[]]]; [auto|discriminate].
Qed.

End HydrateFacts.

(* ----------------------------------------------------------------- *)
(** ** The threshold *)

Lemma isTd_setCellContrastNode t n :
  isTd (setCellContrastNode t n) = isTd n.
Proof. now destruct n. Qed.

Lemma textContent_setCellContrastNode t n :
  textContent (setCellContrastNode t n) = textContent n.
Proof.
  induction n as [data|name attrs flag children IH] using Node_induction;
    [reflexivity|].
  cbn [setCellContrastNode textContent].
  induction IH as [|c r Hc Hr IHr]; [reflexivity|].
  cbn [map flat_map]. now rewrite Hc, IHr.
Qed.

Lemma setCellContrastNode_again t1 t2 n :
  setCellContrastNode t2 (setCellContrastNode t1 n)
  = setCellContrastNode t2 n.
Proof.
  induction n as [data|name attrs flag children IH] using Node_induction;
    [reflexivity|].
  assert (Hc : map (setCellContrastNode t2)
                 (map (setCellContrastNode t1) children)
               = map (setCellContrastNode t2) children).
  { induction IH as [|c r Hc Hr IHr]; [reflexivity|].
    cbn [map]. now rewrite Hc, IHr. }
  pose proof (textContent_setCellContrastNode t1
                (Element name attrs flag children)) as Ht.
  cbn [setCellContrastNode textContent] in Ht.
  cbn [setCellContrastNode isTd]. unfold belowContrast.
  cbn [textContent]. rewrite Ht, Hc.
  destruct (jseqb name (lit "td"%string)); reflexivity.
Qed.


Lemma setCellContrastTable_again t1 t2 content :
  setCellContrastTable t2 (setCellContrastTable t1 content)
  = setCellContrastTable t2 content.
Proof.
  unfold setCellContrastTable. rewrite map_map. apply map_ext.
  intros n. apply setCellContrastNode_again.
Qed.


Lemma lt_monotone v t t' :
  (t <= t')%Q ->
  Number.lt v (Finite t) = true -> Number.lt v (Finite t') = true.
Proof.
  intros Hle. destruct v as [|q|neg]; cbn [Number.lt]; [easy| |easy].
  rewrite !Qltb_lt. intros H. eapply Qlt_le_trans; eassumption.
Qed.

Lemma lt_NaN v : Number.lt v NaN = false.
Proof. now destruct v. Qed.

Lemma tdFlags_monotone t t' n :
  (t <= t')%Q ->
  Forall2 Bool.le (tdFlags (setCellContrastNode (Finite t) n))
                  (tdFlags (setCellContrastNode (Finite t') n)).
Proof.
  intros Hle.
  induction n as [data|name attrs flag children IH] using Node_induction;
    [constructor|].
  cbn [setCellContrastNode tdFlags]. apply Forall2_app.
  - cbn [isTd]. destruct (jseqb name (lit "td"%string)); [|constructor].
    constructor; [|constructor].
    destruct (belowContrast (Finite t) (Element name attrs flag children))
      eqn:E; [|exact I].
    cbn [Bool.le]. revert E. apply lt_monotone. exact Hle.
  - induction IH as [|c r Hc Hr IHr]; [constructor|].
    cbn [map flat_map]. now apply Forall2_app.
Qed.

Lemma tdFlags_NaN n :
  Forall (fun flag => flag = false) (tdFlags (setCellContrastNode NaN n)).
Proof.
  induction n as [data|name attrs flag children IH] using Node_induction;
    [constructor|].
  cbn [setCellContrastNode tdFlags]. apply Forall_app. split.
  - cbn [isTd]. destruct (jseqb name (lit "td"%string)); [|constructor].
    constructor; [apply lt_NaN|constructor].
  - induction IH as [|c r Hc Hr IHr]; [constructor|].
    cbn [map flat_map]. apply Forall_app. now split.
Qed.

(** X8.  Raising the threshold never clears a flag: a cell flagged
    under a threshold is flagged under every larger one, whatever the
    text of the cell and wherever it is in the container.  Under a
    threshold that is not a number no cell is flagged. *)
Theorem setCellContrast_monotone (content : list Node) :
  (forall t t', (t <= t')%Q ->
     Forall2 Bool.le
       (flags (setCellContrastTable (Finite t) content))
       (flags (setCellContrastTable (Finite t') content)))
  /\ Forall (fun flag => flag = false)
       (flags (setCellContrastTable NaN content)).
Proof.
  unfold flags, setCellContrastTable. split.
  - intros t t' Hle. induction content as [|n r IH]; [constructor|].
    cbn [map flat_map]. apply Forall2_app; [|exact IH].
    now apply tdFlags_monotone.
  - induction content as [|n r IH]; [constructor|].
    cbn [map flat_map]. apply Forall_app. split; [|exact IH].
    apply tdFlags_NaN.
Qed.

(* ----------------------------------------------------------------- *)
(** ** Rounding to a double keeps the order *)








Section DoubleOrder.
Local Open Scope Q_scope.









End DoubleOrder.



(* ----------------------------------------------------------------- *)
(** ** The text of a cell, copied *)

Lemma trimStart_app_whitespace pre s :
  forallb isWhiteSpace pre = true -> trimStart (pre ++ s) = trimStart s.
Proof.
  induction pre as [|c r IH]; intros H; [reflexivity|].
  cbn [forallb] in H. apply andb_true_iff in H as [H1 H2].
  cbn [app trimStart]. rewrite H1. now apply IH.
Qed.

Lemma trim_padded pre post s :
  forallb isWhiteSpace pre = true -> forallb isWhiteSpace post = true ->
  noLeadingWS s -> noTrailingWS s ->
  trim (pre ++ s ++ post) = s.
Proof.
  intros Hpre Hpost Hl Ht. unfold trim.
  rewrite (trimStart_app_whitespace pre _ Hpre).
  destruct s as [|c r].
  - cbn [app]. rewrite (trimStart_whitespace post Hpost). reflexivity.
  - assert (E : trimStart ((c :: r) ++ post) = (c :: r) ++ post).
    { apply trimStart_fix. exact Hl. }
    rewrite E. unfold trimEnd. rewrite rev_app_distr.
    rewrite trimStart_app_whitespace
      by (rewrite forallb_forall in *; intros z Hz; apply Hpost;
          now apply in_rev).
    rewrite (trimStart_fix _ Ht). apply rev_involutive.
Qed.

Lemma isDigit_not_whitespace c :
  JSON.isDigit c = true -> isWhiteSpace c = false.
Proof.
  unfold JSON.isDigit, inRange. intros H. apply andb_true_iff in H.
  unfold isWhiteSpace, isLineTerminator.
  repeat (apply orb_false_iff; split); lia.
Qed.

Lemma hundredths_nonneg r : (0 <= r)%Q -> 0 <= hundredths r.
Proof.
  intros Hr. unfold hundredths. change 0 with (Qfloor 0).
  apply Qfloor_resp_le.
  apply Qle_trans with (r * 100)%Q.
  - apply Qmult_le_0_compat; [exact Hr|discriminate].
  - rewrite <- (Qplus_0_r (r * 100)) at 1.
    apply Qplus_le_r. discriminate.
Qed.

Lemma in_firstn_list {A : Type} k (l : list A) c :
  In c (firstn k l) -> In c l.
Proof.
  intros H. rewrite <- (firstn_skipn k l). apply in_or_app. now left.
Qed.

Lemma in_skipn_list {A : Type} k (l : list A) c :
  In c (skipn k l) -> In c l.
Proof.
  intros H. rewrite <- (firstn_skipn k l). apply in_or_app. now right.
Qed.

Lemma toFixed2_no_whitespace x c :
  In c (toFixed2 x) -> isWhiteSpace c = false.
Proof.
  unfold toFixed2.
  set (x' := if Qltb x 0 then (- x)%Q else x).
  assert (Hx' : (0 <= x')%Q).
  { unfold x'. destruct (Qltb x 0) eqn:E.
    - apply Qltb_lt in E. apply Qlt_le_weak in E.
      apply Qopp_le_compat in E. exact E.
    - apply Qnot_lt_le. intros H. apply Qltb_lt in H. congruence. }
  destruct (digits_spec _ (hundredths_nonneg x' Hx')) as [_ [Hd _]].
  destruct (padTo3_spec _ Hd) as [_ [Pd _]].
  set (m := padTo3 (digits (hundredths x'))) in *.
  rewrite forallb_forall in Pd.
  rewrite !in_app_iff. intros [H|[H|[<-|H]]].
  - destruct (Qltb x 0); [|easy]. destruct H as [<-|[]]. reflexivity.
  - apply isDigit_not_whitespace, Pd. eapply in_firstn_list. exact H.
  - reflexivity.
  - apply isDigit_not_whitespace, Pd. eapply in_skipn_list. exact H.
Qed.

Lemma trim_cellText x : trim (cellText (toFixed2 x)) = toFixed2 x.
Proof.
  unfold cellText, indent.
  change (LF :: repeat 32 10 ++ toFixed2 x ++ LF :: repeat 32 8)
    with ((LF :: repeat 32 10) ++ toFixed2 x ++ LF :: repeat 32 8).
  apply trim_padded; try reflexivity.
  - destruct (toFixed2 x) as [|c r] eqn:E; [exact I|].
    apply (toFixed2_no_whitespace x). rewrite E. now left.
  - unfold noTrailingWS.
    destruct (rev (toFixed2 x)) as [|c r] eqn:E; [exact I|].
    apply (toFixed2_no_whitespace x). apply in_rev. rewrite E. now left.
Qed.

(** X11.  A click on a [td] copies the text of that element, trimmed,
    and a click on anything else copies nothing.  So a click on a
    cell whose text is the one [buildTableTds] writes for a ratio
    copies that ratio to two decimals, without the line breaks and the
    indentation around it in the markup; and a click on a [td] without
    text, as the first cell of the header row is, copies the empty
    string. *)
Theorem copyOnClick_copies_shown_ratio (r : Q) (target : Node) :
  (isTd target = false -> copyOnClick target = None)
  /\ (isTd target = true ->
      copyOnClick target = Some (trim (textContent target)))
  /\ (isTd target = true ->
      textContent target = cellText (toFixed2 r) ->
      copyOnClick target = Some (toFixed2 r))
  /\ (isTd target = true -> textContent target = [] ->
      copyOnClick target = Some []).
Proof.
  unfold copyOnClick. repeat split; intros H; rewrite H; try reflexivity.
  - intros ->. now rewrite trim_cellText.
  - now intros ->.
Qed.


(* ----------------------------------------------------------------- *)
(** ** The tags of the markup *)

Lemma noTag_In s : noTag s = true -> ~ In 60 s.
Proof.
  unfold noTag. rewrite forallb_forall. intros H I.
  specialize (H 60 I). discriminate.
Qed.

Lemma occurrences_skip c0 p a b :
  ~ In c0 a ->
  occurrences (c0 :: p) (a ++ b) = occurrences (c0 :: p) b.
Proof.
  induction a as [|c r IH]; intros H; [reflexivity|].
  cbn [app occurrences startsWith].
  assert (E : (c0 =? c) = false).
  { apply Z.eqb_neq. intros ->. apply H. now left. }
  rewrite E. cbn [andb]. apply IH. intros I. apply H. now right.
Qed.

Lemma toFixed2_digits r c :
  In c (toFixed2 r) -> c = 45 \/ c = 46 \/ 48 <= c <= 57.
Proof.
  unfold toFixed2.
  set (x := if Qltb r 0 then Qopp r else r).
  assert (Hx : (0 <= x)%Q).
  { unfold x. destruct (Qltb r 0) eqn:E.
    - apply Qltb_lt in E. lra.
    - destruct (Qlt_le_dec r 0) as [H|H]; [|exact H].
      apply Qltb_lt in H. congruence. }
  assert (Hh : 0 <= hundredths x).
  { unfold hundredths. change 0 with (Qfloor 0).
    apply Qfloor_resp_le. lra. }
  destruct (digits_spec _ Hh) as [_ [Hd _]].
  destruct (padTo3_spec _ Hd) as [_ [Pd _]].
  set (m := padTo3 (digits (hundredths x))) in *.
  assert (Hm : forall d, In d m -> 48 <= d <= 57).
  { intros d I. rewrite forallb_forall in Pd. specialize (Pd d I).
    unfold JSON.isDigit, inRange in Pd. apply andb_true_iff in Pd. lia. }
  intros I. apply in_app_or in I as [I|I].
  - destruct (Qltb r 0); [|contradiction].
    destruct I as [<-|[]]. now left.
  - apply in_app_or in I as [I|[<-|I]].
    + right. right. apply Hm.
      rewrite <- (firstn_skipn (length m - 2) m). apply in_or_app. now left.
    + right. now left.
    + right. right. apply Hm.
      rewrite <- (firstn_skipn (length m - 2) m). apply in_or_app. now right.
Qed.

Lemma toFixed2_no_tag r : ~ In 60 (toFixed2 r).
Proof. intros I. apply toFixed2_digits in I. lia. Qed.

Lemma obj_get_member k e s : obj_get k e = Some s -> In s (map snd e).
Proof.
  induction e as [|[k' v] r IH]; [discriminate|].
  cbn [obj_get map snd]. destruct (key_eqb k' k).
  - intros [= ->]. now left.
  - intros H. right. now apply IH.
Qed.

Ltac literals :=
  repeat match goal with
         | |- context [lit ?s] =>
             let v := eval vm_compute in (lit s) in change (lit s) with v
         | |- context [litq ?s] =>
             let v := eval vm_compute in (litq s) in change (litq s) with v
         | |- context [indent ?k] =>
             let v := eval vm_compute in (indent k) in change (indent k) with v
         end.

Ltac count_step :=
  first
    [ rewrite occurrences_skip by auto
    | rewrite <- app_assoc
    | progress cbn [app occurrences startsWith Z.eqb Pos.eqb andb LF] ].

Section MarkupShape.
Context {CM : ColorMath}.

Lemma markupFree_tagless e : markupFree e = true -> tagless e.
Proof.
  unfold markupFree. intros H.
  apply andb_true_iff in H as [H H3]. apply andb_true_iff in H as [H1 H2].
  split; [|split; now apply noTag_In].
  intros k s G. apply noTag_In. apply obj_get_member in G.
  apply in_map_iff in G as [[k' v] [E I]]. cbn [snd] in E. subst v.
  rewrite forallb_forall in H1. exact (H1 _ I).
Qed.

Lemma markupFree_all l :
  forallb markupFree l = true -> Forall tagless l.
Proof.
  intros H. apply Forall_forall. intros e I.
  apply markupFree_tagless. rewrite forallb_forall in H. now apply H.
Qed.

Lemma buildTableTds_app x1 x2 c :
  buildTableTds (x1 ++ x2) c = buildTableTds x1 c ++ buildTableTds x2 c.
Proof. unfold buildTableTds. now rewrite map_app, concat_app. Qed.

Lemma buildDataRows_app x y1 y2 :
  buildDataRows x (y1 ++ y2) = buildDataRows x y1 ++ buildDataRows x y2.
Proof. unfold buildDataRows. now rewrite map_app, concat_app. Qed.

Lemma td_in_cell d c rest :
  tagless d -> ~ In 60 (toHexString c) ->
  occurrences [60; 116; 100] (buildTableTds [d] c ++ rest)
  = S (occurrences [60; 116; 100] rest).
Proof.
  intros (_ & Hd1 & Hd2) Hc.
  pose proof (toFixed2_no_tag (readability (obj_get Kcolor d) c)) as Hf.
  unfold buildTableTds, cellText. cbn [map concat]. rewrite app_nil_r.
  literals. repeat count_step. reflexivity.
Qed.

Lemma tr_in_cell d c rest :
  tagless d -> ~ In 60 (toHexString c) ->
  occurrences [60; 116; 114] (buildTableTds [d] c ++ rest)
  = occurrences [60; 116; 114] rest.
Proof.
  intros (_ & Hd1 & Hd2) Hc.
  pose proof (toFixed2_no_tag (readability (obj_get Kcolor d) c)) as Hf.
  unfold buildTableTds, cellText. cbn [map concat]. rewrite app_nil_r.
  literals. repeat count_step. reflexivity.
Qed.

Lemma td_in_cells x c rest :
  Forall tagless x -> ~ In 60 (toHexString c) ->
  occurrences [60; 116; 100] (buildTableTds x c ++ rest)
  = (length x + occurrences [60; 116; 100]%Z rest)%nat.
Proof.
  intros Hx Hc. induction Hx as [|d x Hd _ IH]; [reflexivity|].
  change (d :: x) with ([d] ++ x).
  rewrite buildTableTds_app, <- app_assoc, (td_in_cell d c _ Hd Hc), IH.
  reflexivity.
Qed.

Lemma tr_in_cells x c rest :
  Forall tagless x -> ~ In 60 (toHexString c) ->
  occurrences [60; 116; 114] (buildTableTds x c ++ rest)
  = occurrences [60; 116; 114] rest.
Proof.
  intros Hx Hc. induction Hx as [|d x Hd _ IH]; [reflexivity|].
  change (d :: x) with ([d] ++ x).
  now rewrite buildTableTds_app, <- app_assoc, (tr_in_cell d c _ Hd Hc), IH.
Qed.

Ltac entry_strings e H :=
  let n := fresh "n" in
  let c := fresh "c" in
  let En := fresh "En" in
  let Ec := fresh "Ec" in
  unfold colorNameMarkup, obj_has;
  destruct (obj_get Kname e) as [n|] eqn:En;
  destruct (obj_get Kcolor e) as [c|] eqn:Ec;
  cbn [templateString];
  try pose proof (H Kname _ En);
  try pose proof (H Kcolor _ Ec).

Lemma td_in_row x e rest :
  Forall tagless x -> tagless e ->
  occurrences [60; 116; 100] (buildDataRows x [e] ++ rest)
  = (length x + occurrences [60; 116; 100]%Z rest)%nat.
Proof.
  intros Hx (He & He1 & He2).
  unfold buildDataRows. cbn [map concat]. rewrite app_nil_r.
  entry_strings e He; literals;
    repeat first [rewrite td_in_cells by assumption | count_step];
    reflexivity.
Qed.

Lemma tr_in_row x e rest :
  Forall tagless x -> tagless e ->
  occurrences [60; 116; 114] (buildDataRows x [e] ++ rest)
  = S (occurrences [60; 116; 114] rest).
Proof.
  intros Hx (He & He1 & He2).
  unfold buildDataRows. cbn [map concat]. rewrite app_nil_r.
  entry_strings e He; literals;
    repeat first [rewrite tr_in_cells by assumption | count_step];
    reflexivity.
Qed.

Lemma td_in_rows x y rest :
  Forall tagless x -> Forall tagless y ->
  occurrences [60; 116; 100] (buildDataRows x y ++ rest)
  = (length y * length x + occurrences [60; 116; 100]%Z rest)%nat.
Proof.
  intros Hx Hy. induction Hy as [|e y He _ IH]; [reflexivity|].
  change (e :: y) with ([e] ++ y).
  rewrite buildDataRows_app, <- app_assoc, (td_in_row x e _ Hx He), IH.
  cbn [length app]. lia.
Qed.

Lemma tr_in_rows x y rest :
  Forall tagless x -> Forall tagless y ->
  occurrences [60; 116; 114] (buildDataRows x y ++ rest)
  = (length y + occurrences [60; 116; 114]%Z rest)%nat.
Proof.
  intros Hx Hy. induction Hy as [|e y He _ IH]; [reflexivity|].
  change (e :: y) with ([e] ++ y).
  rewrite buildDataRows_app, <- app_assoc, (tr_in_row x e _ Hx He), IH.
  reflexivity.
Qed.

Lemma buildHeaderRow_tags x rest :
  Forall tagless x ->
  occurrences [60; 116; 100] (buildHeaderRow x ++ rest)
  = S (occurrences [60; 116; 100] rest)
  /\ occurrences [60; 116; 114] (buildHeaderRow x ++ rest)
     = S (occurrences [60; 116; 114] rest).
Proof.
  intros Hx. unfold buildHeaderRow. cbv zeta.
  match goal with
  | |- context [concat (map ?f x)] => set (cell := f)
  end.
  assert (Hcells : forall p tail,
            p = 100 \/ p = 114 ->
            occurrences [60; 116; p] (concat (map cell x) ++ tail)
            = occurrences [60; 116; p] tail).
  { intros p tail Hp. induction Hx as [|e x (He & He1 & He2) _ IH];
      [reflexivity|].
    cbn [map concat]. rewrite <- app_assoc.
    etransitivity; [|exact IH].
    set (cells := concat _ ++ tail). unfold cell.
    destruct Hp as [-> | ->];
      entry_strings e He; literals; repeat count_step; reflexivity. }
  split.
  - literals. cbn [app occurrences startsWith Z.eqb Pos.eqb andb LF].
    rewrite <- app_assoc.
    rewrite (Hcells 100) by now left.
    repeat count_step. reflexivity.
  - literals. cbn [app occurrences startsWith Z.eqb Pos.eqb andb LF].
    rewrite <- app_assoc.
    rewrite (Hcells 114) by now right.
    repeat count_step. reflexivity.
Qed.

(** X27.  The shape of the markup for entries that bring no tag of
    their own.  When no name and no colour of the two axes holds a
    [<], and neither do the colours as the library writes them, the
    markup that [buildDataRows] returns opens one [tr] for each entry
    of the Y axis and, in it, one [td] for each entry of the X axis;
    the markup of [buildTable] has one more of each, the header row
    and its first cell.  Rows come in the order of the Y axis and
    cells in the order of the X axis: the markup for two lists one
    after the other is that of the first followed by that of the
    second. *)
Theorem buildTable_markup_shape (x y : list ColorEntry) :
  forallb markupFree x = true -> forallb markupFree y = true ->
  occurrences (lit "<tr"%string) (buildDataRows x y) = length y
  /\ occurrences (lit "<td"%string) (buildDataRows x y)
     = (length y * length x)%nat
  /\ occurrences (lit "<tr"%string) (buildTable x y) = S (length y)
  /\ occurrences (lit "<td"%string) (buildTable x y)
     = S (length y * length x)
  /\ (forall x1 x2 c,
        buildTableTds (x1 ++ x2) c
        = buildTableTds x1 c ++ buildTableTds x2 c)
  /\ (forall y1 y2,
        buildDataRows x (y1 ++ y2)
        = buildDataRows x y1 ++ buildDataRows x y2).
Proof.
  intros Hx Hy. apply markupFree_all in Hx, Hy.
  change (lit "<tr"%string) with [60; 116; 114].
  change (lit "<td"%string) with [60; 116; 100].
  pose proof (td_in_rows x y [] Hx Hy) as Htd.
  pose proof (tr_in_rows x y [] Hx Hy) as Htr.
  rewrite app_nil_r in Htd, Htr. cbn [occurrences startsWith] in Htd, Htr.
  split; [lia|]. split; [lia|].
  split; [|split; [|split; [apply buildTableTds_app|apply buildDataRows_app]]].
  - unfold buildTable. literals.
    cbn [app occurrences startsWith Z.eqb Pos.eqb andb LF].
    rewrite (proj2 (buildHeaderRow_tags x _ Hx)).
    cbn [app occurrences startsWith Z.eqb Pos.eqb andb LF].
    rewrite (tr_in_rows x y _ Hx Hy).
    cbn [app occurrences startsWith Z.eqb Pos.eqb andb LF]. lia.
  - unfold buildTable. literals.
    cbn [app occurrences startsWith Z.eqb Pos.eqb andb LF].
    rewrite (proj1 (buildHeaderRow_tags x _ Hx)).
    cbn [app occurrences startsWith Z.eqb Pos.eqb andb LF].
    rewrite (td_in_rows x y _ Hx Hy).
    cbn [app occurrences startsWith Z.eqb Pos.eqb andb LF]. lia.
Qed.

End MarkupShape.

(* ----------------------------------------------------------------- *)
(** ** The parameters under one name *)

Module ParamsMore.
Import URLSearchParams ParamsOps.

Lemma named_deleteUSV k l : filter (named k) (deleteUSV k l) = [].
Proof.
  induction l as [|q r IH]; [reflexivity|].
  unfold deleteUSV in *. cbn [filter].
  destruct (usv_eqb (fst q) k) eqn:E; cbn [negb filter]; [exact IH|].
  unfold named at 1. now rewrite E.
Qed.

Lemma named_setUSV k v l : filter (named k) (setUSV k v l) = [(k, v)].
Proof.
  induction l as [|[n w] r IH]; cbn [setUSV filter].
  - unfold named. cbn [fst]. now rewrite usv_eqb_refl.
  - destruct (usv_eqb n k) eqn:E; cbn [filter].
    + unfold named at 1. cbn [fst]. rewrite usv_eqb_refl.
      now rewrite named_deleteUSV.
    + unfold named at 1. cbn [fst]. now rewrite E.
Qed.

Lemma named_other k k' p :
  k <> k' -> usv_eqb (fst p) k = true -> named k' p = false.
Proof.
  intros N E. apply usv_eqb_eq in E. unfold named. rewrite E.
  destruct (usv_eqb k k') eqn:E'; [|reflexivity].
  apply usv_eqb_eq in E'. congruence.
Qed.

Lemma named_setUSV_other k k' v l :
  k <> k' -> filter (named k') (setUSV k v l) = filter (named k') l.
Proof. intros N. apply filter_setUSV. intros p. now apply named_other. Qed.

Lemma named_deleteUSV_other k k' l :
  k <> k' -> filter (named k') (deleteUSV k l) = filter (named k') l.
Proof. intros N. apply filter_deleteUSV. intros p. now apply named_other. Qed.

Lemma deleteUSV_fix k l : filter (named k) l = [] -> deleteUSV k l = l.
Proof.
  induction l as [|q r IH]; intros H; [reflexivity|].
  unfold deleteUSV in *. cbn [filter] in *. unfold named at 1 in H.
  destruct (usv_eqb (fst q) k); [discriminate|].
  cbn [negb]. now rewrite IH.
Qed.

Lemma setUSV_fix k v l : filter (named k) l = [(k, v)] -> setUSV k v l = l.
Proof.
  induction l as [|[n w] r IH]; intros H; [discriminate|].
  cbn [filter] in H. unfold named at 1 in H. cbn [fst] in H.
  cbn [setUSV]. destruct (usv_eqb n k) eqn:E.
  - injection H as -> -> Hr. now rewrite (deleteUSV_fix _ _ Hr).
  - now rewrite (IH H).
Qed.

Lemma getAll_named name l :
  getAll name l = map (fun p => ofUSV (snd p)) (filter (named (toUSV name)) l).
Proof. reflexivity. Qed.

End ParamsMore.

(* ----------------------------------------------------------------- *)
(** ** The functions of the page *)

Module PageMore.
Import URLSearchParams ParamsOps PageFacts ParamsMore.

Lemma setQueryParams_returns x y p :
  exists p', setQueryParams x y p = Ok p'.
Proof.
  destruct x as [[|a r]|]; [now exists p| |now exists p].
  destruct (setQueryParams_installs (a :: r) y p ltac:(discriminate))
    as [ps' [_ [H _]]].
  now exists (pushState (toString ps') p).
Qed.

Lemma updateParams_fixed x y ps ps' :
  updateParams x y ps = Ok ps' -> updateParams x y ps' = Ok ps'.
Proof.
  intros H.
  destruct (updateParams_cases x y ps)
    as [ex [Hex [[E1 E2]|[E1 [ey [Hey E2]]]]]];
    rewrite E2 in H; injection H as <-.
  - destruct (updateParams_cases x y
                (delete yAxisDataName (set xAxisDataName ex ps)))
      as [ex' [Hex' [[_ E3]|[N _]]]]; [|congruence].
    rewrite Hex in Hex'. injection Hex' as <-. rewrite E3. f_equal.
    unfold delete, set.
    rewrite (setUSV_fix (toUSV xAxisDataName) (toUSV ex)).
    + apply deleteUSV_fix, named_deleteUSV.
    + rewrite named_deleteUSV_other
        by (intros E; symmetry in E; now apply names_differ).
      apply named_setUSV.
  - destruct (updateParams_cases x y
                (set yAxisDataName ey (set xAxisDataName ex ps)))
      as [ex' [Hex' [[E _]|[_ [ey' [Hey' E3]]]]]]; [congruence|].
    rewrite Hex in Hex'. injection Hex' as <-.
    rewrite Hey in Hey'. injection Hey' as <-. rewrite E3. f_equal.
    unfold set.
    rewrite (setUSV_fix (toUSV xAxisDataName) (toUSV ex)).
    + apply setUSV_fix, named_setUSV.
    + rewrite named_setUSV_other
        by (intros E; symmetry in E; now apply names_differ).
      apply named_setUSV.
Qed.

(** X12.  Installing the same axes twice gives the same address: the
    query string that [setQueryParams] writes is one that it leaves as
    it is. *)
Theorem setQueryParams_address_stable (x y : list ColorEntry) (p : Page) :
  exists p1 p2,
    setQueryParams (Some x) y p = Ok p1
    /\ setQueryParams (Some x) y p1 = Ok p2
    /\ search p2 = search p1.
Proof.
  destruct x as [|a r]; [now exists p, p|].
  destruct (setQueryParams_installs (a :: r) y p ltac:(discriminate))
    as [ps' [Hu [Hs Hr]]].
  set (p1 := pushState (toString ps') p) in *.
  destruct (setQueryParams_installs (a :: r) y p1 ltac:(discriminate))
    as [ps2 [Hu2 [Hs2 _]]].
  rewrite Hr, (updateParams_fixed _ _ _ _ Hu) in Hu2. injection Hu2 as <-.
  exists p1, (pushState (toString ps') p1). now repeat split.
Qed.

(** X13.  Whatever the address held before, also several parameters
    of the same name, the address that [setQueryParams] installs for a
    non-empty X axis has one [xAxisData] parameter, the encoded JSON
    text of [x], and at most one [yAxisData] parameter. *)
Theorem setQueryParams_single_parameters
  (x y : list ColorEntry) (p : Page) :
  x <> [] -> wf_axis x ->
  exists p' ex,
    setQueryParams (Some x) y p = Ok p'
    /\ encodeURIComponent (JSON.stringifyEntries x) = Ok ex
    /\ getAll xAxisDataName (ofString (search p')) = [ex]
    /\ (length (getAll yAxisDataName (ofString (search p'))) <= 1)%nat.
Proof.
  intros Hne Hx.
  destruct (setQueryParams_installs x y p Hne) as [ps' [Hu [Hs Hr]]].
  destruct (StringifyFacts.axis_roundtrip x Hx) as [ex [Hex [Hax _]]].
  exists (pushState (toString ps') p), ex.
  split; [exact Hs|]. split; [exact Hex|]. rewrite Hr, !getAll_named.
  assert (Nxy : toUSV xAxisDataName <> toUSV yAxisDataName)
    by apply names_differ.
  assert (Nyx : toUSV yAxisDataName <> toUSV xAxisDataName)
    by (intros E; symmetry in E; now apply names_differ).
  assert (Eex : ofUSV (toUSV ex) = ex)
    by (rewrite toUSV_ascii by exact Hax; now apply ofUSV_ascii).
  destruct (updateParams_cases x y (ofString (search p)))
    as [ex' [Hex' [[E1 E2]|[E1 [ey [Hey E2]]]]]];
    rewrite Hex in Hex'; injection Hex' as <-;
    rewrite E2 in Hu; injection Hu as <-; unfold delete, set.
  - rewrite (named_deleteUSV_other _ _ _ Nyx), named_setUSV, named_deleteUSV.
    cbn [map snd length]. rewrite Eex. split; [reflexivity|lia].
  - rewrite (named_setUSV_other _ _ _ _ Nyx), !named_setUSV.
    cbn [map snd length]. rewrite Eex. split; [reflexivity|lia].
Qed.

Section PageFunctionsMore.
Context {CM : ColorMath} {HP : HTMLParser}.

(** What [writeTableToDOM] does to the page. *)
Lemma writeTableToDOM_spec x y b p :
  exists p',
    writeTableToDOM x y b p = Ok p'
    /\ xInput p' = xInput p /\ yInput p' = yInput p
    /\ contrast p' = contrast p
    /\ tableContainer p'
       = match x with
         | Some ((_ :: _) as x) =>
             setCellContrastTable (contrast p)
               (parseFragment (buildTable x y))
         | _ => setCellContrastTable (contrast p) (tableContainer p)
         end
    /\ (b = false -> search p' = search p /\ pushed p' = pushed p)
    /\ (b = true ->
        setQueryParams x y
          (setCellContrast (contrast p)
             match x with
             | Some ((_ :: _) as x) =>
                 withTable (parseFragment (buildTable x y)) p
             | _ => p
             end)
        = Ok p').
Proof.
  unfold writeTableToDOM.
  destruct x as [[|a r]|], b;
    try (eexists; split; [reflexivity|];
         repeat split; (reflexivity || discriminate)).
  set (p2 := setCellContrast
               (contrast (withTable (parseFragment (buildTable (a :: r) y)) p))
               (withTable (parseFragment (buildTable (a :: r) y)) p)).
  destruct (setQueryParams_installs (a :: r) y p2 ltac:(discriminate))
    as [ps' [_ [H _]]].
  exists (pushState (toString ps') p2). split; [exact H|].
  repeat split; try reflexivity; try discriminate. intros _. exact H.
Qed.

(** X14.  The statements of [setQueryParams] that encode the two axes
    and update the parameters never throw, whatever the names and the
    colours are: the text that [JSON.stringify] writes has no unpaired
    surrogate (it escapes them), so [encodeURIComponent] does not
    throw a URIError on it.  (The call of [pushState] that follows is
    not part of this statement.) *)
Theorem updateParams_returns (x y : list ColorEntry)
  (urlParams : URLSearchParams.t) :
  (exists e, encodeURIComponent (JSON.stringifyEntries x) = Ok e)
  /\ (exists urlParams', updateParams x y urlParams = Ok urlParams').
Proof.
  split; [apply encodeURIComponent_stringifyEntries|].
  destruct (updateParams_cases x y urlParams)
    as [ex [_ [[_ E]|[_ [ey [_ E]]]]]]; eauto.
Qed.

(** X15.  Without a valid colour in the X text, a submission writes no
    table and no address: the table of before stays, with its flags
    set again, and so do the address and the history.  The same holds
    for the reversal when the Y text is not blank but holds no valid
    colour, except that the two texts are exchanged: the text areas
    then no longer hold the axes of the table shown. *)
Theorem handlers_without_colours p :
  (getInputData (xInput p) = [] ->
   handleSubmit p = Ok (setCellContrast (contrast p) p))
  /\ (trim (yInput p) <> [] -> getInputData (yInput p) = [] ->
      reverseInputData p
      = Ok (setCellContrast (contrast p)
              (withInputs (yInput p) (xInput p) p))).
Proof.
  split.
  - intros H. unfold handleSubmit, writeTableToDOM. rewrite H. reflexivity.
  - intros Hy H. unfold reverseInputData.
    destruct (trim (yInput p)) as [|c r] eqn:E; [congruence|].
    cbn [length Nat.eqb]. unfold writeTableToDOM.
    cbn [withInputs xInput yInput]. rewrite H. reflexivity.
Qed.

(** X16.  A submission with a blank Y text takes the X axis for both
    axes: the table is that of the X axis against itself, and the
    address it installs has no [yAxisData] parameter. *)
Theorem handleSubmit_blank_y p :
  trim (yInput p) = [] -> getInputData (xInput p) <> [] ->
  exists p',
    handleSubmit p = Ok p'
    /\ tableContainer p'
       = setCellContrastTable (contrast p)
           (parseFragment
              (buildTable (getInputData (xInput p))
                          (getInputData (xInput p))))
    /\ has yAxisDataName (ofString (search p')) = false
    /\ xInput p' = xInput p /\ yInput p' = yInput p
    /\ pushed p' = S (pushed p).
Proof.
  intros Hy Hx. unfold handleSubmit. rewrite Hy. cbn [length Nat.ltb Nat.leb].
  set (x := getInputData (xInput p)) in *.
  destruct (writeTableToDOM_spec (Some x) x true p)
    as [p' [H [H1 [H2 [_ [H4 [_ H6]]]]]]].
  specialize (H6 eq_refl).
  exists p'. split; [exact H|].
  destruct x as [|a r] eqn:Ex; [congruence|].
  split; [exact H4|].
  match type of H6 with
  | setQueryParams _ _ ?q = _ =>
      destruct (setQueryParams_installs (a :: r) (a :: r) q
                  ltac:(discriminate)) as [ps' [Hu [Hs Hr]]];
      rewrite Hs in H6; injection H6 as <-
  end.
  rewrite Hr. split; [|now repeat split].
  match type of Hu with
  | updateParams _ _ ?ps = _ =>
      destruct (updateParams_cases (a :: r) (a :: r) ps)
        as [ex [_ [[_ E]|[N _]]]]; [|congruence]
  end.
  rewrite E in Hu. injection Hu as <-.
  now rewrite has_get, get_delete_same.
Qed.

Lemma keyOfString_keyString k : keyOfString (keyString k) = Some k.
Proof. now destruct k. Qed.

Lemma asEntry_ofEntry e :
  distinctKeys e = true -> asEntry (JSON.ofEntry e) = Some e.
Proof.
  intros H. unfold asEntry, JSON.ofEntry.
  assert (T : traverse
                (fun m : jsstring * JSON.json =>
                   match keyOfString (fst m), snd m with
                   | Some k, JSON.JStr s => Some (k, s)
                   | _, _ => None
                   end)
                (map (fun q => (keyString (fst q), JSON.JStr (snd q))) e)
              = Some e).
  { clear H. induction e as [|[k s] r IH]; [reflexivity|].
    cbn [map traverse fst snd]. rewrite keyOfString_keyString, IH.
    reflexivity. }
  rewrite T. cbn. now rewrite H.
Qed.

Lemma asAxis_ofEntries l :
  forallb distinctKeys l = true ->
  asAxis (JSON.ofEntries l) = Some (Some l).
Proof.
  intros H. unfold asAxis, JSON.ofEntries.
  assert (T : traverse asEntry (map JSON.ofEntry l) = Some l).
  { induction l as [|e r IH]; [reflexivity|].
    cbn [forallb] in H. apply andb_true_iff in H as [He Hr].
    cbn [map traverse]. rewrite (asEntry_ofEntry e He), (IH Hr).
    reflexivity. }
  now rewrite T.
Qed.

(** The axes that are read from the address [setQueryParams] has
    installed. *)
Lemma axes_installed (x y : list ColorEntry) (p : Page) :
  x <> [] -> wf_axis x -> wf_axis y ->
  exists p',
    setQueryParams (Some x) y p = Ok p'
    /\ axesFromQueryParams p' = Ok (JSON.ofEntries x, JSON.ofEntries y).
Proof.
  intros Hne Hx Hy.
  destruct (Codec.setQueryParams_params x y p Hne Hx Hy)
    as [p' [ex [H1 [H2 [_ [H3 [H4 H5]]]]]]].
  destruct (StringifyFacts.axis_roundtrip x Hx) as [ex' [Hex [_ Rx]]].
  rewrite H2 in Hex. injection Hex as <-.
  exists p'. split; [exact H1|].
  unfold axesFromQueryParams, getDataFromQueryParams.
  unfold readAxis at 1. unfold decodeValue at 1. rewrite H3, Rx.
  cbn [bind].
  destruct (list_eq_dec Z.eq_dec (JSON.stringifyEntries y)
              (JSON.stringifyEntries x)) as [E|N].
  - unfold readAxis. rewrite (H5 E).
    rewrite (StringifyFacts.stringifyEntries_injective y x Hy Hx E).
    reflexivity.
  - destruct (H4 N) as [ey [Hey [_ Gy]]].
    destruct (StringifyFacts.axis_roundtrip y Hy) as [ey' [Hey' [_ Ry]]].
    rewrite Hey in Hey'. injection Hey' as <-.
    unfold readAxis, decodeValue. rewrite Gy, Ry. reflexivity.
Qed.

Lemma hydrateForm_arrays x y p :
  wf_axis x -> wf_axis y ->
  exists q,
    hydrateForm (Some x) (Some y) p = Ok q
    /\ xInput q = normalizeNewlines (hydrateText x)
    /\ (x = y -> yInput q = yInput p)
    /\ (x <> y -> yInput q = normalizeNewlines (hydrateText y))
    /\ tableContainer q = tableContainer p /\ contrast q = contrast p
    /\ search q = search p /\ pushed q = pushed p.
Proof.
  intros Hx Hy. unfold hydrateForm. cbn [stringifyAxis].
  destruct (jseqb (JSON.stringifyEntries x) (JSON.stringifyEntries y)) eqn:E;
    cbn [negb]; eexists; (split; [reflexivity|]);
    cbn [withInputs xInput yInput tableContainer contrast search pushed];
    (split; [reflexivity|]); (split; [|split; [|now repeat split]]).
  - reflexivity.
  - intros N. apply jseqb_eq in E.
    now apply StringifyFacts.stringifyEntries_injective in E.
  - intros H. apply jseqb_neq in E. subst y. congruence.
  - reflexivity.
Qed.

Lemma popstate_after_setQueryParams (x y : list ColorEntry) (p : Page) :
  x <> [] -> wf_axis x -> wf_axis y ->
  forallb distinctKeys x = true -> forallb distinctKeys y = true ->
  exists p' p'',
    setQueryParams (Some x) y p = Ok p'
    /\ handlePopstate p' = Some (Ok p'')
    /\ xInput p'' = normalizeNewlines (hydrateText x)
    /\ (x = y -> yInput p'' = yInput p)
    /\ (x <> y -> yInput p'' = normalizeNewlines (hydrateText y))
    /\ tableContainer p''
       = setCellContrastTable (contrast p) (parseFragment (buildTable x y))
    /\ contrast p'' = contrast p
    /\ search p'' = search p' /\ pushed p'' = pushed p'.
Proof.
  intros Hne Hx Hy Dx Dy.
  destruct (axes_installed x y p Hne Hx Hy) as [p' [H1 H2]].
  assert (Hp' : xInput p' = xInput p /\ yInput p' = yInput p
                /\ contrast p' = contrast p).
  { destruct (setQueryParams_installs x y p Hne) as [ps' [_ [Hs _]]].
    rewrite Hs in H1. injection H1 as <-. now repeat split. }
  destruct Hp' as [_ [Ey Ec]].
  destruct (hydrateForm_arrays x y p' Hx Hy)
    as [q [Hq [Q1 [Q2 [Q3 [Q4 [Q5 [Q6 Q7]]]]]]]].
  destruct (writeTableToDOM_spec (Some x) y false q)
    as [p'' [Hw [W1 [W2 [W3 [W4 [W5 _]]]]]]].
  destruct (W5 eq_refl) as [W6 W7].
  exists p', p''. split; [exact H1|]. split.
  - unfold handlePopstate. rewrite H2.
    rewrite (asAxis_ofEntries x Dx), (asAxis_ofEntries y Dy), Hq.
    cbn [bind restoreTable]. now rewrite Hw.
  - split; [congruence|]. split; [intros E; rewrite W2, (Q2 E); exact Ey|].
    split; [intros N; now rewrite W2, (Q3 N)|].
    split; [|repeat split; congruence].
    rewrite W4. destruct x as [|a r]; [congruence|]. now rewrite Q5, Ec.
Qed.

(** X17.  The address that [setQueryParams] installs restores the
    page: on it, [handlePopstate] (and [init], which runs the same
    statements) fills the X text area with the lines of [x], fills the
    Y text area with the lines of [y] when the axes differ and leaves
    it alone when they are equal, and writes the markup of the table
    of [x] and [y] into the container, with the flags of the
    threshold, without touching the address or the history.  The
    values of the text areas are the lines as the text areas return
    them, a carriage return in a name being a line feed there. *)
Theorem handlePopstate_restores (x y : list ColorEntry) (p : Page) :
  x <> [] -> wf_axis x -> wf_axis y ->
  forallb distinctKeys x = true -> forallb distinctKeys y = true ->
  exists p' p'',
    setQueryParams (Some x) y p = Ok p'
    /\ handlePopstate p' = Some (Ok p'')
    /\ xInput p'' = normalizeNewlines (hydrateText x)
    /\ (x = y -> yInput p'' = yInput p)
    /\ (x <> y -> yInput p'' = normalizeNewlines (hydrateText y))
    /\ tableContainer p''
       = setCellContrastTable (contrast p) (parseFragment (buildTable x y))
    /\ contrast p'' = contrast p
    /\ search p'' = search p' /\ pushed p'' = pushed p'.
Proof. apply popstate_after_setQueryParams. Qed.

Lemma getInputData_wf text : wf_string text -> wf_axis (getInputData text).
Proof.
  intros Hw. unfold wf_axis, wf_entry. rewrite Forall_forall.
  intros e He. rewrite Forall_forall. intros q Hq.
  assert (Hs : In (snd q) (entryStrings e)) by now apply in_map.
  destruct (entry_strings_clean text e (snd q) He Hs) as [_ [_ Hi]].
  unfold wf_string in *. rewrite Forall_forall in *. intros c Hc.
  apply Hw, Hi, Hc.
Qed.

Lemma getInputData_distinctKeys text :
  forallb distinctKeys (getInputData text) = true.
Proof.
  rewrite forallb_forall. intros e He.
  destruct (entry_origin text e He) as [line [_ Hle]].
  destruct (lineEntries_shape line e Hle)
    as [[s1 [_ [-> _]]]|[s1 [s2 [_ [_ [-> _]]]]]]; reflexivity.
Qed.

(** X18.  The address written by a submission holds the table of that
    submission: when the X text has a valid colour and the two texts
    are strings of code units, [handlePopstate] on the page that
    [handleSubmit] leaves writes the very table that [handleSubmit]
    wrote, flags included, and leaves the address and the history as
    they are. *)
Theorem handleSubmit_then_handlePopstate p :
  wf_string (xInput p) -> wf_string (yInput p) ->
  getInputData (xInput p) <> [] ->
  exists p' p'',
    handleSubmit p = Ok p'
    /\ handlePopstate p' = Some (Ok p'')
    /\ tableContainer p'' = tableContainer p'
    /\ contrast p'' = contrast p'
    /\ search p'' = search p' /\ pushed p'' = pushed p'.
Proof.
  intros Wx Wy Hne. unfold handleSubmit.
  set (x := getInputData (xInput p)) in *.
  set (y := if (0 <? length (trim (yInput p)))%nat
            then getInputData (yInput p) else x).
  assert (Hx : wf_axis x) by now apply getInputData_wf.
  assert (Hy : wf_axis y)
    by (unfold y; destruct (0 <? length (trim (yInput p)))%nat;
        [now apply getInputData_wf|exact Hx]).
  assert (Dx : forallb distinctKeys x = true)
    by apply getInputData_distinctKeys.
  assert (Dy : forallb distinctKeys y = true)
    by (unfold y; destruct (0 <? length (trim (yInput p)))%nat;
        [apply getInputData_distinctKeys|exact Dx]).
  destruct (writeTableToDOM_spec (Some x) y true p)
    as [p' [Hw [_ [_ [W3 [W4 [_ W6]]]]]]].
  specialize (W6 eq_refl).
  match type of W6 with
  | setQueryParams _ _ ?q = _ =>
      destruct (popstate_after_setQueryParams x y q Hne Hx Hy Dx Dy)
        as [p1 [p'' [H1 [H2 [_ [_ [_ [H6 [H7 [H8 H9]]]]]]]]]]
  end.
  rewrite W6 in H1. injection H1 as <-.
  exists p', p''. split; [exact Hw|]. split; [exact H2|].
  clearbody x y. destruct x as [|a r]; [congruence|].
  split; [now rewrite H6, W4|]. split; [now rewrite H7, W3|].
  now split.
Qed.

Lemma axes_null p jx jy :
  axesFromQueryParams p = Ok (jx, jy) -> jy = JSON.JNull -> jx = JSON.JNull.
Proof.
  unfold axesFromQueryParams.
  destruct (getDataFromQueryParams p) as [[vx vy]|e]; [|discriminate].
  cbn [bind xAxisData yAxisData].
  destruct (truthy vy) eqn:T; intros [= <- <-] E; [|exact E].
  rewrite E in T. discriminate.
Qed.

Lemma asAxis_null v : asAxis v = Some None -> v = JSON.JNull.
Proof.
  destruct v; cbn [asAxis]; try discriminate; [reflexivity|].
  destruct (traverse asEntry elements); discriminate.
Qed.

Lemma traverse_asEntry_primitive elements :
  existsb isPrimitive elements = true -> traverse asEntry elements = None.
Proof.
  induction elements as [|v r IH]; [discriminate|].
  cbn [existsb traverse]. intros H. apply orb_true_iff in H as [H|H].
  - destruct v; try discriminate; reflexivity.
  - rewrite (IH H). destruct (asEntry v); reflexivity.
Qed.

(** X19.  When reading the axes from the address throws,
    [handlePopstate] throws the same exception.  When the axes read
    are [null] or arrays of entries, it returns: neither the hydration
    of the form nor the writing of the table throws then, and the
    TypeError of [hydrateForm] for a Y axis that is [null] beside an
    array for X does not arise, since a Y axis that is [null] is
    replaced by the X axis.  When the X axis read is an array with an
    element that is no object, and when it is an array of entries
    beside a Y axis that is neither [null] nor an array, it throws a
    TypeError.  On an address without [xAxisData] and [yAxisData] it
    sets the flags of the table that is there and leaves the rest of
    the page as it is.  (Nothing is stated for other values read from
    the address.) *)
Theorem handlePopstate_throws p :
  (forall e,
     axesFromQueryParams p = Throw e -> handlePopstate p = Some (Throw e))
  /\ (forall jx jy xAxisData yAxisData,
        axesFromQueryParams p = Ok (jx, jy) ->
        asAxis jx = Some xAxisData -> asAxis jy = Some yAxisData ->
        exists p', handlePopstate p = Some (Ok p'))
  /\ (forall elements jy,
        axesFromQueryParams p = Ok (JSON.JArr elements, jy) ->
        existsb isPrimitive elements = true ->
        handlePopstate p = Some (Throw TypeError))
  /\ (forall jx jy x,
        axesFromQueryParams p = Ok (jx, jy) ->
        asAxis jx = Some (Some x) ->
        match jy with
        | JSON.JNull | JSON.JArr _ => False
        | _ => True
        end ->
        handlePopstate p = Some (Throw TypeError))
  /\ (get xAxisDataName (ofString (search p)) = None ->
      get yAxisDataName (ofString (search p)) = None ->
      handlePopstate p = Some (Ok (setCellContrast (contrast p) p))).
Proof.
  split; [|split; [|split; [|split]]].
  - intros e A. unfold handlePopstate. now rewrite A.
  - intros jx jy ax ay A Ex Ey. unfold handlePopstate. rewrite A, Ex, Ey.
    destruct ay as [y|].
    + assert (Hq : exists q, hydrateForm ax (Some y) p = Ok q).
      { unfold hydrateForm.
        destruct (negb (jseqb (stringifyAxis ax) (stringifyAxis (Some y))));
          eauto. }
      destruct Hq as [q Hq]. rewrite Hq. cbn [bind restoreTable].
      destruct (writeTableToDOM_spec ax y false q) as [p' [Hw _]].
      rewrite Hw. eauto.
    + apply asAxis_null in Ey.
      rewrite (axes_null p jx jy A Ey) in Ex. injection Ex as <-.
      eexists. reflexivity.
  - intros elements jy A Hprim. unfold handlePopstate. rewrite A.
    cbn [asAxis throwsTypeError].
    rewrite (traverse_asEntry_primitive elements Hprim), Hprim.
    reflexivity.
  - intros jx jy x A Ex Hy. unfold handlePopstate. rewrite A, Ex.
    destruct jx as [| | | |elements|]; try discriminate.
    cbn [asAxis] in Ex. cbn [throwsTypeError].
    destruct (traverse asEntry elements) as [x'|]; [|discriminate].
    destruct jy; try contradiction; cbn [asAxis];
      now rewrite orb_true_r.
  - intros Gx Gy. unfold handlePopstate, axesFromQueryParams,
      getDataFromQueryParams, readAxis. rewrite Gx, Gy. reflexivity.
Qed.

(** X20.  Reversing twice.  With two texts that are not blank, the
    second reversal puts both texts back, and the table it writes is
    the one of the axes read from them.  With a blank X text the first
    reversal moves the Y text to X and leaves Y blank, and the second
    does nothing: the reversal is then not undone by itself. *)
Theorem reverseInputData_twice p :
  trim (yInput p) <> [] ->
  exists p1 p2,
    reverseInputData p = Ok p1
    /\ reverseInputData p1 = Ok p2
    /\ xInput p1 = yInput p /\ yInput p1 = xInput p
    /\ (trim (xInput p) = [] -> p2 = p1)
    /\ (trim (xInput p) <> [] ->
        xInput p2 = xInput p /\ yInput p2 = yInput p
        /\ contrast p2 = contrast p
        /\ (getInputData (xInput p) <> [] ->
            tableContainer p2
            = setCellContrastTable (contrast p)
                (parseFragment
                   (buildTable (getInputData (xInput p))
                               (getInputData (yInput p)))))).
Proof.
  intros Hy. unfold reverseInputData at 1.
  destruct (trim (yInput p)) as [|c r] eqn:Ey; [congruence|].
  cbn [length Nat.eqb]. cbn [withInputs xInput yInput].
  match goal with
  | |- exists p1 p2, writeTableToDOM ?a ?b ?d ?q = _ /\ _ =>
      destruct (writeTableToDOM_spec a b d q)
        as [p1 [H1 [X1 [Y1 [C1 _]]]]]
  end.
  cbn [withInputs xInput yInput contrast] in X1, Y1, C1.
  destruct (trim (xInput p)) as [|c' r'] eqn:Ex.
  - exists p1, p1. split; [exact H1|]. split.
    + unfold reverseInputData. now rewrite Y1, Ex.
    + split; [exact X1|]. split; [exact Y1|]. split; [reflexivity|].
      intros N. congruence.
  - assert (E2 : reverseInputData p1
                 = writeTableToDOM (Some (getInputData (xInput p)))
                     (getInputData (yInput p)) true
                     (withInputs (xInput p) (yInput p) p1)).
    { unfold reverseInputData. rewrite Y1, Ex. cbn [length Nat.eqb].
      cbn [withInputs xInput yInput]. rewrite ?X1, ?Y1. reflexivity. }
    destruct (writeTableToDOM_spec (Some (getInputData (xInput p)))
                (getInputData (yInput p)) true
                (withInputs (xInput p) (yInput p) p1))
      as [p2 [H2 [X2 [Y2 [C2 [T2 _]]]]]].
    rewrite <- E2 in H2.
    cbn [withInputs xInput yInput contrast] in X2, Y2, C2, T2.
    exists p1, p2. split; [exact H1|]. split; [exact H2|].
    split; [exact X1|]. split; [exact Y1|].
    split; [discriminate|]. intros _.
    split; [exact X2|]. split; [exact Y2|]. split; [congruence|].
    intros Hne. rewrite T2, C1.
    destruct (getInputData (xInput p)); [congruence|reflexivity].
Qed.

(** X21.  A second submission of the same texts writes the same table
    and the same address as the first; it still adds an entry to the
    history when the X text has a valid colour. *)
Theorem handleSubmit_twice p :
  exists p1 p2,
    handleSubmit p = Ok p1
    /\ handleSubmit p1 = Ok p2
    /\ tableContainer p2 = tableContainer p1
    /\ search p2 = search p1
    /\ xInput p2 = xInput p /\ yInput p2 = yInput p
    /\ (getInputData (xInput p) <> [] -> pushed p2 = S (S (pushed p)))
    /\ (getInputData (xInput p) = [] -> pushed p2 = pushed p).
Proof.
  unfold handleSubmit at 1.
  set (x := getInputData (xInput p)).
  set (y := if (0 <? length (trim (yInput p)))%nat
            then getInputData (yInput p) else x).
  destruct (writeTableToDOM_spec (Some x) y true p)
    as [p1 [H1 [X1 [Y1 [C1 [T1 [_ Q1]]]]]]].
  specialize (Q1 eq_refl).
  assert (E : handleSubmit p1 = writeTableToDOM (Some x) y true p1).
  { unfold handleSubmit, x, y. now rewrite X1, Y1. }
  destruct (writeTableToDOM_spec (Some x) y true p1)
    as [p2 [H2 [X2 [Y2 [C2 [T2 [_ Q2]]]]]]].
  specialize (Q2 eq_refl).
  exists p1, p2. split; [exact H1|]. split; [now rewrite E|].
  clearbody x y. destruct x as [|a r].
  - cbn [setQueryParams] in Q1, Q2. injection Q1 as <-. injection Q2 as <-.
    split.
    + unfold setCellContrast, withTable. cbn [tableContainer contrast].
      now rewrite setCellContrastTable_again.
    + split; [reflexivity|]. split; [reflexivity|]. split; [reflexivity|].
      split; [congruence|reflexivity].
  - split; [now rewrite T2, T1, C1|].
    match type of Q1 with
    | setQueryParams _ _ ?q = _ =>
        destruct (setQueryParams_installs (a :: r) y q ltac:(discriminate))
          as [ps1 [U1 [S1 R1]]]; rewrite S1 in Q1; injection Q1 as <-
    end.
    match type of Q2 with
    | setQueryParams _ _ ?q = _ =>
        destruct (setQueryParams_installs (a :: r) y q ltac:(discriminate))
          as [ps2 [U2 [S2 _]]]; rewrite S2 in Q2; injection Q2 as <-
    end.
    cbn [setCellContrast withTable search pushState] in U2.
    cbn [setCellContrast withTable search pushState] in R1.
    rewrite R1, (updateParams_fixed _ _ _ _ U1) in U2. injection U2 as <-.
    split; [reflexivity|]. split; [reflexivity|]. split; [reflexivity|].
    split; [reflexivity|]. intros N. discriminate.
Qed.

Lemma in_joinWith sep (x : list Z) r c :
  In c x -> In c (joinWith sep (x :: r)).
Proof.
  intros H. destruct r as [|y r']; [exact H|].
  change (joinWith sep (x :: y :: r'))
    with (x ++ sep :: joinWith sep (y :: r')).
  apply in_or_app. now left.
Qed.

Lemma hydrateText_not_blank y :
  isValid [] = false -> Forall restorable y -> y <> [] ->
  trim (hydrateText y) <> [].
Proof.
  intros Hv HF Hne Ht. apply trim_empty_whitespace in Ht.
  rewrite forallb_forall in Ht.
  destruct y as [|e r]; [congruence|]. inversion HF as [|? ? He _]; subst.
  assert (Hc : exists c, In c (hydrateLine e) /\ isWhiteSpace c = false).
  { assert (Hcol : forall col,
               isValid col = true -> plainString col ->
               exists c, In c col /\ isWhiteSpace c = false).
    { intros col V [T _]. destruct col as [|c0 col']; [congruence|].
      exists c0. split; [now left|].
      assert (L : noLeadingWS (c0 :: col'))
        by (rewrite <- T; apply trimEnd_noLeading, trimStart_noLeading).
      exact L. }
    destruct He as [[c [-> [V P]]]|[n [c [-> [V [_ [_ [_ P]]]]]]]];
      destruct (Hcol c V P) as [c0 [I W]]; exists c0; (split; [|exact W]).
    - rewrite hydrateLine_color. now right.
    - rewrite hydrateLine_named. apply in_or_app. right.
      right. right. now right. }
  destruct Hc as [c [I W]].
  rewrite (Ht c) in W; [discriminate|].
  unfold hydrateText. cbn [map]. now apply in_joinWith.
Qed.

(** X22.  A submission right after the restoration of the form works
    on the restored axes: after [hydrateForm] with arrays [x] and [y]
    of entries that a line can carry, without carriage return,
    [handleSubmit] reads [x] and [y] back from the text areas.  When
    the axes are equal this needs a Y text area that was blank before,
    since [hydrateForm] then leaves it alone; when they differ it
    needs a Y axis that is not empty, since an empty one is written as
    a blank text, for which [handleSubmit] takes the X axis. *)
Theorem hydrateForm_then_handleSubmit x y p :
  isValid [] = false ->
  Forall restorable x -> Forall restorable y ->
  forallb noCarriageReturn x = true -> forallb noCarriageReturn y = true ->
  wf_axis x -> wf_axis y ->
  (x = y -> trim (yInput p) = []) -> (x <> y -> y <> []) ->
  exists q,
    hydrateForm (Some x) (Some y) p = Ok q
    /\ handleSubmit q = writeTableToDOM (Some x) y true q.
Proof.
  intros Hv Rx Ry Cx Cy Wx Wy Hsame Hdiff.
  destruct (hydrateForm_arrays x y p Wx Wy) as [q [Hq [X1 [Y1 [Y2 _]]]]].
  rewrite (hydrateText_noCR x Cx) in X1.
  rewrite (hydrateText_noCR y Cy) in Y2.
  exists q. split; [exact Hq|]. unfold handleSubmit.
  rewrite X1, (getInputData_hydrateText x Hv Rx).
  destruct (list_eq_dec (list_eq_dec
              (fun a b : key * jsstring =>
                 ltac:(decide equality;
                       [apply (list_eq_dec Z.eq_dec)|decide equality])))
              x y) as [E|N].
  - rewrite (Y1 E), (Hsame E). cbn [length Nat.ltb Nat.leb]. now subst y.
  - rewrite (Y2 N).
    destruct (trim (hydrateText y)) as [|c r] eqn:Et.
    + now destruct (hydrateText_not_blank y Hv Ry (Hdiff N)).
    + cbn [length Nat.ltb Nat.leb].
      now rewrite (getInputData_hydrateText y Hv Ry).
Qed.

(** X23.  [hydrateForm] with axes that are [null].  With both [null]
    it writes nothing.  With an X axis that is [null] and an array for
    Y it writes the lines of Y into the Y text area (which returns
    them with its line breaks as line feeds) and leaves the X text
    area alone.  With an array for X and [null] for Y it throws a
    TypeError, whatever the array: the JSON texts differ, and [map] is
    called on [null]. *)
Theorem hydrateForm_null_axes (x y : list ColorEntry) (p : Page) :
  hydrateForm None None p = Ok p
  /\ hydrateForm None (Some y) p
     = Ok (withInputs (xInput p) (normalizeNewlines (hydrateText y)) p)
  /\ hydrateForm (Some x) None p = Throw TypeError.
Proof.
  split; [reflexivity|]. split.
  - unfold hydrateForm, stringifyAxis, JSON.stringifyEntries. reflexivity.
  - unfold hydrateForm, stringifyAxis, JSON.stringifyEntries. reflexivity.
Qed.

(** X24.  [writeTableToDOM] leaves the two text areas and the control
    as they are.  It replaces the content of the table container, by
    what the markup of the table parses to, exactly when the X axis is
    an array that is not empty, and otherwise keeps the content that
    is there; in both cases the flags are set for the threshold of the
    control.  Called with [updateQueryParams] false it leaves the
    address and the history as they are. *)
Theorem writeTableToDOM_frame x y b p :
  exists p',
    writeTableToDOM x y b p = Ok p'
    /\ xInput p' = xInput p /\ yInput p' = yInput p
    /\ contrast p' = contrast p
    /\ tableContainer p'
       = match x with
         | Some ((_ :: _) as x) =>
             setCellContrastTable (contrast p)
               (parseFragment (buildTable x y))
         | _ => setCellContrastTable (contrast p) (tableContainer p)
         end
    /\ (b = false -> search p' = search p /\ pushed p' = pushed p).
Proof.
  destruct (writeTableToDOM_spec x y b p)
    as [p' [H [H1 [H2 [H3 [H4 [H5 _]]]]]]].
  exists p'. repeat split; try assumption; now apply H5.
Qed.

End PageFunctionsMore.

End PageMore.

Lemma lineEntries_classification_witness :
  split COLON (lit "red: #000: x"%string)
  = [lit "red"%string; lit " #000"%string; lit " x"%string]
  /\ @lineEntries sampleColorMath (lit "red: #000: x"%string)
     = [[(Kcolor, lit "#000"%string)]].
Proof.
  assert (H : split COLON (lit "red: #000: x"%string)
              = [lit "red"%string; lit " #000"%string; lit " x"%string])
    by reflexivity.
  split; [exact H|].
  exact (proj2 (@lineEntries_classification sampleColorMath
                  (lit "red: #000: x"%string)) _ _ _ H).
Defined.

Lemma getInputData_size_witness :
  getInputData (CM := sampleColorMath) (lit "  "%string ++ LF :: lit " "%string) = [].
Proof.
  apply (proj2 (getInputData_size (CM := sampleColorMath)
                  (lit "  "%string ++ LF :: lit " "%string)));
    reflexivity.
Defined.

Lemma getInputData_strings_witness :
  let text := lit " ink : #000, ; black"%string in
  let s := lit "ink"%string in
  trim s = s /\ noneOf [COLON; SEMICOLON; LF] s /\ incl s text
  /\ (wf_string text -> wf_string s).
Proof.
  apply (getInputData_strings (CM := sampleColorMath)
           (lit " ink : #000, ; black"%string)
           [(Kname, lit "ink"%string); (Kcolor, lit "#000"%string)] (lit "ink"%string)).
  - vm_compute. now left.
  - vm_compute. now left.
Defined.

Lemma restorable_brand : restorable (CM := sampleColorMath) Samples.brand.
Proof.
  right. exists (lit "Brand"%string), (lit "#ff0000"%string).
  repeat split; try reflexivity; try discriminate;
    intros c [<-|[<-|[<-|[]]]]; vm_compute; intuition discriminate.
Qed.

Lemma restorable_white : restorable (CM := sampleColorMath) Samples.white.
Proof.
  left. exists (lit "#fff"%string).
  repeat split; try reflexivity;
    intros c [<-|[<-|[<-|[]]]]; vm_compute; intuition discriminate.
Qed.

Lemma hydrateText_round_trip_witness :
  getInputData (CM := sampleColorMath)
    (normalizeNewlines (hydrateText [Samples.brand; Samples.white]))
  = [Samples.brand; Samples.white].
Proof.
  apply (hydrateText_round_trip (CM := sampleColorMath)
           [Samples.brand; Samples.white]).
  - reflexivity.
  - apply Forall_cons; [apply restorable_brand|].
    apply Forall_cons; [apply restorable_white|apply Forall_nil].
  - reflexivity.
Defined.

Lemma getInputData_hydrate_stable_witness :
  let text := Samples.namedThenBare in
  getInputData (CM := sampleColorMath)
    (hydrateText (getInputData (CM := sampleColorMath) text))
  = getInputData (CM := sampleColorMath) text.
Proof.
  apply (getInputData_hydrate_stable (CM := sampleColorMath)
           Samples.namedThenBare); reflexivity.
Defined.

Lemma plainString_ink : plainString (lit "ink"%string).
Proof.
  repeat split; try reflexivity.
  intros c [<-|[<-|[<-|[]]]]; vm_compute; intuition discriminate.
Qed.

Lemma plainString_hash000 : plainString (lit "#000"%string).
Proof.
  repeat split; try reflexivity.
  intros c [<-|[<-|[<-|[]]]]; vm_compute; intuition discriminate.
Qed.

Lemma hydrateText_drops_final_comma_witness :
  let text := lit "ink,,:#000"%string in
  getInputData (CM := sampleColorMath) text
  = [[(Kname, lit "ink,"%string); (Kcolor, lit "#000"%string)]]
  /\ getInputData (CM := sampleColorMath)
       (hydrateText (getInputData (CM := sampleColorMath) text))
     = [[(Kname, lit "ink"%string); (Kcolor, lit "#000"%string)]].
Proof.
  apply (hydrateText_drops_final_comma (CM := sampleColorMath)
           (lit "ink"%string) (lit "#000"%string)).
  - apply plainString_ink.
  - apply plainString_hash000.
  - reflexivity.
  - reflexivity.
  - discriminate.
  - reflexivity.
Defined.

Lemma setCellContrast_monotone_witness :
  Forall2 Bool.le
    (flags (setCellContrastTable (Finite 3)
              [cellOfRatio (21 # 1); cellOfRatio (4 # 1)]))
    (flags (setCellContrastTable (Finite (9 # 2))
              [cellOfRatio (21 # 1); cellOfRatio (4 # 1)])).
Proof.
  apply (proj1 (setCellContrast_monotone
                  [cellOfRatio (21 # 1); cellOfRatio (4 # 1)])).
  vm_compute. discriminate.
Defined.


Lemma buildTable_markup_shape_witness :
  occurrences (lit "<tr"%string)
    (@buildDataRows sampleColorMath [Samples.white]
       [Samples.black; Samples.white]) = 2%nat
  /\ occurrences (lit "<td"%string)
       (@buildDataRows sampleColorMath [Samples.white]
          [Samples.black; Samples.white]) = 2%nat.
Proof.
  destruct (@buildTable_markup_shape sampleColorMath [Samples.white]
              [Samples.black; Samples.white]) as (A & B & _);
    [reflexivity|reflexivity|].
  split; [exact A|exact B].
Defined.

Lemma copyOnClick_copies_shown_ratio_witness :
  copyOnClick (cellOfRatio (21 # 1)) = Some (lit "21.00"%string).
Proof.
  apply (copyOnClick_copies_shown_ratio (21 # 1) (cellOfRatio (21 # 1)));
    reflexivity.
Defined.

Lemma setQueryParams_single_parameters_witness :
  exists p' ex,
    setQueryParams (Some [Samples.white]) [Samples.black] SamplePages.busy
    = Ok p'
    /\ encodeURIComponent (JSON.stringifyEntries [Samples.white]) = Ok ex
    /\ URLSearchParams.getAll xAxisDataName
         (URLSearchParams.ofString (search p')) = [ex]
    /\ (length (URLSearchParams.getAll yAxisDataName
                  (URLSearchParams.ofString (search p'))) <= 1)%nat.
Proof.
  apply (PageMore.setQueryParams_single_parameters
           [Samples.white] [Samples.black] SamplePages.busy).
  - discriminate.
  - apply wf_axisb_ok. reflexivity.
Defined.

Lemma handlers_without_colours_witness :
  handleSubmit (CM := sampleColorMath) (HP := sampleHTMLParser)
    SamplePages.malformed
  = Ok (setCellContrast (contrast SamplePages.malformed)
          SamplePages.malformed).
Proof.
  apply (proj1 (PageMore.handlers_without_colours (CM := sampleColorMath)
                  (HP := sampleHTMLParser) SamplePages.malformed)).
  reflexivity.
Defined.

Lemma handleSubmit_blank_y_witness :
  exists p',
    handleSubmit (CM := sampleColorMath) (HP := sampleHTMLParser)
      SamplePages.blankY = Ok p'
    /\ tableContainer p'
       = setCellContrastTable (contrast SamplePages.blankY)
           (parseFragment (HTMLParser := sampleHTMLParser)
              (buildTable (CM := sampleColorMath)
                 (getInputData (CM := sampleColorMath)
                    (xInput SamplePages.blankY))
                 (getInputData (CM := sampleColorMath)
                    (xInput SamplePages.blankY))))
    /\ URLSearchParams.has yAxisDataName
         (URLSearchParams.ofString (search p')) = false
    /\ xInput p' = xInput SamplePages.blankY
    /\ yInput p' = yInput SamplePages.blankY
    /\ pushed p' = S (pushed SamplePages.blankY).
Proof.
  apply (PageMore.handleSubmit_blank_y (CM := sampleColorMath)
           (HP := sampleHTMLParser) SamplePages.blankY).
  - reflexivity.
  - vm_compute. discriminate.
Defined.

Lemma handlePopstate_restores_witness :
  exists p' p'',
    setQueryParams (Some [Samples.brand]) [Samples.white] SamplePages.busy
    = Ok p'
    /\ handlePopstate (CM := sampleColorMath) (HP := sampleHTMLParser) p'
       = Some (Ok p'')
    /\ xInput p'' = normalizeNewlines (hydrateText [Samples.brand])
    /\ ([Samples.brand] = [Samples.white] ->
        yInput p'' = yInput SamplePages.busy)
    /\ ([Samples.brand] <> [Samples.white] ->
        yInput p'' = normalizeNewlines (hydrateText [Samples.white]))
    /\ tableContainer p''
       = setCellContrastTable (contrast SamplePages.busy)
           (parseFragment (HTMLParser := sampleHTMLParser)
              (buildTable (CM := sampleColorMath)
                 [Samples.brand] [Samples.white]))
    /\ contrast p'' = contrast SamplePages.busy
    /\ search p'' = search p' /\ pushed p'' = pushed p'.
Proof.
  apply (PageMore.handlePopstate_restores (CM := sampleColorMath)
           (HP := sampleHTMLParser)
           [Samples.brand] [Samples.white] SamplePages.busy).
  - discriminate.
  - apply wf_axisb_ok. reflexivity.
  - apply wf_axisb_ok. reflexivity.
  - reflexivity.
  - reflexivity.
Defined.

Lemma wf_string_code_unitb s : forallb code_unitb s = true -> wf_string s.
Proof.
  intros H. unfold wf_string. rewrite forallb_forall in H.
  apply Forall_forall. intros c Hc. specialize (H c Hc).
  unfold code_unitb in H. unfold code_unit. lia.
Qed.

Lemma handleSubmit_then_handlePopstate_witness :
  exists p' p'',
    handleSubmit (CM := sampleColorMath) (HP := sampleHTMLParser)
      SamplePages.busy = Ok p'
    /\ handlePopstate (CM := sampleColorMath) (HP := sampleHTMLParser) p'
       = Some (Ok p'')
    /\ tableContainer p'' = tableContainer p'
    /\ contrast p'' = contrast p'
    /\ search p'' = search p' /\ pushed p'' = pushed p'.
Proof.
  apply (PageMore.handleSubmit_then_handlePopstate (CM := sampleColorMath)
           (HP := sampleHTMLParser) SamplePages.busy).
  - apply wf_string_code_unitb. reflexivity.
  - apply wf_string_code_unitb. reflexivity.
  - vm_compute. discriminate.
Defined.

Lemma handlePopstate_throws_witness :
  handlePopstate (CM := sampleColorMath) (HP := sampleHTMLParser)
    SamplePages.fresh
  = Some (Ok (setCellContrast (contrast SamplePages.fresh)
                SamplePages.fresh))
  /\ handlePopstate (CM := sampleColorMath) (HP := sampleHTMLParser)
       SamplePages.malformed
     = Some (Throw SyntaxError)
  /\ handlePopstate (CM := sampleColorMath) (HP := sampleHTMLParser)
       (mkPage [] [] [] (Finite (9 # 2))
          (lit "?xAxisData=%5Bnull%5D"%string) 0)
     = Some (Throw TypeError)
  /\ handlePopstate (CM := sampleColorMath) (HP := sampleHTMLParser)
       (mkPage [] [] [] (Finite (9 # 2))
          (lit "?xAxisData=%5B%5D&yAxisData=7"%string) 0)
     = Some (Throw TypeError).
Proof.
  split; [|split; [|split]].
  - apply (proj2 (proj2 (proj2 (proj2 (PageMore.handlePopstate_throws
                           (CM := sampleColorMath) (HP := sampleHTMLParser)
                           SamplePages.fresh))))); reflexivity.
  - apply (proj1 (PageMore.handlePopstate_throws
                    (CM := sampleColorMath) (HP := sampleHTMLParser)
                    SamplePages.malformed)).
    vm_compute. reflexivity.
  - apply (proj1 (proj2 (proj2 (PageMore.handlePopstate_throws
                    (CM := sampleColorMath) (HP := sampleHTMLParser)
                    (mkPage [] [] [] (Finite (9 # 2))
                       (lit "?xAxisData=%5Bnull%5D"%string) 0))))
             [JSON.JNull] (JSON.JArr [JSON.JNull]));
      vm_compute; reflexivity.
  - apply (proj1 (proj2 (proj2 (proj2 (PageMore.handlePopstate_throws
                    (CM := sampleColorMath) (HP := sampleHTMLParser)
                    (mkPage [] [] [] (Finite (9 # 2))
                       (lit "?xAxisData=%5B%5D&yAxisData=7"%string) 0)))))
             (JSON.JArr []) (JSON.JNum (lit "7"%string)) []);
      vm_compute; try reflexivity; exact I.
Defined.

Lemma reverseInputData_twice_witness :
  exists p1 p2,
    reverseInputData (CM := sampleColorMath) (HP := sampleHTMLParser)
      SamplePages.busy = Ok p1
    /\ reverseInputData (CM := sampleColorMath) (HP := sampleHTMLParser) p1
       = Ok p2
    /\ xInput p1 = yInput SamplePages.busy
    /\ yInput p1 = xInput SamplePages.busy
    /\ (trim (xInput SamplePages.busy) = [] -> p2 = p1)
    /\ (trim (xInput SamplePages.busy) <> [] ->
        xInput p2 = xInput SamplePages.busy
        /\ yInput p2 = yInput SamplePages.busy
        /\ contrast p2 = contrast SamplePages.busy
        /\ (getInputData (CM := sampleColorMath) (xInput SamplePages.busy)
            <> [] ->
            tableContainer p2
            = setCellContrastTable (contrast SamplePages.busy)
                (parseFragment (HTMLParser := sampleHTMLParser)
                   (buildTable (CM := sampleColorMath)
                      (getInputData (CM := sampleColorMath)
                         (xInput SamplePages.busy))
                      (getInputData (CM := sampleColorMath)
                         (yInput SamplePages.busy)))))).
Proof.
  apply (PageMore.reverseInputData_twice (CM := sampleColorMath)
           (HP := sampleHTMLParser) SamplePages.busy).
  vm_compute. discriminate.
Defined.

Lemma hydrateForm_then_handleSubmit_witness :
  exists q,
    hydrateForm (Some [Samples.brand]) (Some [Samples.white])
      SamplePages.fresh = Ok q
    /\ handleSubmit (CM := sampleColorMath) (HP := sampleHTMLParser) q
       = writeTableToDOM (CM := sampleColorMath) (HP := sampleHTMLParser)
           (Some [Samples.brand]) [Samples.white] true q.
Proof.
  apply (PageMore.hydrateForm_then_handleSubmit (CM := sampleColorMath)
           (HP := sampleHTMLParser)
           [Samples.brand] [Samples.white] SamplePages.fresh).
  - reflexivity.
  - apply Forall_cons; [apply restorable_brand|apply Forall_nil].
  - apply Forall_cons; [apply restorable_white|apply Forall_nil].
  - reflexivity.
  - reflexivity.
  - apply wf_axisb_ok. reflexivity.
  - apply wf_axisb_ok. reflexivity.
  - discriminate.
  - discriminate.
Defined.

Lemma lineEntries_comment_witness :
  lineEntries (CM := sampleColorMath)
    (lit "ink: #000"%string ++ SEMICOLON :: lit " for text"%string)
  = lineEntries (CM := sampleColorMath) (lit "ink: #000"%string).
Proof.
  apply (proj1 (lineEntries_comment (CM := sampleColorMath)
                  (lit "ink: #000"%string) (lit " for text"%string))).
  - vm_compute. intuition discriminate.
  - reflexivity.
Defined.
